(** * ClassifierEngine (watchmal/engine/engine_classifier.py)

    A shallow embedding of the training / validation / evaluation engine, of
    its construction and configuration and of its checkpoint save and
    restore, with the properties the specification states about them and
    further properties read off the code.

    Modelling choices.
    - Python floats (losses, accuracies, tensor entries) are rationals [Q]:
      the finite values, without rounding.  NaN and the infinities are not
      represented.
    - Python ints are [Z]; [%] is [Z.modulo] (both take the sign of the
      divisor) and raises ZeroDivisionError on a zero divisor.
    - The engine object, the files on disk, the iterator objects created by
      [iter(...)] and the values other processes contribute to a collective
      are one [world]; a method is a function from a world to a result, a new
      world and the list of events it produced.  An exception leaves the
      world as it was when it was raised.
    - The deep-learning framework and the attribution library are the
      interface [Framework]: the engine only sequences calls into them.
    - Events record what a run did, in order.  Two of them carry a reading of
      the state at that moment, for the properties to refer to: [EvNext] the
      number of batches its iterator had left, [EvValLog] the value of
      [best_validation_loss].
    - A data loader yields the same batches each time it is iterated. *)

From Stdlib Require Import ZArith QArith Qminmax List String Lia DecimalString.
From Stdlib Require Import DecimalZ DecimalPos.
From stdpp Require Import gmap strings list fin_maps.
Import ListNotations.

Set Warnings "-register-all".

Local Open Scope string_scope.
Local Open Scope list_scope.
Local Open Scope Z_scope.

(** ** Values *)

(** A tensor holding one batch of inputs: batch x channel x flattened pixels. *)
Definition tensor := list (list (list Q)).

(** What a data loader yields: [{'data': ..., 'labels': ..., 'indices': ...}]. *)
Record batch := mkBatch {
  b_data : tensor;
  b_labels : list Z;
  b_indices : list Z
}.

(** A numpy array of any rank. *)
Inductive nd :=
| Sc (q : Q)
| Arr (l : list nd).

(** The Python values the evaluation accumulators take: lists and arrays. *)
Inductive pyobj :=
| PList (l : list pyobj)
| PNd (a : nd).

Inductive exn :=
| StopIteration
| ZeroDivisionError
| AttributeError (attr : string)
| KeyError (key : string)
| IndexError
| TypeError
| FileNotFoundError (path : string)
| ExternalError (msg : string).

Inductive result (A : Type) :=
| Ok (a : A)
| Err (e : exn).
Arguments Ok {A} a.
Arguments Err {A} e.

(** Row of [val_log]. *)
Record val_record := mkValRecord {
  vr_iteration : Z;
  vr_loss : Q;
  vr_accuracy : Q;
  vr_saved_best : Z;
  vr_epoch : Z
}.

(** An iterator object is identified by its position in the store. *)
Definition loc := nat.

Inductive event :=
| EvIter (l : loc)                       (* iter(loader) returned object l *)
| EvNext (l : loc) (left : nat)          (* next(l) was called, l having left batches to yield *)
| EvRaise (e : exn)                      (* an exception was raised *)
| EvCaught (e : exn)                     (* an except clause handled it *)
| EvValidate (l : loc) (iteration : Z)   (* validate entered, iterator l *)
| EvForward (train : bool) (loss acc : Q)
| EvTrainBatch (iteration : Z)           (* "Train on batch" reached in train *)
| EvTrainLog (iteration epoch : Z) (loss acc : Q)
| EvValLog (r : val_record) (best : Q)   (* val_log.record(r), self.best_validation_loss being best *)
| EvSave (suffix filename : string)      (* torch.save *)
| EvNpSave (filename : string)           (* np.save *)
| EvGradient (target : list (list Q)).   (* with Gradient(...): attributor(data, target) *)

Arguments EvIter l%_nat.
Arguments EvNext (l left)%_nat.
Arguments EvValidate l%_nat iteration%_Z.

(** ** The external libraries *)

Inductive composite := EpsilonAlpha2Beta1 | EpsilonPlusFlat.

Class Framework := {
  Weights : Type;
  OptState : Type;
  SchedState : Type;
  (* self.model(data) in training or evaluation mode: one row of scores per input *)
  model_apply : Weights -> bool -> tensor -> result (list (list Q));
  (* nn.Softmax(dim=1) *)
  softmax_rows : list (list Q) -> list (list Q);
  (* nn.CrossEntropyLoss *)
  cross_entropy : list (list Q) -> list Z -> result Q;
  (* optimizer.zero_grad(); loss.backward(); optimizer.step() *)
  optimizer_step : OptState -> Weights -> tensor -> list Z -> OptState * Weights;
  (* scheduler.step() *)
  scheduler_step : SchedState -> OptState -> SchedState * OptState;
  (* zennit's Gradient attributor under a composite with the ResNet canonizer:
     attributor(data, target) = (output, attribution) *)
  gradient_attributor :
    composite -> Weights -> tensor -> list (list Q) -> result (list (list Q) * tensor)
}.

(** ** numpy and Python helpers *)

Definition Qsum (l : list Q) : Q := fold_right Qplus 0%Q l.

Fixpoint nd_flatten (a : nd) : list Q :=
  match a with
  | Sc q => [q]
  | Arr l => (fix go (l : list nd) : list Q :=
                match l with
                | [] => []
                | x :: r => nd_flatten x ++ go r
                end) l
  end.

(** np.mean / np.sum over all entries. *)
Definition np_sum (a : nd) : Q := Qsum (nd_flatten a).
Definition np_mean (a : nd) : Q :=
  (np_sum a / inject_Z (Z.of_nat (length (nd_flatten a))))%Q.

Definition nd_vec (l : list Q) : nd := Arr (map Sc l).
Definition nd_mat (l : list (list Q)) : nd := Arr (map nd_vec l).
Definition nd_ints (l : list Z) : nd := nd_vec (map inject_Z l).

(** np.array(x) for a Python list of lists / arrays. *)
Fixpoint to_nd (o : pyobj) : nd :=
  match o with
  | PNd a => a
  | PList l => Arr ((fix go (l : list pyobj) : list nd :=
                       match l with
                       | [] => []
                       | x :: r => to_nd x :: go r
                       end) l)
  end.

(** The items iterating over a value yields ([list.extend] consumes them). *)
Definition py_items (o : pyobj) : result (list pyobj) :=
  match o with
  | PList l => Ok l
  | PNd (Arr l) => Ok (map PNd l)
  | PNd (Sc _) => Err TypeError
  end.

(** [o[i]]. *)
Definition py_getitem (o : pyobj) (i : Z) : result pyobj :=
  match o with
  | PList l => match l !! Z.to_nat i with Some x => Ok x | None => Err IndexError end
  | PNd (Arr l) => match l !! Z.to_nat i with Some x => Ok (PNd x) | None => Err IndexError end
  | PNd (Sc _) => Err IndexError
  end.

(** [o.extend(x)]: lists have it, arrays do not. *)
Definition py_extend (o x : pyobj) : result pyobj :=
  match o with
  | PList l => match py_items x with
               | Ok xs => Ok (PList (l ++ xs))
               | Err e => Err e
               end
  | PNd _ => Err (AttributeError "extend")
  end.

(** [o[i].extend(x)], the inner list being updated in place. *)
Definition py_extend_at (o : pyobj) (i : Z) (x : pyobj) : result pyobj :=
  match py_getitem o i with
  | Err e => Err e
  | Ok item =>
      match py_extend item x with
      | Err e => Err e
      | Ok item' =>
          match o with
          | PList l => Ok (PList (<[Z.to_nat i := item']> l))
          | PNd _ => Err (AttributeError "extend")
          end
      end
  end.

(** torch.argmax over one row: the first index holding the largest score. *)
Fixpoint argmax_from (best : Q) (bi i : Z) (row : list Q) : Z :=
  match row with
  | [] => bi
  | x :: r => match (best ?= x)%Q with
              | Lt => argmax_from x i (i + 1) r
              | _ => argmax_from best bi (i + 1) r
              end
  end.

Definition argmax (row : list Q) : Z :=
  match row with
  | [] => 0
  | x :: r => argmax_from x 0 1 r
  end.

(** [(predicted_labels == labels).sum().item()]. *)
Fixpoint count_equal (p l : list Z) : Z :=
  match p, l with
  | x :: p', y :: l' => (if Z.eqb x y then 1 else 0) + count_equal p' l'
  | _, _ => 0
  end.

Definition Qltb (x y : Q) : bool :=
  match (x ?= y)%Q with Lt => true | _ => false end.

(** [str(n)] for an int. *)
Definition str_of_int (n : Z) : string := NilZero.string_of_int (Z.to_int n).

(** torch.eye(4)[[i]]: the one-hot row of class i. *)
Definition eye_row (i : Z) : list Q :=
  map (fun j : Z => if Z.eqb j i then 1%Q else 0%Q) [0; 1; 2; 3].

(** [t.sum(0)] on a batch x channel x pixel tensor: the entrywise sum of the
    inputs of the batch. *)
Definition row_add (r1 r2 : list Q) : list Q :=
  map (fun p : Q * Q => (fst p + snd p)%Q) (combine r1 r2).
Definition sample_add (s1 s2 : list (list Q)) : list (list Q) :=
  map (fun p => row_add (fst p) (snd p)) (combine s1 s2).
Definition sum0 (t : tensor) : list (list Q) :=
  match t with
  | [] => []
  | s :: r => fold_left sample_add r s
  end.

(** ** The engine and its world *)

Section Engine.
Context {FW : Framework}.

(** What a checkpoint dictionary holds under its keys. *)
Inductive ckpt_val :=
| CInt (n : Z)
| COpt (o : OptState)
| CWeights (ws : Weights).

Inductive file :=
| CkptFile (d : gmap string ckpt_val)    (* written by torch.save *)
| NpyFile (a : nd).                      (* written by np.save *)

(** The engine object ([self]) and what lies outside it. *)
Record world := mkWorld {
  w_dirpath : string;                       (* self.dirpath *)
  w_rank : Z;                               (* self.rank *)
  w_model_name : string;                    (* self.model._get_name() *)
  w_distributed : bool;                     (* self.is_distributed *)
  w_epoch : Z;                              (* self.epoch *)
  w_step : Z;                               (* self.step *)
  w_iteration : option Z;                   (* self.iteration: absent until train or a restore sets it *)
  w_best : Q;                               (* self.best_validation_loss *)
  w_weights : Weights;                      (* self.model_accs.state_dict() *)
  w_training : bool;                        (* self.model.training *)
  w_optimizer : option OptState;            (* self.optimizer *)
  w_scheduler : option SchedState;          (* self.scheduler *)
  w_loaders : gmap string (list batch);     (* self.data_loaders *)
  w_data : option tensor;                   (* self.data *)
  w_labels : option (list Z);               (* self.labels *)
  w_loss : option Q;                        (* self.loss *)
  w_files : gmap string file;               (* the files on disk *)
  w_heap : list (list batch);               (* the iterator objects: what each has left to yield *)
  w_gather_in : list (list nd)              (* what the other ranks give to the coming all_gather calls *)
}.

Definition set_epoch (v : Z) (w : world) : world :=
  mkWorld (w_dirpath w) (w_rank w) (w_model_name w) (w_distributed w) v (w_step w)
    (w_iteration w) (w_best w) (w_weights w) (w_training w) (w_optimizer w)
    (w_scheduler w) (w_loaders w) (w_data w) (w_labels w) (w_loss w) (w_files w)
    (w_heap w) (w_gather_in w).

Definition set_step (v : Z) (w : world) : world :=
  mkWorld (w_dirpath w) (w_rank w) (w_model_name w) (w_distributed w) (w_epoch w) v
    (w_iteration w) (w_best w) (w_weights w) (w_training w) (w_optimizer w)
    (w_scheduler w) (w_loaders w) (w_data w) (w_labels w) (w_loss w) (w_files w)
    (w_heap w) (w_gather_in w).

Definition set_iteration (v : option Z) (w : world) : world :=
  mkWorld (w_dirpath w) (w_rank w) (w_model_name w) (w_distributed w) (w_epoch w)
    (w_step w) v (w_best w) (w_weights w) (w_training w) (w_optimizer w)
    (w_scheduler w) (w_loaders w) (w_data w) (w_labels w) (w_loss w) (w_files w)
    (w_heap w) (w_gather_in w).

Definition set_best (v : Q) (w : world) : world :=
  mkWorld (w_dirpath w) (w_rank w) (w_model_name w) (w_distributed w) (w_epoch w)
    (w_step w) (w_iteration w) v (w_weights w) (w_training w) (w_optimizer w)
    (w_scheduler w) (w_loaders w) (w_data w) (w_labels w) (w_loss w) (w_files w)
    (w_heap w) (w_gather_in w).

Definition set_weights (v : Weights) (w : world) : world :=
  mkWorld (w_dirpath w) (w_rank w) (w_model_name w) (w_distributed w) (w_epoch w)
    (w_step w) (w_iteration w) (w_best w) v (w_training w) (w_optimizer w)
    (w_scheduler w) (w_loaders w) (w_data w) (w_labels w) (w_loss w) (w_files w)
    (w_heap w) (w_gather_in w).

Definition set_training (v : bool) (w : world) : world :=
  mkWorld (w_dirpath w) (w_rank w) (w_model_name w) (w_distributed w) (w_epoch w)
    (w_step w) (w_iteration w) (w_best w) (w_weights w) v (w_optimizer w)
    (w_scheduler w) (w_loaders w) (w_data w) (w_labels w) (w_loss w) (w_files w)
    (w_heap w) (w_gather_in w).

Definition set_optimizer (v : option OptState) (w : world) : world :=
  mkWorld (w_dirpath w) (w_rank w) (w_model_name w) (w_distributed w) (w_epoch w)
    (w_step w) (w_iteration w) (w_best w) (w_weights w) (w_training w) v
    (w_scheduler w) (w_loaders w) (w_data w) (w_labels w) (w_loss w) (w_files w)
    (w_heap w) (w_gather_in w).

Definition set_scheduler (v : option SchedState) (w : world) : world :=
  mkWorld (w_dirpath w) (w_rank w) (w_model_name w) (w_distributed w) (w_epoch w)
    (w_step w) (w_iteration w) (w_best w) (w_weights w) (w_training w) (w_optimizer w)
    v (w_loaders w) (w_data w) (w_labels w) (w_loss w) (w_files w) (w_heap w)
    (w_gather_in w).

Definition set_data (v : option tensor) (w : world) : world :=
  mkWorld (w_dirpath w) (w_rank w) (w_model_name w) (w_distributed w) (w_epoch w)
    (w_step w) (w_iteration w) (w_best w) (w_weights w) (w_training w) (w_optimizer w)
    (w_scheduler w) (w_loaders w) v (w_labels w) (w_loss w) (w_files w) (w_heap w)
    (w_gather_in w).

Definition set_labels (v : option (list Z)) (w : world) : world :=
  mkWorld (w_dirpath w) (w_rank w) (w_model_name w) (w_distributed w) (w_epoch w)
    (w_step w) (w_iteration w) (w_best w) (w_weights w) (w_training w) (w_optimizer w)
    (w_scheduler w) (w_loaders w) (w_data w) v (w_loss w) (w_files w) (w_heap w)
    (w_gather_in w).

Definition set_loss (v : option Q) (w : world) : world :=
  mkWorld (w_dirpath w) (w_rank w) (w_model_name w) (w_distributed w) (w_epoch w)
    (w_step w) (w_iteration w) (w_best w) (w_weights w) (w_training w) (w_optimizer w)
    (w_scheduler w) (w_loaders w) (w_data w) (w_labels w) v (w_files w) (w_heap w)
    (w_gather_in w).

Definition set_files (v : gmap string file) (w : world) : world :=
  mkWorld (w_dirpath w) (w_rank w) (w_model_name w) (w_distributed w) (w_epoch w)
    (w_step w) (w_iteration w) (w_best w) (w_weights w) (w_training w) (w_optimizer w)
    (w_scheduler w) (w_loaders w) (w_data w) (w_labels w) (w_loss w) v (w_heap w)
    (w_gather_in w).

Definition set_heap (v : list (list batch)) (w : world) : world :=
  mkWorld (w_dirpath w) (w_rank w) (w_model_name w) (w_distributed w) (w_epoch w)
    (w_step w) (w_iteration w) (w_best w) (w_weights w) (w_training w) (w_optimizer w)
    (w_scheduler w) (w_loaders w) (w_data w) (w_labels w) (w_loss w) (w_files w) v
    (w_gather_in w).

Definition set_gather_in (v : list (list nd)) (w : world) : world :=
  mkWorld (w_dirpath w) (w_rank w) (w_model_name w) (w_distributed w) (w_epoch w)
    (w_step w) (w_iteration w) (w_best w) (w_weights w) (w_training w) (w_optimizer w)
    (w_scheduler w) (w_loaders w) (w_data w) (w_labels w) (w_loss w) (w_files w)
    (w_heap w) v.

(** ** Computations: state, exceptions and a trace of events *)

Definition M (A : Type) : Type := world -> result A * world * list event.

Definition ret {A} (a : A) : M A := fun w => (Ok a, w, []).

Definition bind {A B} (m : M A) (f : A -> M B) : M B :=
  fun w =>
    match m w with
    | (Ok a, w1, t1) =>
        match f a w1 with
        | (r, w2, t2) => (r, w2, t1 ++ t2)
        end
    | (Err e, w1, t1) => (Err e, w1, t1)
    end.

Declare Scope engine_scope.
Delimit Scope engine_scope with engine.
Notation "'let*' x ':=' m 'in' k" := (bind m (fun x => k))
  (at level 10, x pattern, m at level 100, k at level 200) : engine_scope.
Notation "m ;; k" := (bind m (fun _ => k))
  (at level 100, k at level 200, right associativity) : engine_scope.
Local Open Scope engine_scope.

Definition raise {A} (e : exn) : M A := fun w => (Err e, w, [EvRaise e]).
Definition emit (ev : event) : M unit := fun w => (Ok tt, w, [ev]).
Definition gets {A} (f : world -> A) : M A := fun w => (Ok (f w), w, []).
Definition modify (f : world -> world) : M unit := fun w => (Ok tt, f w, []).

(** The outcome of a call into a library or of a Python primitive. *)
Definition lift {A} (r : result A) : M A :=
  match r with
  | Ok a => ret a
  | Err e => raise e
  end.

(** An attribute that may be None or missing: using it raises. *)
Definition need {A} (o : option A) (attr : string) : M A :=
  match o with
  | Some a => ret a
  | None => raise (AttributeError attr)
  end.

(** [try: m  except StopIteration: h]. *)
Definition try_except_StopIteration {A} (m h : M A) : M A :=
  fun w =>
    match m w with
    | (Err StopIteration, w1, t1) =>
        match h w1 with
        | (r, w2, t2) => (r, w2, t1 ++ EvCaught StopIteration :: t2)
        end
    | other => other
    end.

(** [x / n] for a float x and an int n. *)
Definition py_div (x : Q) (n : Z) : M Q :=
  if Z.eqb n 0 then raise ZeroDivisionError else ret (x / inject_Z n)%Q.

(** [a % b] for ints. *)
Definition py_mod (a b : Z) : M Z :=
  if Z.eqb b 0 then raise ZeroDivisionError else ret (a mod b).

(** [self.data_loaders[name]]. *)
Definition get_loader (name : string) : M (list batch) :=
  let* ld := gets (fun w => w_loaders w !! name) in
  match ld with
  | Some l => ret l
  | None => raise (KeyError name)
  end.

(** [iter(loader)]: a new iterator object, at the start of the loader. *)
Definition py_iter (ld : list batch) : M loc :=
  fun w =>
    let l := length (w_heap w) in
    (Ok l, set_heap (w_heap w ++ [ld]) w, [EvIter l]).

(** [next(it)]: the object itself advances, whoever holds it. *)
Definition py_next (it : loc) : M batch :=
  fun w =>
    match w_heap w !! it with
    | Some (b :: rest) =>
        (Ok b, set_heap (<[it := rest]> (w_heap w)) w, [EvNext it (S (length rest))])
    | Some [] => (Err StopIteration, w, [EvNext it 0; EvRaise StopIteration])
    | None => (Err (ExternalError "no such iterator"), w,
               [EvNext it 0; EvRaise (ExternalError "no such iterator")])
    end.

(** ** Saving and loading models *)

Definition checkpoint_filename (w : world) (name : string) : string :=
  w_dirpath w +:+ w_model_name w +:+ name +:+ ".pth".

Definition save_state (name : string) : M string :=
  let* filename := gets (fun w => checkpoint_filename w name) in
  let* model_dict := gets w_weights in
  let* it := gets w_iteration in
  let* global_step := need it "iteration" in
  let* opt := gets w_optimizer in
  let* opt_dict := need opt "state_dict" in
  let checkpoint : gmap string ckpt_val :=
    <["global_step" := CInt global_step]>
      (<["optimizer" := COpt opt_dict]>
         (<["state_dict" := CWeights model_dict]> ∅)) in
  modify (fun w => set_files (<[filename := CkptFile checkpoint]> (w_files w)) w) ;;
  emit (EvSave name filename) ;;
  ret filename.

(** [checkpoint[key]]. *)
Definition ckpt_get (checkpoint : gmap string ckpt_val) (key : string) : M ckpt_val :=
  match checkpoint !! key with
  | Some v => ret v
  | None => raise (KeyError key)
  end.

Definition restore_state_from_file (weight_file : string) : M unit :=
  let* f := gets (fun w => w_files w !! weight_file) in
  match f with
  | None => raise (FileNotFoundError weight_file)
  | Some (NpyFile _) => raise (ExternalError "torch.load")
  | Some (CkptFile checkpoint) =>
      let* sd := ckpt_get checkpoint "state_dict" in
      match sd with
      | CWeights ws => modify (set_weights ws)
      | _ => raise (ExternalError "load_state_dict")
      end ;;
      let* opt := gets w_optimizer in
      match opt with
      | Some _ =>
          let* od := ckpt_get checkpoint "optimizer" in
          match od with
          | COpt o => modify (set_optimizer (Some o))
          | _ => raise (ExternalError "load_state_dict")
          end
      | None => ret tt
      end ;;
      let* gs := ckpt_get checkpoint "global_step" in
      match gs with
      | CInt n => modify (set_iteration (Some n))
      | _ => raise TypeError
      end
  end.

Definition restore_best_state : M unit :=
  let* best_validation_path := gets (fun w => checkpoint_filename w "BEST") in
  restore_state_from_file best_validation_path.

(** ** Forward and backward *)

Record forward_result := mkForward {
  predicted_labels : list Z;
  softmax : list (list Q);
  raw_pred_labels : list (list Q);
  loss : Q;
  accuracy : Q
}.

Definition forward (train : bool) : M forward_result :=
  let* d := gets w_data in
  let* data := need d "to" in
  let* l := gets w_labels in
  let* labels := need l "to" in
  let* ws := gets w_weights in
  let* mode := gets w_training in
  let* model_out := lift (model_apply ws mode data) in
  let sm := softmax_rows model_out in
  let predicted := map argmax model_out in
  let* ls := lift (cross_entropy model_out labels) in
  modify (set_loss (Some ls)) ;;
  let* acc := py_div (inject_Z (count_equal predicted labels)) (Z.of_nat (length predicted)) in
  emit (EvForward train ls acc) ;;
  ret (mkForward predicted sm model_out ls acc).

Definition backward : M unit :=
  let* o := gets w_optimizer in
  let* opt := need o "zero_grad" in
  let* l := gets w_loss in
  let* _ := need l "backward" in
  let* d := gets w_data in
  let* data := need d "to" in
  let* lb := gets w_labels in
  let* labels := need lb "to" in
  let* ws := gets w_weights in
  match optimizer_step opt ws data labels with
  | (opt', ws') => modify (fun w => set_optimizer (Some opt') (set_weights ws' w))
  end.

(** ** Metrics gathered from all processes *)

(** torch.cat along the first axis. *)
Fixpoint nd_cat (l : list nd) : result (list nd) :=
  match l with
  | [] => Ok []
  | Sc _ :: _ => Err (ExternalError "torch.cat")
  | Arr xs :: r => match nd_cat r with
                   | Ok ys => Ok (xs ++ ys)
                   | Err e => Err e
                   end
  end.

(** torch.distributed.all_gather: the tensors of all ranks, in rank order. *)
Definition all_gather (tensor : nd) : M (list nd) :=
  let* peers := gets w_gather_in in
  match peers with
  | [] => raise (ExternalError "all_gather")
  | p :: rest =>
      modify (set_gather_in rest) ;;
      let* rank := gets w_rank in
      ret (take (Z.to_nat rank) p ++ tensor :: drop (Z.to_nat rank) p)
  end.

Fixpoint get_synchronized_metrics (metric_dict : list (string * nd))
  : M (list (string * nd)) :=
  match metric_dict with
  | [] => ret []
  | (name, array) :: rest =>
      let* dist := gets w_distributed in
      (if dist : bool then ret tt else raise (AttributeError "ngpus")) ;;
      let* global_tensor := all_gather array in
      let* cat := lift (nd_cat global_tensor) in
      let* others := get_synchronized_metrics rest in
      ret ((name, Arr cat) :: others)
  end.

(** [d[name]] for a dict kept in insertion order. *)
Fixpoint dict_get (d : list (string * nd)) (name : string) : M nd :=
  match d with
  | [] => raise (KeyError name)
  | (k, v) :: rest => if String.eqb k name then ret v else dict_get rest name
  end.

(** ** Validation *)

(** Lines 360-366: the guarded fetch.  The result is the batch and the
    iterator the local name [val_iter] is bound to afterwards. *)
Definition fetch_val_batch (val_iter : loc) : M (loc * batch) :=
  try_except_StopIteration
    (let* val_data := py_next val_iter in
     ret (val_iter, val_data))
    ((* del val_iter: only the local name goes away *)
     let* ld := get_loader "validation" in
     let* val_iter' := py_iter ld in
     let* val_data := py_next val_iter' in
     ret (val_iter', val_data)).

(** The body of the loop over the validation batches (lines 360-375): the
    iterator [val_iter] is bound to afterwards, and the running sums. *)
Definition validate_batch (val_iter : loc) (vloss vacc : Q) : M (loc * Q * Q) :=
  let* (val_iter', val_data) := fetch_val_batch val_iter in
  modify (set_data (Some (b_data val_data))) ;;
  modify (set_labels (Some (b_labels val_data))) ;;
  let* val_res := forward false in
  ret (val_iter', (vloss + loss val_res)%Q, (vacc + accuracy val_res)%Q).

(** [for val_batch in range(num_val_batches)], with [n] rounds to go. *)
Fixpoint validate_loop (n : nat) (val_iter : loc) (vloss vacc : Q) : M (Q * Q) :=
  match n with
  | O => ret (vloss, vacc)
  | S n' =>
      let* (val_iter', vloss', vacc') := validate_batch val_iter vloss vacc in
      validate_loop n' val_iter' vloss' vacc'
  end.

(** Lines 356-380: the metrics of this process, with the iteration they are
    taken at. *)
Definition validate_local (val_iter : loc) (num_val_batches : Z) : M (Z * Q * Q) :=
  modify (set_training false) ;;
  let* it := gets w_iteration in
  let* iteration := need it "iteration" in
  emit (EvValidate val_iter iteration) ;;
  let* (sum_loss, sum_acc) := validate_loop (Z.to_nat num_val_batches) val_iter 0%Q 0%Q in
  modify (set_training true) ;;
  let* local_loss := py_div sum_loss num_val_batches in
  let* local_acc := py_div sum_acc num_val_batches in
  ret (iteration, local_loss, local_acc).

(** Lines 390-411: what rank 0 does with the global metrics. *)
Definition validate_record (iteration : Z) (global_val_metrics : list (string * nd))
    (checkpointing : bool) : M unit :=
  let* gl := dict_get global_val_metrics "loss" in
  let* ga := dict_get global_val_metrics "accuracy" in
  let global_val_loss := np_mean gl in
  let global_val_accuracy := np_mean ga in
  let* epoch := gets w_epoch in
  let* best := gets w_best in
  let* saved_best :=
    (if Qltb global_val_loss best then
       modify (set_best global_val_loss) ;;
       let* _ := save_state "BEST" in
       ret 1
     else ret 0) in
  (if checkpointing then let* _ := save_state "" in ret tt else ret tt) ;;
  let* best' := gets w_best in
  emit (EvValLog (mkValRecord iteration global_val_loss global_val_accuracy saved_best epoch)
          best').

Definition validate (val_iter : loc) (num_val_batches : Z) (checkpointing : bool) : M unit :=
  let* (iteration, local_loss, local_acc) := validate_local val_iter num_val_batches in
  let local_val_metrics := [("loss", nd_vec [local_loss]); ("accuracy", nd_vec [local_acc])] in
  let* dist := gets w_distributed in
  let* global_val_metrics :=
    (if dist : bool then get_synchronized_metrics local_val_metrics
     else ret local_val_metrics) in
  let* rank := gets w_rank in
  if Z.eqb rank 0 then validate_record iteration global_val_metrics checkpointing
  else ret tt.

(** ** Training *)

Record train_config := mkTrainConfig {
  epochs : Z;
  report_interval : Z;
  val_interval : Z;
  num_val_batches : Z;
  checkpointing : bool;
  save_interval : option Z
}.

(** The body of the loop over the batches of one epoch (lines 296-331). *)
Definition train_batch (cfg : train_config) (val_iter : loc) (step : Z)
    (train_data : batch) : M unit :=
  modify (set_step step) ;;
  let* it := gets w_iteration in
  let* iteration := need it "iteration" in
  let* r := py_mod iteration (val_interval cfg) in
  (if Z.eqb r 0 then validate val_iter (num_val_batches cfg) (checkpointing cfg)
   else ret tt) ;;
  emit (EvTrainBatch iteration) ;;
  modify (set_data (Some (b_data train_data))) ;;
  modify (set_labels (Some (b_labels train_data))) ;;
  let* res := forward true in
  backward ;;
  modify (set_step (step + 1)) ;;
  let* it' := gets w_iteration in
  let* iteration' := need it' "iteration" in
  modify (set_iteration (Some (iteration' + 1))) ;;
  let* epoch := gets w_epoch in
  emit (EvTrainLog (iteration' + 1) epoch (loss res) (accuracy res)) ;;
  let* rank := gets w_rank in
  if Z.eqb rank 0 then let* _ := py_mod (iteration' + 1) (report_interval cfg) in ret tt
  else ret tt.

(** [for self.step, train_data in enumerate(train_loader)], from index [step] on. *)
Fixpoint train_batches (cfg : train_config) (val_iter : loc) (step : Z)
    (train_loader : list batch) : M unit :=
  match train_loader with
  | [] => ret tt
  | train_data :: rest =>
      train_batch cfg val_iter step train_data ;;
      train_batches cfg val_iter (step + 1) rest
  end.

(** Lines 333-337: what follows the batches of an epoch. *)
Definition end_of_epoch (cfg : train_config) (epoch : Z) : M unit :=
  let* sch := gets w_scheduler in
  match sch with
  | Some s =>
      let* o := gets w_optimizer in
      let* opt := need o "step" in
      match scheduler_step s opt with
      | (s', opt') =>
          modify (fun w => set_scheduler (Some s') (set_optimizer (Some opt') w))
      end
  | None => ret tt
  end ;;
  match save_interval cfg with
  | Some si =>
      let* r := py_mod (epoch + 1) si in
      if Z.eqb r 0 then
        let* _ := save_state ("_epoch_" +:+ str_of_int (epoch + 1)) in ret tt
      else ret tt
  | None => ret tt
  end.

(** One round of the loop over the epochs (lines 280-337).  The sampler's
    [set_epoch] reseeds the shuffling of a distributed loader; the loader is
    taken to yield the same batches every epoch. *)
Definition train_epoch (cfg : train_config) (val_iter : loc) (epoch : Z) : M unit :=
  modify (set_epoch epoch) ;;
  let* train_loader := get_loader "train" in
  modify (set_step 0) ;;
  train_batches cfg val_iter 0 train_loader ;;
  end_of_epoch cfg epoch.

(** [for self.epoch in range(epochs)] from [epoch] on, [n] epochs to go. *)
Fixpoint train_epochs (cfg : train_config) (val_iter : loc) (epoch : Z) (n : nat) : M unit :=
  match n with
  | O => ret tt
  | S n' =>
      train_epoch cfg val_iter epoch ;;
      train_epochs cfg val_iter (epoch + 1) n'
  end.

Definition init_best_validation_loss : Q := 10000000000 # 1.

Definition train (cfg : train_config) : M unit :=
  modify (set_training true) ;;
  modify (set_epoch 0) ;;
  modify (set_iteration (Some 0)) ;;
  modify (set_step 0) ;;
  modify (set_best init_best_validation_loss) ;;
  let* ld := get_loader "validation" in
  let* val_iter := py_iter ld in
  train_epochs cfg val_iter 0 (Z.to_nat (epochs cfg)).

(** ** Attribution *)

(** The loop over the classes [i, i+1, ...] of either routine, [n] classes to
    go; [mk_target] builds the target of class [i]. *)
Fixpoint attribution_loop (c : composite) (mk_target : Z -> list (list Q))
    (model : Weights) (data : tensor) (i : Z) (n : nat)
    (total_output total_relevance : list (list Q))
  : M (list (list Q) * list (list Q)) :=
  match n with
  | O => ret (total_output, total_relevance)
  | S n' =>
      let target := mk_target i in
      emit (EvGradient target) ;;
      let* (output, attribution) := lift (gradient_attributor c model data target) in
      let relevance := sum0 attribution in
      attribution_loop c mk_target model data (i + 1) n'
        (total_output ++ output) (total_relevance ++ relevance)
  end.

Definition epsilonAlpha2Beta1 (model : Weights) (data : tensor) : M (nd * nd) :=
  let mk_target i := repeat (eye_row i) (length data) in
  let* (total_output, total_relevance) :=
    attribution_loop EpsilonAlpha2Beta1 mk_target model data 0 4 [] [] in
  ret (nd_mat total_output, nd_mat total_relevance).

Definition epsilonPlusFlat (model : Weights) (data : tensor) : M (nd * nd) :=
  let mk_target i := [eye_row i] in
  let* (total_output, total_relevance) :=
    attribution_loop EpsilonPlusFlat mk_target model data 0 4 [] [] in
  ret (nd_mat total_output, nd_mat total_relevance).

(** ** Evaluation *)

(** [for i in range(4)] of lines 453-461, [n] rounds to go.  The assignment
    of line 459 binds the name [lrp_output] to the array the attribution
    routine returned; lines 460-461 then use that name. *)
Fixpoint lrp_loop (n : nat) (current_model : Weights) (data : tensor)
    (eval_iterations : Z) (lrp_output relevance : pyobj) : M (pyobj * pyobj) :=
  match n with
  | O => ret (lrp_output, relevance)
  | S n' =>
      let* (out, attribution) := epsilonAlpha2Beta1 current_model data in
      let lrp_output := PNd out in
      let* lrp_output' := lift (py_extend_at lrp_output eval_iterations lrp_output) in
      let* relevance' := lift (py_extend_at relevance eval_iterations (PNd attribution)) in
      lrp_loop n' current_model data eval_iterations lrp_output' relevance'
  end.

Record eval_state := mkEvalState {
  eval_loss : Q;
  eval_acc : Q;
  eval_iterations : Z;
  ev_indices : list Z;
  ev_labels : list Z;
  ev_predictions : list Z;
  ev_softmaxes : list (list Q);
  ev_lrp_output : pyobj;
  ev_relevance : pyobj
}.

(** [for it, eval_data in enumerate(self.data_loaders["test"])]. *)
Fixpoint evaluate_loop (test : list batch) (st : eval_state) : M eval_state :=
  match test with
  | [] => ret st
  | eval_data :: rest =>
      modify (set_data (Some (b_data eval_data))) ;;
      modify (set_labels (Some (b_labels eval_data))) ;;
      let eval_indices := b_indices eval_data in
      let* res := forward false in
      let data := b_data eval_data in
      let* current_model := gets w_weights in
      let* lrp0 := lift (py_extend (ev_lrp_output st) (PList [PList []])) in
      let* rel0 := lift (py_extend (ev_relevance st) (PList [PList []])) in
      let* (lrp1, rel1) := lrp_loop 4 current_model data (eval_iterations st) lrp0 rel0 in
      evaluate_loop rest
        (mkEvalState (eval_loss st + loss res)%Q (eval_acc st + accuracy res)%Q
           (eval_iterations st + 1)
           (ev_indices st ++ eval_indices)
           (ev_labels st ++ b_labels eval_data)
           (ev_predictions st ++ predicted_labels res)
           (ev_softmaxes st ++ softmax res)
           lrp1 rel1)
  end.

(** [np.save(self.dirpath + name, a)]. *)
Definition np_save (name : string) (a : nd) : M unit :=
  let* dirpath := gets w_dirpath in
  modify (fun w => set_files (<[dirpath +:+ name := NpyFile a]> (w_files w)) w) ;;
  emit (EvNpSave (dirpath +:+ name)).

Definition evaluate : M unit :=
  modify (set_training false) ;;
  let* test := get_loader "test" in
  let* st := evaluate_loop test (mkEvalState 0 0 0 [] [] [] [] (PList []) (PList [])) in
  (* the printed averages *)
  let* _ := py_div (eval_loss st) (eval_iterations st) in
  let* _ := py_div (eval_acc st) (eval_iterations st) in
  let local_eval_metrics_dict :=
    [("eval_iterations", nd_ints [eval_iterations st]);
     ("eval_loss", nd_vec [eval_loss st]);
     ("eval_acc", nd_vec [eval_acc st])] in
  let local_eval_results_dict :=
    [("indices", nd_ints (ev_indices st));
     ("labels", nd_ints (ev_labels st));
     ("predictions", nd_ints (ev_predictions st));
     ("softmaxes", nd_mat (ev_softmaxes st));
     ("lrp_output", to_nd (ev_lrp_output st));
     ("relevance", to_nd (ev_relevance st))] in
  let* dist := gets w_distributed in
  let* rank := gets w_rank in
  let* results :=
    (if dist : bool then
       let* _ := get_synchronized_metrics local_eval_metrics_dict in
       let* global_eval_results_dict := get_synchronized_metrics local_eval_results_dict in
       if Z.eqb rank 0 then ret global_eval_results_dict else ret local_eval_results_dict
     else ret local_eval_results_dict) in
  if Z.eqb rank 0 then
    let* indices := dict_get results "indices" in
    let* labels := dict_get results "labels" in
    let* predictions := dict_get results "predictions" in
    let* softmaxes := dict_get results "softmaxes" in
    let* lrp_output := dict_get results "lrp_output" in
    let* relevance := dict_get results "relevance" in
    np_save "indices.npy" indices ;;
    np_save "labels.npy" labels ;;
    np_save "predictions.npy" predictions ;;
    np_save "softmax.npy" softmaxes ;;
    np_save "lrp_output.npy" lrp_output ;;
    np_save "relevance.npy" relevance
  else ret tt.

(** ** Construction and configuration *)

(** [__init__] (lines 42-94): the attributes of a new engine, in the world
    the files, iterators and peers of which stay as they are.  The model
    object passed in is given by its class name, its weights, the mode it is
    in and whether it is wrapped in DistributedDataParallel.  No line of
    [__init__] assigns [self.iteration].  The two log objects are not part of
    the world: what is recorded in them is in the events. *)
Definition __init__ (model_name : string) (model : Weights) (training is_ddp : bool)
    (rank : Z) (dump_path : string) : M unit :=
  modify (fun w =>
    mkWorld dump_path rank model_name is_ddp 0 0 None init_best_validation_loss
      model training None None ∅ None None None (w_files w) (w_heap w) (w_gather_in w)).

(** [configure_optimizers]: hydra's [instantiate] of the optimizer config is
    given by what it makes of the model parameters. *)
Definition configure_optimizers (optimizer_config : Weights -> result OptState) : M unit :=
  let* params := gets w_weights in
  let* optimizer := lift (optimizer_config params) in
  modify (set_optimizer (Some optimizer)).

(** [configure_scheduler]: [instantiate] of the scheduler config is given by
    what it makes of [self.optimizer], which may still be None. *)
Definition configure_scheduler (scheduler_config : option OptState -> result SchedState)
  : M unit :=
  let* optimizer := gets w_optimizer in
  let* scheduler := lift (scheduler_config optimizer) in
  modify (set_scheduler (Some scheduler)).

Definition set_loaders (v : gmap string (list batch)) (w : world) : world :=
  mkWorld (w_dirpath w) (w_rank w) (w_model_name w) (w_distributed w) (w_epoch w)
    (w_step w) (w_iteration w) (w_best w) (w_weights w) (w_training w) (w_optimizer w)
    (w_scheduler w) v (w_data w) (w_labels w) (w_loss w) (w_files w) (w_heap w)
    (w_gather_in w).

(** [configure_data_loaders]: the items of [loaders_config], in order, each
    loader config given by what [get_data_loader] makes of it; [label_set] is
    [self.label_set], fixed at construction, and [map_labels] what the
    dataset's [map_labels(label_set)] does to the batches of a loader. *)
Fixpoint configure_data_loaders (label_set : option (list Z))
    (map_labels : list Z -> list batch -> list batch)
    (loaders_config : list (string * result (list batch))) : M unit :=
  match loaders_config with
  | [] => ret tt
  | (name, loader_config) :: rest =>
      let* loader := lift loader_config in
      modify (fun w => set_loaders (<[name := loader]> (w_loaders w)) w) ;;
      match label_set with
      | Some ls =>
          modify (fun w => set_loaders (<[name := map_labels ls loader]> (w_loaders w)) w)
      | None => ret tt
      end ;;
      configure_data_loaders label_set map_labels rest
  end.

(** [restore_state]: the file named by the [weight_file] entry of the config. *)
Record restore_config := mkRestoreConfig {
  weight_file : string
}.

Definition restore_state (cfg : restore_config) : M unit :=
  restore_state_from_file (weight_file cfg).

End Engine.

(** ** A small framework and engine to run the definitions on *)

(** Every input scores [1; 0; 0; 0], every batch has loss [batch_loss], and
    the attribution of an input is the input itself. *)
Definition toy_framework (batch_loss : Q) : Framework := {|
  Weights := Z;
  OptState := Z;
  SchedState := Z;
  model_apply := fun _ _ data => Ok (map (fun _ => [1; 0; 0; 0]%Q) data);
  softmax_rows := fun out => out;
  cross_entropy := fun _ _ => Ok batch_loss;
  optimizer_step := fun opt ws _ _ => (opt + 1, ws + 1);
  scheduler_step := fun s opt => (s + 1, opt);
  gradient_attributor := fun _ _ data _ => Ok (map (fun _ => [1; 0; 0; 0]%Q) data, data)
|}.

Definition toy_batch (i : Z) : batch :=
  mkBatch [[[inject_Z i; 1%Q]]; [[2%Q; inject_Z i]]] [0; 1] [2 * i; 2 * i + 1].

Definition toy_loaders : gmap string (list batch) :=
  <["train" := [toy_batch 0; toy_batch 1; toy_batch 2]]>
    (<["validation" := [toy_batch 3; toy_batch 4]]>
       (<["test" := [toy_batch 5; toy_batch 6]]> ∅)).

(** An engine as [__init__] leaves it, with an optimizer configured. *)
Definition toy_world_on (loaders : gmap string (list batch)) (batch_loss : Q) (rank : Z)
  : @world (toy_framework batch_loss) :=
  @mkWorld (toy_framework batch_loss)
    "out/" rank "ResNet" false 0 0 None init_best_validation_loss
    7 true (Some 0) None loaders None None None ∅ [] [].

Definition toy_world (batch_loss : Q) (rank : Z) : @world (toy_framework batch_loss) :=
  toy_world_on toy_loaders batch_loss rank.

Definition toy_config : train_config := mkTrainConfig 2 10 2 3 true (Some 2).

(** The small engine as one of several processes: [peers] is what the others
    give to the coming collectives. *)
Definition toy_distributed_world (batch_loss : Q) (rank : Z) (peers : list (list nd))
  : @world (toy_framework batch_loss) :=
  @mkWorld (toy_framework batch_loss)
    "out/" rank "ResNet" true 0 0 None init_best_validation_loss
    7 true (Some 0) None toy_loaders None None None ∅ [] peers.

(** The result a run returned, [d] when it raised. *)
Definition returned {A} (d : A) (r : result A) : A :=
  match r with
  | Ok a => a
  | Err _ => d
  end.

(** The events of a run. *)
Definition trace_of {FW : Framework} {A} (m : M A) (w : world) : list event := snd (m w).
Definition result_of {FW : Framework} {A} (m : M A) (w : world) : result A := fst (fst (m w)).
Definition world_of {FW : Framework} {A} (m : M A) (w : world) : world := snd (fst (m w)).

(** The checkpoint dictionary [save_state] builds. *)
Definition checkpoint_dict {FW : Framework} (global_step : Z) (opt : OptState)
    (ws : Weights) : gmap string ckpt_val :=
  <["global_step" := CInt global_step]>
    (<["optimizer" := COpt opt]> (<["state_dict" := CWeights ws]> ∅)).

(** * The vocabulary of the properties *)

Section Vocabulary.
Context {FW : Framework}.

(** [wp m w Q]: the run of [m] from [w] ends in a result, a world and a
    trace that satisfy [Q]. *)
Definition wp {A} (m : M A) (w : world) (Q : result A -> world -> list event -> Prop) : Prop :=
  match m w with
  | (r, w', t) => Q r w' t
  end.

Definition is_gradient_or_raise (ev : event) : Prop :=
  match ev with
  | EvGradient _ | EvRaise _ => True
  | _ => False
  end.

Definition not_np_save (ev : event) : Prop :=
  match ev with
  | EvNpSave _ => False
  | _ => True
  end.

(** The targets of the [with Gradient(...)] blocks entered during a run. *)
Definition gradient_targets (t : list event) : list (list (list Q)) :=
  flat_map (fun ev => match ev with EvGradient target => [target] | _ => [] end) t.

(** One target per class label, each the class's one-hot row tiled over the
    inputs of the batch. *)
Definition class_targets (data : tensor) : list (list (list Q)) :=
  map (fun i => repeat (eye_row i) (length data)) [0; 1; 2; 3].

(** The entry of an input (or of a relevance map) at a channel and a pixel. *)
Definition entry (s : list (list Q)) (ch p : nat) : Q := nth p (nth ch s []) 0%Q.

(** All inputs have [C] channels of [P] pixels. *)
Definition shaped (C P : nat) (t : tensor) : Prop :=
  Forall (fun s => length s = C /\ Forall (fun r => length r = P) s) t.

(** The number of entries of a tensor. *)
Definition numel (t : tensor) : nat := length (concat (concat t)).

(** The two attribution routines and the target each builds for class [i]. *)
Definition attribution_routine (c : composite) : Weights -> tensor -> M (nd * nd) :=
  match c with
  | EpsilonAlpha2Beta1 => epsilonAlpha2Beta1
  | EpsilonPlusFlat => epsilonPlusFlat
  end.

Definition routine_target (c : composite) (data : tensor) (i : Z) : list (list Q) :=
  match c with
  | EpsilonAlpha2Beta1 => repeat (eye_row i) (length data)
  | EpsilonPlusFlat => [eye_row i]
  end.

Definition error_of {A} (r : result A) : option exn :=
  match r with
  | Ok _ => None
  | Err e => Some e
  end.

Definition is_plain (ev : event) : Prop :=
  match ev with
  | EvRaise _ | EvCaught _ => False
  | _ => True
  end.

(** [handled t final]: in the trace [t] the only exception that is caught is
    a StopIteration raised by a [next], caught right after it was raised; any
    other exception raised is the last event and is what the run ends with
    ([final]); a run that ends without error has [final = None]. *)
Inductive handled : list event -> option exn -> Prop :=
| handled_nil : handled [] None
| handled_raise e : handled [EvRaise e] (Some e)
| handled_recover l t final :
    handled t final ->
    handled (EvNext l 0 :: EvRaise StopIteration :: EvCaught StopIteration :: t) final
| handled_plain ev t final :
    is_plain ev -> handled t final -> handled (ev :: t) final.

(** A computation all of whose runs have a [handled] trace. *)
Definition raises_ok {A} (m : M A) : Prop :=
  forall w, wp m w (fun r _ t => handled t (error_of r)).

Definition is_ok {A} (r : result A) : bool :=
  match r with
  | Ok _ => true
  | Err _ => false
  end.

(** A relation between the world before, the world after and the trace of a
    run, told whether the run completed, that holds of doing nothing, of
    raising an exception, and of a completed run followed by any run. *)
Record step_rel (P : bool -> world -> world -> list event -> Prop) : Prop := {
  sr_refl : forall w, P true w w [];
  sr_trans : forall ok w w1 w2 t1 t2,
    P true w w1 t1 -> P ok w1 w2 t2 -> P ok w w2 (t1 ++ t2);
  sr_raise : forall w e, P false w w [EvRaise e]
}.

Definition always (P : bool -> world -> world -> list event -> Prop) {A} (m : M A) : Prop :=
  forall w, wp m w (fun r w' t => P (is_ok r) w w' t).

(** The attributes [__init__] sets and nothing assigns afterwards. *)
Definition setup_kept (ok : bool) (w w' : world) (t : list event) : Prop :=
  w_dirpath w' = w_dirpath w /\
  w_rank w' = w_rank w /\
  w_model_name w' = w_model_name w /\
  w_distributed w' = w_distributed w /\
  w_loaders w' = w_loaders w.

Inductive sched_item :=
| SValidate (iteration : Z)   (* validate was entered *)
| STrain (iteration : Z).     (* a training batch was taken up *)

Definition sched_proj (t : list event) : list sched_item :=
  flat_map (fun ev => match ev with
                      | EvValidate _ k => [SValidate k]
                      | EvTrainBatch k => [STrain k]
                      | _ => []
                      end) t.

(** What the schedule is to be for the [n] batches taken up from iteration
    [k] on: validate first exactly when [val_interval] divides the counter. *)
Fixpoint schedule (vi : Z) (k : Z) (n : nat) : list sched_item :=
  match n with
  | O => []
  | S n' => (if Z.eqb (k mod vi) 0 then [SValidate k] else [])
              ++ STrain k :: schedule vi (k + 1) n'
  end.

(** Steps that leave the iteration counter alone and neither validate nor
    take up a batch. *)
Definition quiet (ok : bool) (w w' : world) (t : list event) : Prop :=
  w_iteration w' = w_iteration w /\ sched_proj t = [].

(** What a run over [n] batches from iteration [k] on is to leave: the
    schedule so far if it stopped on an exception, the whole schedule and the
    counter advanced by [n] if it completed. *)
Definition sched_post (vi k : Z) (n : nat) {A} (r : result A) (w' : world)
    (t : list event) : Prop :=
  sched_proj t `prefix_of` schedule vi k n /\
  (forall a, r = Ok a ->
     sched_proj t = schedule vi k n /\ w_iteration w' = Some (k + Z.of_nat n)).

(** The number of batches of the training loader. *)
Definition train_len (w : world) : nat :=
  match w_loaders w !! "train" with
  | Some train_loader => length train_loader
  | None => 0
  end.

(** The loss and accuracy of the forward passes made without gradients. *)
Definition val_forwards (t : list event) : list (Q * Q) :=
  flat_map (fun ev => match ev with
                      | EvForward false l a => [(l, a)]
                      | _ => []
                      end) t.

(** The fetches that yielded a batch. *)
Definition yields (t : list event) : list loc :=
  flat_map (fun ev => match ev with
                      | EvNext l (S _) => [l]
                      | _ => []
                      end) t.

(** [tracks_minimum b saved t]: along [t], from a best validation loss [b]
    ([saved] telling whether a "BEST" checkpoint was written since the last
    validation record), every validation record is made with
    [best_validation_loss] equal to the minimum of its value before and the
    global loss recorded; the value changed, the record's [saved_best] is 1
    and the "BEST" checkpoint was written exactly when that loss is strictly
    below the value before. *)
Fixpoint tracks_minimum (b : Q) (saved : bool) (t : list event) : Prop :=
  match t with
  | [] => True
  | EvSave sfx _ :: t' => tracks_minimum b (saved || String.eqb sfx "BEST") t'
  | EvValLog r best :: t' =>
      best = Qmin b (vr_loss r) /\
      ((vr_loss r < b)%Q -> best = vr_loss r /\ vr_saved_best r = 1 /\ saved = true) /\
      (~ (vr_loss r < b)%Q -> best = b /\ vr_saved_best r = 0 /\ saved = false) /\
      tracks_minimum best false t'
  | _ :: t' => tracks_minimum b saved t'
  end.

(** The best validation loss of the last record of [t], [b] without one. *)
Fixpoint best_after (b : Q) (t : list event) : Q :=
  match t with
  | [] => b
  | EvValLog _ best :: t' => best_after best t'
  | _ :: t' => best_after b t'
  end.

Fixpoint saved_after (saved : bool) (t : list event) : bool :=
  match t with
  | [] => saved
  | EvSave sfx _ :: t' => saved_after (saved || String.eqb sfx "BEST") t'
  | EvValLog _ _ :: t' => saved_after false t'
  | _ :: t' => saved_after saved t'
  end.

(** From a best validation loss taken from the world, with no "BEST"
    checkpoint pending: the trace tracks the minimum, and a completed run
    leaves the best validation loss of the last record. *)
Definition min_kept (ok : bool) (w w' : world) (t : list event) : Prop :=
  tracks_minimum (w_best w) false t /\
  (ok = true -> w_best w' = best_after (w_best w) t /\ saved_after false t = false).

(** Steps that neither save a checkpoint nor record a validation, and leave
    the best validation loss alone. *)
Definition unrecorded (ev : event) : Prop :=
  match ev with
  | EvSave _ _ | EvValLog _ _ => False
  | _ => True
  end.

Definition silent (ok : bool) (w w' : world) (t : list event) : Prop :=
  w_best w' = w_best w /\ Forall unrecorded t.

(** The global validation losses recorded along a trace, and the minimum of
    a starting value and a list of losses. *)
Definition logged_losses (t : list event) : list Q :=
  flat_map (fun ev => match ev with EvValLog r _ => [vr_loss r] | _ => [] end) t.

Definition running_min (b : Q) (losses : list Q) : Q := fold_left Qmin losses b.

Definition is_best_save (ev : event) : bool :=
  match ev with
  | EvSave sfx _ => String.eqb sfx "BEST"
  | _ => false
  end.

(** [t] holds a validation record, and its first one is of iteration [k]. *)
Definition has_first_record (k : Z) (t : list event) : Prop :=
  exists tv r best more,
    t = tv ++ EvValLog r best :: more /\ logged_losses tv = [] /\ vr_iteration r = k.

(** What the first validation of a run leaves in the trace of rank 0: its
    entry and its record, or its entry and no record when it raised. *)
Definition first_validation_post (rank : Z) (it : loc) (k : Z) {A} (r : result A)
    (t : list event) : Prop :=
  exists t', t = EvValidate it k :: t' /\
    (rank = 0 ->
     has_first_record k t' \/ (is_ok r = false /\ logged_losses t' = [])).

(** A checkpoint save of a run of [train]: the file is named after the dump
    path, the model class and the suffix, and the suffix is that of the best
    validation, of the latest model (when checkpointing), or of an epoch whose
    number [save_interval] divides. *)
Definition save_allowed (ck : bool) (si : option Z) (n_epochs : Z) (w : world)
    (ev : event) : Prop :=
  match ev with
  | EvSave sfx filename =>
      filename = w_dirpath w +:+ w_model_name w +:+ sfx +:+ ".pth" /\
      (sfx = "BEST" \/
       (sfx = "" /\ ck = true) \/
       exists epoch s,
         si = Some s /\ 0 <= epoch < n_epochs /\ (epoch + 1) mod s = 0 /\
         sfx = "_epoch_" +:+ str_of_int (epoch + 1))
  | _ => True
  end.

Definition saves_named (ck : bool) (si : option Z) (n_epochs : Z) (ok : bool)
    (w w' : world) (t : list event) : Prop :=
  (w_dirpath w' = w_dirpath w /\ w_model_name w' = w_model_name w) /\
  Forall (save_allowed ck si n_epochs w) t.

(** The first fetch of a validation found its iterator [l0] exhausted and
    went through the [except StopIteration] branch, creating another
    iterator object. *)
Definition starts_recovery (l0 : loc) (t : list event) : Prop :=
  exists l' t', l' <> l0 /\
    t = EvNext l0 0 :: EvRaise StopIteration :: EvCaught StopIteration :: EvIter l' :: t'.

(** [recovers l0 nvb ex t]: along [t] ([ex] telling whether the iterator
    [l0] is exhausted already: a fetch took its last batch or found none),
    every [validate] is given the iterator [l0], no iterator created is [l0],
    and a [validate] entered with [l0] exhausted starts by the recovery. *)
Fixpoint recovers (l0 : loc) (nvb : Z) (ex : bool) (t : list event) : Prop :=
  match t with
  | [] => True
  | EvValidate l _ :: t' =>
      l = l0 /\ (ex = true -> 0 < nvb -> starts_recovery l0 t') /\ recovers l0 nvb ex t'
  | EvNext l n :: t' => recovers l0 nvb (ex || (Nat.eqb l l0 && Nat.leb n 1)) t'
  | EvIter l :: t' => l <> l0 /\ recovers l0 nvb ex t'
  | _ :: t' => recovers l0 nvb ex t'
  end.

Fixpoint exhausted_after (l0 : loc) (ex : bool) (t : list event) : bool :=
  match t with
  | [] => ex
  | EvNext l n :: t' => exhausted_after l0 (ex || (Nat.eqb l l0 && Nat.leb n 1)) t'
  | _ :: t' => exhausted_after l0 ex t'
  end.

(** The iterator [l0] exists, is empty once exhausted, and the validation
    loader is there. *)
Definition iter_inv (l0 : loc) (ex : bool) (w : world) : Prop :=
  (l0 < length (w_heap w))%nat /\
  (ex = true -> w_heap w !! l0 = Some []) /\
  is_Some (w_loaders w !! "validation").

Definition iter_kept (l0 : loc) (nvb : Z) (ok : bool) (w w' : world) (t : list event)
  : Prop :=
  forall ex, iter_inv l0 ex w ->
    recovers l0 nvb ex t /\ iter_inv l0 (exhausted_after l0 ex t) w'.

(** The (iteration, epoch) columns of the rows recorded in the training log. *)
Definition train_log_rows (t : list event) : list (Z * Z) :=
  flat_map (fun ev => match ev with
                      | EvTrainLog iteration epoch _ _ => [(iteration, epoch)]
                      | _ => []
                      end) t.

(** Steps that leave the model, the optimizer, the scheduler and the
    counters alone and record nothing in the training log. *)
Definition state_kept (ok : bool) (w w' : world) (t : list event) : Prop :=
  w_weights w' = w_weights w /\
  w_optimizer w' = w_optimizer w /\
  w_scheduler w' = w_scheduler w /\
  w_iteration w' = w_iteration w /\
  w_epoch w' = w_epoch w /\
  w_step w' = w_step w /\
  train_log_rows t = [].

(** Steps that leave the mode of the model alone. *)
Definition mode_kept (ok : bool) (w w' : world) (t : list event) : Prop :=
  w_training w' = w_training w.

(** Steps that take part in no collective. *)
Definition peers_kept (ok : bool) (w w' : world) (t : list event) : Prop :=
  w_gather_in w' = w_gather_in w.

(** The tensors of all ranks as [all_gather] lays them out: in rank order,
    that of this process at position [rank] among those of the peers. *)
Definition gathered (rank : Z) (own : nd) (peers : list nd) : list nd :=
  take (Z.to_nat rank) peers ++ own :: drop (Z.to_nat rank) peers.

(** What is being trained: the scheduler, the optimizer state and the model
    weights. *)
Definition trained : Type := option SchedState * OptState * Weights.

(** What the code makes of it with one batch, with the batches of a loader
    taken in order, with the scheduler's step, and with one epoch. *)
Definition batch_update (b : batch) (s : trained) : trained :=
  let '(sch, opt, ws) := s in
  let '(opt', ws') := optimizer_step opt ws (b_data b) (b_labels b) in
  (sch, opt', ws').

Definition batches_update (l : list batch) (s : trained) : trained :=
  fold_left (fun s b => batch_update b s) l s.

Definition scheduler_update (s : trained) : trained :=
  let '(sch, opt, ws) := s in
  match sch with
  | Some sc => let '(sc', opt') := scheduler_step sc opt in (Some sc', opt', ws)
  | None => (None, opt, ws)
  end.

Definition epoch_update (l : list batch) (s : trained) : trained :=
  scheduler_update (batches_update l s).

(** [evolves f w w']: if [w] has an optimizer, then [w'] holds what [f]
    makes of the scheduler, optimizer state and weights of [w]. *)
Definition evolves (f : trained -> trained) (w w' : world) : Prop :=
  forall opt, w_optimizer w = Some opt ->
    let '(sch, opt', ws) := f (w_scheduler w, opt, w_weights w) in
    w_scheduler w' = sch /\ w_optimizer w' = Some opt' /\ w_weights w' = ws.

(** What a run is to leave in the training log and in the world: the rows so
    far when it stopped on an exception, all of [rows] and a world that
    satisfies [E] when it completed. *)
Definition log_post (rows : list (Z * Z)) (E : world -> Prop) {A} (r : result A)
    (w' : world) (t : list event) : Prop :=
  train_log_rows t `prefix_of` rows /\
  (is_ok r = true -> train_log_rows t = rows /\ E w').

(** The rows of the training log for the batches [first .. first + n - 1]
    (counted from 0 over the whole run), [L] batches making an epoch. *)
Definition train_log_spec (L : Z) (first : Z) (n : nat) : list (Z * Z) :=
  map (fun i => (i + 1, i / L)) (seqZ first (Z.of_nat n)).

(** The engine as [train] has it when it reaches its first batch: the
    counters and the best validation loss reset, the validation iterator
    created. *)
Definition train_reset (w : world) : world :=
  set_best init_best_validation_loss
    (set_step 0 (set_iteration (Some 0) (set_epoch 0 (set_training true w)))).

Definition at_first_epoch (w : world) (vld : list batch) : world :=
  set_heap (w_heap w ++ [vld]) (train_reset w).

Definition at_first_batch (w : world) (vld : list batch) : world :=
  set_step 0 (set_epoch 0 (at_first_epoch w vld)).

(** Steps that leave the model weights and the optimizer alone and record
    nothing in the training log. *)
Definition model_kept (ok : bool) (w w' : world) (t : list event) : Prop :=
  w_weights w' = w_weights w /\ w_optimizer w' = w_optimizer w /\ train_log_rows t = [].

(** What a process other than rank 0 may leave in the trace: no validation
    record, and no checkpoint but those of the epochs. *)
Definition worker_event (ev : event) : Prop :=
  match ev with
  | EvValLog _ _ => False
  | EvSave sfx _ => exists n, sfx = "_epoch_" +:+ str_of_int n
  | _ => True
  end.

Definition worker_kept (ok : bool) (w w' : world) (t : list event) : Prop :=
  w_rank w' = w_rank w /\
  (w_rank w <> 0 -> w_best w' = w_best w /\ Forall worker_event t).

(** Steps that write no file and leave the best validation loss alone. *)
Definition files_kept (ok : bool) (w w' : world) (t : list event) : Prop :=
  w_files w' = w_files w /\ w_best w' = w_best w.

End Vocabulary.

(** * Properties *)

Section Properties.
Context {FW : Framework}.

(** ** Reasoning about runs *)

Lemma wp_run {A} (m : M A) w Q :
  wp m w Q <-> Q (result_of m w) (world_of m w) (trace_of m w).
Proof.
  unfold wp, result_of, world_of, trace_of.
  destruct (m w) as [[r w'] t]. reflexivity.
Qed.

Lemma wp_eq {A} (m : M A) w r w' t Q :
  m w = (r, w', t) -> wp m w Q -> Q r w' t.
Proof. unfold wp. intros ->. auto. Qed.

Lemma wp_mono {A} (m : M A) w (Q Q' : result A -> world -> list event -> Prop) :
  wp m w Q -> (forall r w' t, Q r w' t -> Q' r w' t) -> wp m w Q'.
Proof. unfold wp. destruct (m w) as [[r w'] t]. auto. Qed.

Lemma wp_bind {A B} (m : M A) (f : A -> M B) w Q :
  wp m w (fun r w1 t1 =>
            match r with
            | Ok a => wp (f a) w1 (fun r2 w2 t2 => Q r2 w2 (t1 ++ t2))
            | Err e => Q (Err e) w1 t1
            end) ->
  wp (bind m f) w Q.
Proof.
  unfold wp, bind. destruct (m w) as [[[a|e] w1] t1]; auto.
  destruct (f a w1) as [[r2 w2] t2]. auto.
Qed.

Lemma wp_ret {A} (a : A) w (Q : result A -> world -> list event -> Prop) :
  Q (Ok a) w [] -> wp (ret a) w Q.
Proof. auto. Qed.

Lemma wp_raise {A} e w (Q : result A -> world -> list event -> Prop) :
  Q (Err e) w [EvRaise e] -> wp (raise e) w Q.
Proof. auto. Qed.

Lemma wp_gets {A} (f : world -> A) w Q :
  Q (Ok (f w)) w [] -> wp (gets f) w Q.
Proof. auto. Qed.

Lemma wp_modify (f : world -> world) w Q :
  Q (Ok tt) (f w) [] -> wp (modify f) w Q.
Proof. auto. Qed.

Lemma wp_emit ev w Q :
  Q (Ok tt) w [ev] -> wp (emit ev) w Q.
Proof. auto. Qed.

Lemma wp_need {A} (o : option A) attr w Q :
  match o with
  | Some a => Q (Ok a) w []
  | None => Q (Err (AttributeError attr)) w [EvRaise (AttributeError attr)]
  end ->
  wp (need o attr) w Q.
Proof. destruct o; auto. Qed.

Lemma wp_lift {A} (r : result A) w Q :
  match r with
  | Ok a => Q (Ok a) w []
  | Err e => Q (Err e) w [EvRaise e]
  end ->
  wp (lift r) w Q.
Proof. destruct r; auto. Qed.

Lemma wp_py_mod a b w Q :
  (b = 0 -> Q (Err ZeroDivisionError) w [EvRaise ZeroDivisionError]) ->
  (b <> 0 -> Q (Ok (a mod b)) w []) ->
  wp (py_mod a b) w Q.
Proof.
  intros H0 H1. unfold py_mod. destruct (Z.eqb_spec b 0); [apply H0 | apply H1]; auto.
Qed.

Lemma wp_py_div x n w Q :
  (n = 0 -> Q (Err ZeroDivisionError) w [EvRaise ZeroDivisionError]) ->
  (n <> 0 -> Q (Ok (x / inject_Z n)%Q) w []) ->
  wp (py_div x n) w Q.
Proof.
  intros H0 H1. unfold py_div. destruct (Z.eqb_spec n 0); [apply H0 | apply H1]; auto.
Qed.

Lemma wp_get_loader name w Q :
  match w_loaders w !! name with
  | Some l => Q (Ok l) w []
  | None => Q (Err (KeyError name)) w [EvRaise (KeyError name)]
  end ->
  wp (get_loader name) w Q.
Proof.
  unfold get_loader, wp, bind, gets. destruct (w_loaders w !! name); auto.
Qed.

Lemma wp_save_state name w (Q : result string -> world -> list event -> Prop) :
  match w_iteration w, w_optimizer w with
  | Some it, Some opt =>
      Q (Ok (checkpoint_filename w name))
        (set_files (<[checkpoint_filename w name :=
                        CkptFile (checkpoint_dict it opt (w_weights w))]> (w_files w)) w)
        [EvSave name (checkpoint_filename w name)]
  | None, _ => Q (Err (AttributeError "iteration")) w [EvRaise (AttributeError "iteration")]
  | Some _, None =>
      Q (Err (AttributeError "state_dict")) w [EvRaise (AttributeError "state_dict")]
  end ->
  wp (save_state name) w Q.
Proof.
  unfold wp, save_state, bind, gets, need, modify, emit, ret, raise.
  destruct (w_iteration w), (w_optimizer w); auto.
Qed.

Lemma wp_dict_get d name w (Q : result nd -> world -> list event -> Prop) :
  (forall v, Q (Ok v) w []) ->
  Q (Err (KeyError name)) w [EvRaise (KeyError name)] ->
  wp (dict_get d name) w Q.
Proof.
  intros Hv He. induction d as [|[k v] d IH]; cbn [dict_get]; [exact He|].
  destruct (String.eqb k name); [apply Hv|exact IH].
Qed.

Lemma wp_py_iter ld w Q :
  Q (Ok (length (w_heap w))) (set_heap (w_heap w ++ [ld]) w) [EvIter (length (w_heap w))] ->
  wp (py_iter ld) w Q.
Proof. auto. Qed.

Ltac wsimpl :=
  cbn [w_dirpath w_rank w_model_name w_distributed w_epoch w_step w_iteration
       w_best w_weights w_training w_optimizer w_scheduler w_loaders w_data
       w_labels w_loss w_files w_heap w_gather_in
       set_epoch set_step set_iteration set_best set_weights set_training
       set_optimizer set_scheduler set_data set_labels set_loss set_files
       set_heap set_gather_in app] in *.

Ltac wp_step :=
  lazymatch goal with
  | |- wp (bind _ _) _ _ => apply wp_bind
  | |- wp (ret _) _ _ => apply wp_ret
  | |- wp (raise _) _ _ => apply wp_raise
  | |- wp (gets _) _ _ => apply wp_gets
  | |- wp (modify _) _ _ => apply wp_modify
  | |- wp (emit _) _ _ => apply wp_emit
  | |- wp (need _ _) _ _ => apply wp_need
  | |- wp (lift _) _ _ => apply wp_lift
  | |- wp (get_loader _) _ _ => apply wp_get_loader
  | |- wp (py_iter _) _ _ => apply wp_py_iter
  | |- wp (save_state _) _ _ => apply wp_save_state
  | |- wp (dict_get _ _) _ _ => apply wp_dict_get; [intros ?|]
  | |- wp (py_mod _ _) _ _ => apply wp_py_mod; intros ?
  | |- wp (py_div _ _) _ _ => apply wp_py_div; intros ?
  | |- wp (match ?x with _ => _ end) _ _ => destruct x eqn:?
  end; wsimpl.

Ltac wp_steps := repeat wp_step.

(** ** Checkpoints *)

Lemma save_state_run name w :
  save_state name w =
  match w_iteration w, w_optimizer w with
  | Some it, Some opt =>
      (Ok (checkpoint_filename w name),
       set_files (<[checkpoint_filename w name :=
                      CkptFile (checkpoint_dict it opt (w_weights w))]> (w_files w)) w,
       [EvSave name (checkpoint_filename w name)])
  | None, _ => (Err (AttributeError "iteration"), w, [EvRaise (AttributeError "iteration")])
  | Some _, None =>
      (Err (AttributeError "state_dict"), w, [EvRaise (AttributeError "state_dict")])
  end.
Proof.
  unfold save_state, bind, gets, need, modify, emit, ret, raise.
  destruct (w_iteration w), (w_optimizer w); reflexivity.
Qed.

Lemma checkpoint_dict_state_dict it opt ws :
  checkpoint_dict it opt ws !! "state_dict" = Some (CWeights ws).
Proof. unfold checkpoint_dict. by simplify_map_eq. Qed.

Lemma checkpoint_dict_optimizer it opt ws :
  checkpoint_dict it opt ws !! "optimizer" = Some (COpt opt).
Proof. unfold checkpoint_dict. by simplify_map_eq. Qed.

Lemma checkpoint_dict_global_step it opt ws :
  checkpoint_dict it opt ws !! "global_step" = Some (CInt it).
Proof. unfold checkpoint_dict. by simplify_map_eq. Qed.

Lemma checkpoint_dict_dom it opt ws :
  dom (checkpoint_dict it opt ws) = ({["state_dict"; "optimizer"; "global_step"]} : gset string).
Proof. unfold checkpoint_dict. rewrite !dom_insert_L, dom_empty_L. set_solver. Qed.

(** Restoring from a file that holds the dictionary of [save_state]. *)
Lemma restore_checkpoint_dict fname it opt ws w :
  w_files w !! fname = Some (CkptFile (checkpoint_dict it opt ws)) ->
  restore_state_from_file fname w =
  (Ok tt,
   set_iteration (Some it)
     (match w_optimizer w with
      | Some _ => set_optimizer (Some opt) (set_weights ws w)
      | None => set_weights ws w
      end),
   []).
Proof.
  intros Hf.
  unfold restore_state_from_file, bind, gets. rewrite Hf.
  unfold ckpt_get. rewrite checkpoint_dict_state_dict. cbn.
  destruct (w_optimizer w) eqn:Ho; cbn.
  - rewrite checkpoint_dict_optimizer. cbn.
    rewrite checkpoint_dict_global_step. reflexivity.
  - rewrite checkpoint_dict_global_step. reflexivity.
Qed.

Ltac wp_auto :=
  repeat (wp_step ||
          (lazymatch goal with
           | |- match ?x with _ => _ end => destruct x eqn:?
           | |- if ?x then _ else _ => destruct x eqn:?
           end; wsimpl)).

(** ** Forward and backward, as seen from outside *)

Lemma forward_shape tr w :
  wp (forward tr) w (fun r w' t =>
    (w' = w \/ exists l, w' = set_loss (Some l) w) /\
    match r with
    | Ok res => t = [EvForward tr (loss res) (accuracy res)]
    | Err e => t = [EvRaise e]
    end).
Proof.
  unfold forward. wp_auto; eauto.
Qed.

Lemma backward_shape w :
  wp backward w (fun r w' t =>
    (w' = w \/ exists opt ws, w' = set_optimizer (Some opt) (set_weights ws w)) /\
    match r with
    | Ok _ => t = []
    | Err e => t = [EvRaise e]
    end).
Proof.
  unfold backward. wp_auto; eauto.
Qed.

(** C1.  Checkpoint round trip: when [save_state] returns a file name, then
    restoring from that file, in whatever state the engine is by then,
    succeeds and gives back the model weights and the iteration counter of
    the moment of saving; the optimizer state is given back whenever the
    restoring engine has an optimizer, and an engine without one stays so. *)
Theorem checkpoint_roundtrip name (w w1 w2 : world) fname t1 :
  save_state name w = (Ok fname, w1, t1) ->
  w_files w2 !! fname = w_files w1 !! fname ->
  exists w3 t3,
    restore_state_from_file fname w2 = (Ok tt, w3, t3) /\
    w_weights w3 = w_weights w /\
    w_iteration w3 = w_iteration w /\
    (w_optimizer w2 <> None -> w_optimizer w3 = w_optimizer w) /\
    (w_optimizer w2 = None -> w_optimizer w3 = None).
Proof.
  rewrite save_state_run.
  destruct (w_iteration w) as [it|] eqn:Hit; [|discriminate].
  destruct (w_optimizer w) as [opt|] eqn:Hopt; [|discriminate].
  intros [= <- <- <-] Hfile.
  cbn [w_files set_files] in Hfile. rewrite lookup_insert_eq in Hfile.
  rewrite (restore_checkpoint_dict _ _ _ _ _ Hfile).
  eexists _, _. split; [reflexivity|].
  destruct (w_optimizer w2) eqn:Ho2; wsimpl; repeat split; congruence.
Qed.

(** ** Attribution and evaluation *)

Lemma gradient_or_raise_not_np_save t :
  Forall is_gradient_or_raise t -> Forall not_np_save t.
Proof. intros H. eapply Forall_impl; [exact H|]. intros []; simpl; auto. Qed.

Lemma attribution_loop_frame c mk model data n : forall i tout trel w,
  wp (attribution_loop c mk model data i n tout trel) w (fun r w' t =>
    w' = w /\ Forall is_gradient_or_raise t).
Proof.
  induction n as [|n IH]; intros i tout trel w; cbn [attribution_loop].
  - wp_auto. auto.
  - wp_auto.
    + eapply wp_mono; [apply IH|]. cbv beta. intros r1 w1 t1 [-> Ht].
      split; [reflexivity|]. repeat constructor. exact Ht.
    + split; [reflexivity|]. repeat constructor.
Qed.

Lemma epsilonAlpha2Beta1_frame model data w :
  wp (epsilonAlpha2Beta1 model data) w (fun r w' t =>
    w' = w /\ Forall is_gradient_or_raise t).
Proof.
  unfold epsilonAlpha2Beta1. wp_step.
  eapply wp_mono; [apply attribution_loop_frame|]. cbv beta.
  intros [[tout trel]|e] w' t [-> Ht]; [|auto].
  wp_auto. rewrite app_nil_r. auto.
Qed.

(** A numpy array has no [extend]: line 460 raises whatever the array is. *)
Lemma py_extend_at_array a i x : exists e, py_extend_at (PNd a) i x = Err e.
Proof.
  unfold py_extend_at, py_getitem. destruct a as [q|l]; [eauto|].
  destruct (l !! Z.to_nat i); cbn; eauto.
Qed.

Lemma lrp_loop_raises n current_model data its lrp rel w :
  wp (lrp_loop (S n) current_model data its lrp rel) w (fun r w' t =>
    (exists e, r = Err e) /\ w' = w /\ Forall not_np_save t).
Proof.
  cbn [lrp_loop]. wp_step.
  eapply wp_mono; [apply epsilonAlpha2Beta1_frame|]. cbv beta.
  intros [[out attribution]|e] w' t [-> Ht]; apply gradient_or_raise_not_np_save in Ht.
  - destruct (py_extend_at_array out its (PNd out)) as [e He].
    wp_step. rewrite He. wp_auto.
    split; [eauto|]. split; [reflexivity|].
    apply Forall_app. split; [exact Ht|]. repeat constructor.
  - eauto.
Qed.

Lemma evaluate_loop_raises b rest st w :
  wp (evaluate_loop (b :: rest) st) w (fun r w' t =>
    (exists e, r = Err e) /\ w_files w' = w_files w /\ Forall not_np_save t).
Proof.
  cbn [evaluate_loop]. do 4 wp_step. wp_step.
  eapply wp_mono; [apply forward_shape|]. cbv beta.
  intros [res|e] w' t [Hw Ht]; subst t.
  2:{ split; [eauto|]. split; [|repeat constructor].
      destruct Hw as [->|[l ->]]; reflexivity. }
  assert (Hf : w_files w' = w_files w) by (destruct Hw as [->|[l ->]]; reflexivity).
  do 2 wp_step.
  wp_step. wp_step.
  destruct (py_extend (ev_lrp_output st) (PList [PList []])) as [lrp0|e].
  2:{ split; [eauto|]. split; [exact Hf|]. repeat constructor. }
  wp_step. wp_step.
  destruct (py_extend (ev_relevance st) (PList [PList []])) as [rel0|e].
  2:{ split; [eauto|]. split; [exact Hf|]. repeat constructor. }
  wp_step.
  eapply wp_mono; [apply lrp_loop_raises|]. cbv beta.
  intros r w'' t ([e ->] & -> & Ht).
  split; [eauto|]. split; [exact Hf|]. repeat constructor. exact Ht.
Qed.

(** C4.  [evaluate] never completes and never writes an array file: on a
    test set with at least one batch, line 460 calls [extend] on the array
    that line 459 has just bound to [lrp_output]; on an empty test set the
    averages are divided by zero iterations; without a test loader the lookup
    fails.  So no run of [evaluate] saves the six arrays. *)
Theorem evaluate_never_saves (w : world) :
  (exists e, result_of evaluate w = Err e) /\
  w_files (world_of evaluate w) = w_files w /\
  Forall not_np_save (trace_of evaluate w).
Proof.
  apply (proj1 (wp_run evaluate w (fun r w' t =>
    (exists e, r = Err e) /\ w_files w' = w_files w /\ Forall not_np_save t))).
  unfold evaluate. do 4 wp_step.
  destruct (w_loaders w !! "test") as [[|b rest]|]; cbv beta iota.
  - wp_step. cbn [evaluate_loop]. wp_step.
    cbn [eval_loss eval_acc eval_iterations]. wp_step.
    apply wp_py_div; intros H0; [|congruence].
    split; [eauto|]. split; [reflexivity|]. repeat constructor.
  - wp_step. eapply wp_mono; [apply evaluate_loop_raises|]. cbv beta.
    intros r w' t ([e ->] & Hf & Ht). eauto.
  - split; [eauto|]. split; [reflexivity|]. repeat constructor.
Qed.

Lemma attribution_loop_trace c mk model data n : forall i tout trel w,
  wp (attribution_loop c mk model data i n tout trel) w (fun r w' t =>
    match r with
    | Ok _ => t = map (fun j => EvGradient (mk j)) (seqZ i (Z.of_nat n))
    | Err e => exists k, (k < n)%nat /\
        t = map (fun j => EvGradient (mk j)) (seqZ i (Z.of_nat (S k))) ++ [EvRaise e]
    end).
Proof.
  induction n as [|n IH]; intros i tout trel w; cbn [attribution_loop].
  - wp_auto. reflexivity.
  - wp_auto.
    + eapply wp_mono; [apply IH|]. cbv beta. intros r1 w1 t1 Ht.
      destruct r1 as [res|e].
      * subst t1. rewrite (seqZ_cons i) by lia. cbn [map].
        do 3 f_equal. lia.
      * destruct Ht as (k & Hk & ->). exists (S k). split; [lia|].
        rewrite (seqZ_cons i (Z.of_nat (S (S k)))) by lia. cbn [map app].
        do 4 f_equal. lia.
    + exists 0%nat. split; [lia|]. reflexivity.
Qed.

(** X27.  Every call of the attribution routine that
    [evaluate] uses, [epsilonAlpha2Beta1], on a batch enters the
    gradient-attribution context manager once per class label 0, 1, 2, 3, in
    this order, the invocation for class [i] targeting class [i] alone (the
    one-hot row of [i], for every input of the batch); when an attribution
    raises, the routine stops there. *)
Theorem attribution_once_per_class model data (w : world) :
  match result_of (epsilonAlpha2Beta1 model data) w with
  | Ok _ =>
      gradient_targets (trace_of (epsilonAlpha2Beta1 model data) w) = class_targets data
  | Err e =>
      exists k, (k < 4)%nat /\
        gradient_targets (trace_of (epsilonAlpha2Beta1 model data) w) =
        take (S k) (class_targets data)
  end /\
  (forall i j, 0 <= i < 4 -> 0 <= j < 4 ->
     eye_row i !! Z.to_nat j = Some (if Z.eqb j i then 1%Q else 0%Q)).
Proof.
  split.
  - apply (proj1 (wp_run (epsilonAlpha2Beta1 model data) w (fun r w' t =>
      match r with
      | Ok _ => gradient_targets t = class_targets data
      | Err e => exists k, (k < 4)%nat /\
                   gradient_targets t = take (S k) (class_targets data)
      end))).
    unfold epsilonAlpha2Beta1. wp_step.
    eapply wp_mono; [apply attribution_loop_trace|]. cbv beta.
    intros [[tout trel]|e] w1 t1 Ht.
    + subst t1. wp_auto. reflexivity.
    + destruct Ht as (k & Hk & ->). exists k. split; [exact Hk|].
      destruct k as [|[|[|[|k]]]]; [reflexivity..|lia].
  - intros i j Hi Hj.
    assert (Hi' : i = 0 \/ i = 1 \/ i = 2 \/ i = 3) by lia.
    assert (Hj' : j = 0 \/ j = 1 \/ j = 2 \/ j = 3) by lia.
    destruct Hi' as [->|[->|[->| ->]]], Hj' as [->|[->|[->| ->]]]; reflexivity.
Qed.

(** ** Relevance maps *)

Lemma row_add_length r1 r2 P :
  length r1 = P -> length r2 = P -> length (row_add r1 r2) = P.
Proof.
  intros H1 H2. unfold row_add. rewrite length_map, length_combine. lia.
Qed.

Lemma row_add_nth r1 : forall r2 p,
  length r1 = length r2 ->
  (nth p (row_add r1 r2) 0 == nth p r1 0 + nth p r2 0)%Q.
Proof.
  induction r1 as [|x r1 IH]; intros [|y r2] p Hl; try discriminate.
  - destruct p; cbn; ring.
  - destruct p as [|p]; cbn; [ring|]. apply IH. cbn in Hl. lia.
Qed.

Lemma sample_add_shape s1 s2 C P :
  length s1 = C /\ Forall (fun r => length r = P) s1 ->
  length s2 = C /\ Forall (fun r => length r = P) s2 ->
  length (sample_add s1 s2) = C /\ Forall (fun r => length r = P) (sample_add s1 s2).
Proof.
  intros [H1 F1] [H2 F2]. unfold sample_add. split.
  - rewrite length_map, length_combine. lia.
  - clear H1 H2. revert s2 F2.
    induction F1 as [|r1 s1 Hr1 F1 IH]; intros s2 F2; [constructor|].
    destruct F2 as [|r2 s2 Hr2 F2]; [constructor|].
    cbn. constructor; [apply row_add_length; assumption|]. apply IH. exact F2.
Qed.

Lemma sample_add_entry s1 : forall s2 C P ch p,
  length s1 = C /\ Forall (fun r => length r = P) s1 ->
  length s2 = C /\ Forall (fun r => length r = P) s2 ->
  (entry (sample_add s1 s2) ch p == entry s1 ch p + entry s2 ch p)%Q.
Proof.
  unfold entry, sample_add.
  induction s1 as [|r1 s1 IH]; intros [|r2 s2] C P ch p [H1 F1] [H2 F2];
    cbn in H1, H2; try (exfalso; lia).
  - destruct ch, p; cbn; ring.
  - apply Forall_cons in F1 as [Hr1 F1]. apply Forall_cons in F2 as [Hr2 F2].
    destruct ch as [|ch]; cbn [combine map nth fst snd].
    + apply row_add_nth. lia.
    + apply (IH s2 (length s1) P); split; auto; lia.
Qed.

Lemma fold_sample_add rest : forall s C P,
  length s = C /\ Forall (fun r => length r = P) s ->
  shaped C P rest ->
  (length (fold_left sample_add rest s) = C /\
   Forall (fun r => length r = P) (fold_left sample_add rest s)) /\
  forall ch p,
    (entry (fold_left sample_add rest s) ch p ==
     entry s ch p + Qsum (map (fun x => entry x ch p) rest))%Q.
Proof.
  induction rest as [|x rest IH]; intros s C P Hs Hrest.
  - split; [exact Hs|]. intros ch p. unfold Qsum. cbn [fold_left map fold_right]. ring.
  - apply Forall_cons in Hrest as [Hx Hrest]. cbn [fold_left].
    destruct (IH (sample_add s x) C P (sample_add_shape _ _ _ _ Hs Hx) Hrest) as [Hsh He].
    split; [exact Hsh|]. intros ch p. rewrite He.
    rewrite (sample_add_entry s x C P ch p Hs Hx).
    unfold Qsum. cbn [map fold_right]. ring.
Qed.

(** What [attribution.sum(0)] is for a batch of at least one input: a map
    of the shape of one input, each entry the sum over the batch. *)
Lemma sum0_spec attribution C P :
  attribution <> [] ->
  shaped C P attribution ->
  length (sum0 attribution) = C /\
  Forall (fun r => length r = P) (sum0 attribution) /\
  forall ch p,
    (entry (sum0 attribution) ch p == Qsum (map (fun s => entry s ch p) attribution))%Q.
Proof.
  destruct attribution as [|s rest]; [congruence|]. intros _ Hsh.
  apply Forall_cons in Hsh as [Hs Hrest]. cbn [sum0].
  destruct (fold_sample_add rest s C P Hs Hrest) as [[Hl Hf] He].
  split; [exact Hl|]. split; [exact Hf|]. intros ch p. rewrite He.
  unfold Qsum. cbn [map fold_right]. ring.
Qed.

(** The outputs and relevances a completed class loop has accumulated. *)
Lemma attribution_loop_result c mk model data n : forall i tout trel w tout' trel' w' t,
  attribution_loop c mk model data i n tout trel w = (Ok (tout', trel'), w', t) ->
  exists rs : list (list (list Q) * tensor),
    Forall2 (fun j r => gradient_attributor c model data (mk j) = Ok r)
      (seqZ i (Z.of_nat n)) rs /\
    tout' = tout ++ concat (map fst rs) /\
    trel' = trel ++ concat (map (fun r => sum0 (snd r)) rs).
Proof.
  induction n as [|n IH]; intros i tout trel w tout' trel' w' t; cbn [attribution_loop].
  - intros [= <- <- <- <-]. exists []. cbn. rewrite !app_nil_r. auto.
  - unfold bind at 1. cbn [emit].
    unfold bind at 1.
    destruct (gradient_attributor c model data (mk i)) as [[output attribution]|e] eqn:Hg;
      cbn [lift ret raise]; [|discriminate].
    destruct (attribution_loop c mk model data (i + 1) n (tout ++ output)
                (trel ++ sum0 attribution) w) as [[r2 w2] t2] eqn:Hrec.
    intros [= -> <- <-].
    destruct (IH _ _ _ _ _ _ _ _ Hrec) as (rs & Hrs & -> & ->).
    exists ((output, attribution) :: rs).
    rewrite (seqZ_cons i) by lia.
    replace (Z.succ i) with (i + 1) by lia.
    replace (Z.pred (Z.of_nat (S n))) with (Z.of_nat n) by lia.
    split; [constructor; assumption|]. cbn. rewrite <- !app_assoc. auto.
Qed.

(** C8 (as the code has it).  For a batch of at least one input, all of [C]
    channels of [P] pixels, and an attributor whose attribution has the shape
    of its input: the relevance either routine returns is, class after class,
    [attribution.sum(0)] of the attribution targeted at that class, which has
    the shape of ONE input ([C] rows of [P] scores) and holds at each element
    position the sum, over the inputs of the batch, of their attribution
    there. *)
Theorem relevance_sums_over_batch c model data (w w' : world) out rel t C P :
  data <> [] ->
  (forall target o a,
     gradient_attributor c model data target = Ok (o, a) ->
     length a = length data /\ shaped C P a) ->
  attribution_routine c model data w = (Ok (out, rel), w', t) ->
  exists rs : list (list (list Q) * tensor),
    Forall2 (fun i r => gradient_attributor c model data (routine_target c data i) = Ok r)
      [0; 1; 2; 3] rs /\
    rel = nd_mat (concat (map (fun r => sum0 (snd r)) rs)) /\
    Forall (fun r =>
              length (sum0 (snd r)) = C /\
              Forall (fun row => length row = P) (sum0 (snd r)) /\
              forall ch p,
                (entry (sum0 (snd r)) ch p ==
                 Qsum (map (fun s => entry s ch p) (snd r)))%Q) rs.
Proof.
  intros Hdata Hattr Hrun.
  assert (Hloop : exists tout trel w1 t1,
    attribution_loop c (routine_target c data) model data 0 4 [] [] w
      = (Ok (tout, trel), w1, t1) /\ rel = nd_mat trel).
  { destruct c; cbn [attribution_routine] in Hrun;
      unfold epsilonAlpha2Beta1, epsilonPlusFlat, bind in Hrun;
      cbn [routine_target];
      match type of Hrun with
      | context [attribution_loop ?c ?mk ?m ?d ?i ?n ?a ?b ?w] =>
          destruct (attribution_loop c mk m d i n a b w)
            as [[[[tout trel]|e] w1] t1] eqn:Hl
      end; cbn [ret] in Hrun; try discriminate;
      injection Hrun as <- <- <- <-;
      eexists _, _, _, _; (split; [exact Hl|reflexivity]). }
  destruct Hloop as (tout & trel & w1 & t1 & Hloop & ->).
  destruct (attribution_loop_result _ _ _ _ _ _ _ _ _ _ _ _ _ Hloop) as (rs & Hrs & _ & ->).
  exists rs. split; [exact Hrs|]. split; [reflexivity|].
  clear Hloop Hrun. change (seqZ 0 (Z.of_nat 4)) with [0; 1; 2; 3] in Hrs.
  induction Hrs as [|i [o a] js rs Hi Hrs IH]; [constructor|].
  constructor; [|exact IH].
  cbn [snd]. destruct (Hattr _ _ _ Hi) as [Hlen Hsh].
  apply sum0_spec; [|exact Hsh].
  intros ->. destruct data; [congruence|discriminate].
Qed.

(** ** Exceptions inside [validate] *)

Lemma handled_app t1 t2 final :
  handled t1 None -> handled t2 final -> handled (t1 ++ t2) final.
Proof.
  intros H1 H2. remember None as f1 eqn:Hf.
  induction H1 as [|e|l t f H1 IH|ev t f Hev H1 IH]; cbn [app].
  - exact H2.
  - discriminate.
  - apply handled_recover. auto.
  - apply handled_plain; auto.
Qed.

Create HintDb raises.

Lemma raises_ok_bind {A B} (m : M A) (f : A -> M B) :
  raises_ok m -> (forall a, raises_ok (f a)) -> raises_ok (bind m f).
Proof.
  intros Hm Hf w. apply wp_bind. eapply wp_mono; [apply Hm|]. cbv beta.
  intros [a|e] w1 t1 H1; [|exact H1].
  eapply wp_mono; [apply Hf|]. cbv beta. intros r2 w2 t2 H2.
  apply handled_app; assumption.
Qed.

Lemma raises_ok_ret {A} (a : A) : raises_ok (ret a).
Proof. intros w. constructor. Qed.

Lemma raises_ok_raise {A} e : raises_ok (@raise _ A e).
Proof. intros w. constructor. Qed.

Lemma raises_ok_gets {A} (f : world -> A) : raises_ok (gets f).
Proof. intros w. constructor. Qed.

Lemma raises_ok_modify f : raises_ok (modify f).
Proof. intros w. constructor. Qed.

Lemma raises_ok_emit ev : is_plain ev -> raises_ok (emit ev).
Proof. intros Hev w. apply handled_plain; [exact Hev|constructor]. Qed.

Lemma raises_ok_need {A} (o : option A) attr : raises_ok (need o attr).
Proof. destruct o; [apply raises_ok_ret|apply raises_ok_raise]. Qed.

Lemma raises_ok_lift {A} (r : result A) : raises_ok (lift r).
Proof. destruct r; [apply raises_ok_ret|apply raises_ok_raise]. Qed.

Lemma raises_ok_py_div x n : raises_ok (py_div x n).
Proof. unfold py_div. destruct (Z.eqb n 0); [apply raises_ok_raise|apply raises_ok_ret]. Qed.

Lemma raises_ok_py_mod a b : raises_ok (py_mod a b).
Proof. unfold py_mod. destruct (Z.eqb b 0); [apply raises_ok_raise|apply raises_ok_ret]. Qed.

Lemma raises_ok_py_iter ld : raises_ok (py_iter ld).
Proof. intros w. apply handled_plain; [exact I|constructor]. Qed.

Lemma raises_ok_py_next it : raises_ok (py_next it).
Proof.
  intros w. unfold wp, py_next.
  destruct (w_heap w !! it) as [[|b rest]|]; cbn [error_of];
    apply handled_plain; try exact I; constructor.
Qed.

Ltac raises_ok_step :=
  lazymatch goal with
  | |- raises_ok (bind _ _) => apply raises_ok_bind; [|intros ?]
  | |- raises_ok (ret _) => apply raises_ok_ret
  | |- raises_ok (raise _) => apply raises_ok_raise
  | |- raises_ok (gets _) => apply raises_ok_gets
  | |- raises_ok (modify _) => apply raises_ok_modify
  | |- raises_ok (emit _) => apply raises_ok_emit; exact I
  | |- raises_ok (need _ _) => apply raises_ok_need
  | |- raises_ok (lift _) => apply raises_ok_lift
  | |- raises_ok (py_div _ _) => apply raises_ok_py_div
  | |- raises_ok (py_mod _ _) => apply raises_ok_py_mod
  | |- raises_ok (py_iter _) => apply raises_ok_py_iter
  | |- raises_ok (py_next _) => apply raises_ok_py_next
  | |- raises_ok (match ?x with _ => _ end) => destruct x
  | |- raises_ok _ => solve [auto with raises]
  end.

Ltac raises_ok_auto := repeat raises_ok_step.

Lemma raises_ok_get_loader name : raises_ok (get_loader name).
Proof. unfold get_loader. raises_ok_auto. Qed.
#[local] Hint Resolve raises_ok_get_loader : raises.

Lemma raises_ok_save_state name : raises_ok (save_state name).
Proof. unfold save_state. raises_ok_auto. Qed.
#[local] Hint Resolve raises_ok_save_state : raises.

Lemma raises_ok_forward tr : raises_ok (forward tr).
Proof. unfold forward. raises_ok_auto. Qed.
#[local] Hint Resolve raises_ok_forward : raises.

Lemma raises_ok_backward : raises_ok backward.
Proof. unfold backward. raises_ok_auto. Qed.
#[local] Hint Resolve raises_ok_backward : raises.

Lemma raises_ok_dict_get d name : raises_ok (dict_get d name).
Proof. induction d as [|[k v] d IH]; cbn [dict_get]; raises_ok_auto. Qed.
#[local] Hint Resolve raises_ok_dict_get : raises.

Lemma raises_ok_get_synchronized_metrics d : raises_ok (get_synchronized_metrics d).
Proof.
  induction d as [|[k v] d IH]; cbn [get_synchronized_metrics]; [raises_ok_auto|].
  unfold all_gather. raises_ok_auto.
Qed.
#[local] Hint Resolve raises_ok_get_synchronized_metrics : raises.

(** The guarded fetch: the StopIteration of its first [next] is caught, what
    the handler raises is not. *)
Lemma raises_ok_fetch_val_batch it : raises_ok (fetch_val_batch it).
Proof.
  intros w. unfold wp, fetch_val_batch, try_except_StopIteration.
  unfold bind at 1. unfold py_next at 1.
  destruct (w_heap w !! it) as [[|b rest]|]; cbn [ret error_of app].
  - pose proof (raises_ok_bind (get_loader "validation")
      (fun ld => bind (py_iter ld) (fun it' =>
         bind (py_next it') (fun val_data => ret (it', val_data))))) as H.
    specialize (H (raises_ok_get_loader _)).
    assert (Hk : forall ld, raises_ok (bind (py_iter ld) (fun it' =>
         bind (py_next it') (fun val_data => ret (it', val_data))))).
    { intros ld. raises_ok_auto. }
    specialize (H Hk w). unfold wp in H.
    match goal with
    | |- context [bind ?m ?f w] => destruct (bind m f w) as [[r2 w2] t2]
    end.
    apply handled_recover. exact H.
  - apply handled_plain; [exact I|constructor].
  - apply handled_plain; [exact I|constructor].
Qed.
#[local] Hint Resolve raises_ok_fetch_val_batch : raises.

Lemma raises_ok_validate_loop n : forall it vl va, raises_ok (validate_loop n it vl va).
Proof.
  induction n as [|n IH]; intros it vl va; cbn [validate_loop]; [raises_ok_auto|].
  apply raises_ok_bind; [|intros [[it' vl'] va']; apply IH].
  unfold validate_batch. raises_ok_auto.
Qed.
#[local] Hint Resolve raises_ok_validate_loop : raises.

Lemma raises_ok_validate it nvb ck : raises_ok (validate it nvb ck).
Proof.
  unfold validate, validate_local, validate_record. raises_ok_auto.
Qed.

(** The guarded fetch on an exhausted iterator. *)
Lemma fetch_val_batch_exhausted it (w : world) :
  w_heap w !! it = Some [] ->
  fetch_val_batch it w =
  match w_loaders w !! "validation" with
  | Some (b :: rest) =>
      (Ok (length (w_heap w), b), set_heap (w_heap w ++ [rest]) w,
       [EvNext it 0; EvRaise StopIteration; EvCaught StopIteration;
        EvIter (length (w_heap w)); EvNext (length (w_heap w)) (S (length rest))])
  | Some [] =>
      (Err StopIteration, set_heap (w_heap w ++ [[]]) w,
       [EvNext it 0; EvRaise StopIteration; EvCaught StopIteration;
        EvIter (length (w_heap w)); EvNext (length (w_heap w)) 0; EvRaise StopIteration])
  | None =>
      (Err (KeyError "validation"), w,
       [EvNext it 0; EvRaise StopIteration; EvCaught StopIteration;
        EvRaise (KeyError "validation")])
  end.
Proof.
  intros Hit.
  unfold fetch_val_batch, try_except_StopIteration.
  unfold bind at 1. unfold py_next at 1. rewrite Hit.
  unfold get_loader, bind, gets.
  destruct (w_loaders w !! "validation") as [ld|]; [|reflexivity].
  unfold py_iter, py_next, ret. wsimpl.
  rewrite lookup_app_r by lia. rewrite Nat.sub_diag. cbn [lookup list_lookup].
  destruct ld as [|b rest]; [reflexivity|].
  unfold set_heap. cbn.
  rewrite insert_app_r_alt by lia. rewrite Nat.sub_diag. reflexivity.
Qed.

(** C5 (as the code has it).  When the guarded [next(val_iter)] of
    [validate] raises StopIteration, the exception is caught and a new
    iterator over the validation loader is created; if that loader has a
    batch, the batch is fetched from the new iterator and no error is
    reported; if the loader is empty, the StopIteration of the second fetch
    is not caught.  In every run of [validate], nothing but the StopIteration
    of a [next] is caught, and any other exception raised ends the run as its
    result. *)
Theorem validate_recovers_only_exhaustion :
  (forall it (w : world) b rest,
     w_heap w !! it = Some [] ->
     w_loaders w !! "validation" = Some (b :: rest) ->
     fetch_val_batch it w =
     (Ok (length (w_heap w), b), set_heap (w_heap w ++ [rest]) w,
      [EvNext it 0; EvRaise StopIteration; EvCaught StopIteration;
       EvIter (length (w_heap w)); EvNext (length (w_heap w)) (S (length rest))])) /\
  (forall it (w : world),
     w_heap w !! it = Some [] ->
     w_loaders w !! "validation" = Some [] ->
     result_of (fetch_val_batch it) w = Err StopIteration) /\
  (forall it nvb ck (w : world),
     handled (trace_of (validate it nvb ck) w)
       (error_of (result_of (validate it nvb ck) w))).
Proof.
  split; [|split].
  - intros it w b rest Hit Hld. rewrite (fetch_val_batch_exhausted it w Hit), Hld.
    reflexivity.
  - intros it w Hit Hld. unfold result_of.
    rewrite (fetch_val_batch_exhausted it w Hit), Hld. reflexivity.
  - intros it nvb ck w.
    apply (proj1 (wp_run (validate it nvb ck) w (fun r _ t => handled t (error_of r)))).
    apply raises_ok_validate.
Qed.

(** ** Properties every step keeps *)

Section Always.
Variable P : bool -> world -> world -> list event -> Prop.
Hypothesis HP : step_rel P.

Lemma always_bind {A B} (m : M A) (f : A -> M B) :
  always P m -> (forall a, always P (f a)) -> always P (bind m f).
Proof.
  intros Hm Hf w. apply wp_bind. eapply wp_mono; [apply Hm|]. cbv beta.
  intros [a|e] w1 t1 H1; [|exact H1].
  eapply wp_mono; [apply Hf|]. cbv beta. intros r2 w2 t2 H2.
  eapply sr_trans; eauto.
Qed.

Lemma always_ret {A} (a : A) : always P (ret a).
Proof. intros w. apply (sr_refl P HP). Qed.

Lemma always_raise {A} e : always P (@raise _ A e).
Proof. intros w. apply (sr_raise P HP). Qed.

Lemma always_gets {A} (f : world -> A) : always P (gets f).
Proof. intros w. apply (sr_refl P HP). Qed.

Lemma always_modify f : (forall w, P true w (f w) []) -> always P (modify f).
Proof. intros H w. apply H. Qed.

Lemma always_emit ev : (forall w, P true w w [ev]) -> always P (emit ev).
Proof. intros H w. apply H. Qed.

Lemma always_need {A} (o : option A) attr : always P (need o attr).
Proof. destruct o; [apply always_ret|apply always_raise]. Qed.

Lemma always_lift {A} (r : result A) : always P (lift r).
Proof. destruct r; [apply always_ret|apply always_raise]. Qed.

Lemma always_py_div x n : always P (py_div x n).
Proof. unfold py_div. destruct (Z.eqb n 0); [apply always_raise|apply always_ret]. Qed.

Lemma always_py_mod a b : always P (py_mod a b).
Proof. unfold py_mod. destruct (Z.eqb b 0); [apply always_raise|apply always_ret]. Qed.

Lemma always_get_loader name : always P (get_loader name).
Proof.
  unfold get_loader. apply always_bind; [apply always_gets|].
  intros [l|]; [apply always_ret|apply always_raise].
Qed.

Lemma always_dict_get d name : always P (dict_get d name).
Proof.
  induction d as [|[k v] d IH]; cbn [dict_get]; [apply always_raise|].
  destruct (String.eqb k name); [apply always_ret|exact IH].
Qed.

Lemma always_try_except_StopIteration {A} (m h : M A) :
  (forall ok w w1 w2 t1 t2,
     P false w w1 t1 -> P ok w1 w2 t2 ->
     P ok w w2 (t1 ++ EvCaught StopIteration :: t2)) ->
  always P m -> always P h -> always P (try_except_StopIteration m h).
Proof.
  intros Hc Hm Hh w. unfold wp, try_except_StopIteration.
  specialize (Hm w). unfold wp in Hm.
  destruct (m w) as [[[a|e] w1] t1]; [exact Hm|].
  destruct e; try exact Hm.
  specialize (Hh w1). unfold wp in Hh.
  destruct (h w1) as [[r2 w2] t2].
  eapply Hc; eauto.
Qed.

End Always.

Create HintDb always.

Ltac always_step :=
  lazymatch goal with
  | |- always _ (bind _ _) => apply always_bind; [assumption| |intros ?]
  | |- always _ (ret _) => apply always_ret; assumption
  | |- always _ (raise _) => apply always_raise; assumption
  | |- always _ (gets _) => apply always_gets; assumption
  | |- always _ (need _ _) => apply always_need; assumption
  | |- always _ (lift _) => apply always_lift; assumption
  | |- always _ (py_div _ _) => apply always_py_div; assumption
  | |- always _ (py_mod _ _) => apply always_py_mod; assumption
  | |- always _ (get_loader _) => apply always_get_loader; assumption
  | |- always _ (dict_get _ _) => apply always_dict_get; assumption
  | |- always _ (modify _) => apply always_modify; intros ?
  | |- always _ (emit _) => apply always_emit; intros ?
  | |- always _ (try_except_StopIteration _ _) =>
      apply always_try_except_StopIteration; [intros ? ? ? ? ? ?| |]
  | |- always _ (match ?x with _ => _ end) => destruct x
  | |- always _ _ => solve [eauto with always]
  end.

Ltac always_auto := repeat always_step.

Lemma wp_true {A} (m : M A) w : wp m w (fun _ _ _ => True).
Proof. unfold wp. destruct (m w) as [[r w'] t]. exact I. Qed.

Lemma wp_and {A} (m : M A) w (Q1 Q2 : result A -> world -> list event -> Prop) :
  wp m w Q1 -> wp m w Q2 -> wp m w (fun r w' t => Q1 r w' t /\ Q2 r w' t).
Proof. unfold wp. destruct (m w) as [[r w'] t]. auto. Qed.

(** ** What no method changes *)

Lemma setup_kept_step_rel : step_rel setup_kept.
Proof.
  split.
  - intros w. repeat split.
  - intros ok w w1 w2 t1 t2 (?&?&?&?&?) (?&?&?&?&?). repeat split; congruence.
  - intros w e. repeat split.
Qed.

Ltac setup_leaf :=
  first [ solve [repeat split]
        | intros (?&?&?&?&?) (?&?&?&?&?); repeat split; congruence ].

Lemma setup_kept_py_iter ld : always setup_kept (py_iter ld).
Proof. intros w. repeat split. Qed.

Lemma setup_kept_py_next it : always setup_kept (py_next it).
Proof.
  intros w. unfold wp, py_next.
  destruct (w_heap w !! it) as [[|b rest]|]; repeat split.
Qed.

#[local] Hint Resolve setup_kept_py_iter setup_kept_py_next : always.

Lemma setup_kept_forward tr : always setup_kept (forward tr).
Proof. pose proof setup_kept_step_rel. unfold forward. always_auto; setup_leaf. Qed.

Lemma setup_kept_backward : always setup_kept backward.
Proof. pose proof setup_kept_step_rel. unfold backward. always_auto; setup_leaf. Qed.

Lemma setup_kept_save_state name : always setup_kept (save_state name).
Proof. pose proof setup_kept_step_rel. unfold save_state. always_auto; setup_leaf. Qed.

Lemma setup_kept_get_synchronized_metrics d :
  always setup_kept (get_synchronized_metrics d).
Proof.
  pose proof setup_kept_step_rel.
  induction d as [|[k v] d IH]; cbn [get_synchronized_metrics]; unfold all_gather;
    always_auto; setup_leaf.
Qed.

#[local] Hint Resolve setup_kept_forward setup_kept_backward setup_kept_save_state
  setup_kept_get_synchronized_metrics : always.

Lemma setup_kept_validate_loop n : forall it vl va,
  always setup_kept (validate_loop n it vl va).
Proof.
  pose proof setup_kept_step_rel.
  induction n as [|n IH]; intros it vl va; cbn [validate_loop];
    unfold validate_batch, fetch_val_batch; always_auto; setup_leaf.
Qed.

#[local] Hint Resolve setup_kept_validate_loop : always.

Lemma setup_kept_validate it nvb ck : always setup_kept (validate it nvb ck).
Proof.
  pose proof setup_kept_step_rel.
  unfold validate, validate_local, validate_record. always_auto; setup_leaf.
Qed.

#[local] Hint Resolve setup_kept_validate : always.

Lemma setup_kept_train_batch cfg it step b : always setup_kept (train_batch cfg it step b).
Proof.
  pose proof setup_kept_step_rel. unfold train_batch. always_auto; setup_leaf.
Qed.

#[local] Hint Resolve setup_kept_train_batch : always.

Lemma setup_kept_train_batches cfg it l : forall step,
  always setup_kept (train_batches cfg it step l).
Proof.
  pose proof setup_kept_step_rel.
  induction l as [|b l IH]; intros step; cbn [train_batches]; always_auto.
Qed.

Lemma setup_kept_end_of_epoch cfg e : always setup_kept (end_of_epoch cfg e).
Proof.
  pose proof setup_kept_step_rel. unfold end_of_epoch. always_auto; setup_leaf.
Qed.

#[local] Hint Resolve setup_kept_train_batches setup_kept_end_of_epoch : always.

Lemma setup_kept_train_epoch cfg it e : always setup_kept (train_epoch cfg it e).
Proof.
  pose proof setup_kept_step_rel. unfold train_epoch. always_auto; setup_leaf.
Qed.

#[local] Hint Resolve setup_kept_train_epoch : always.

Lemma setup_kept_train_epochs cfg it n : forall e,
  always setup_kept (train_epochs cfg it e n).
Proof.
  pose proof setup_kept_step_rel.
  induction n as [|n IH]; intros e; cbn [train_epochs]; always_auto.
Qed.

#[local] Hint Resolve setup_kept_train_epochs : always.

(** ** The validation schedule of [train] *)

Lemma sched_proj_app t1 t2 : sched_proj (t1 ++ t2) = sched_proj t1 ++ sched_proj t2.
Proof. apply flat_map_app. Qed.

Lemma schedule_app vi n1 : forall k n2,
  schedule vi k (n1 + n2) = schedule vi k n1 ++ schedule vi (k + Z.of_nat n1) n2.
Proof.
  induction n1 as [|n1 IH]; intros k n2; cbn [schedule Nat.add app].
  - f_equal. lia.
  - rewrite IH, <- !app_assoc. cbn [app]. do 4 f_equal. lia.
Qed.

Lemma quiet_step_rel : step_rel quiet.
Proof.
  split.
  - intros w. split; reflexivity.
  - intros ok w w1 w2 t1 t2 [H1 E1] [H2 E2]. split; [congruence|].
    rewrite sched_proj_app, E1, E2. reflexivity.
  - intros w e. split; reflexivity.
Qed.

Ltac quiet_leaf :=
  first [ solve [split; reflexivity]
        | let E1 := fresh "E" in let E2 := fresh "F" in
          intros [? E1] [? E2]; split; [congruence|];
          rewrite sched_proj_app, E1; exact E2 ].

Ltac sched_norm :=
  unfold sched_proj in *; cbn [flat_map app] in *; rewrite ?flat_map_app in *;
  cbn [flat_map app] in *.

Lemma quiet_forward tr : always quiet (forward tr).
Proof. pose proof quiet_step_rel. unfold forward. always_auto; quiet_leaf. Qed.

Lemma quiet_backward : always quiet backward.
Proof. pose proof quiet_step_rel. unfold backward. always_auto; quiet_leaf. Qed.

Lemma quiet_save_state name : always quiet (save_state name).
Proof. pose proof quiet_step_rel. unfold save_state. always_auto; quiet_leaf. Qed.

Lemma quiet_get_synchronized_metrics d : always quiet (get_synchronized_metrics d).
Proof.
  pose proof quiet_step_rel.
  induction d as [|[k v] d IH]; cbn [get_synchronized_metrics]; unfold all_gather;
    always_auto; quiet_leaf.
Qed.

Lemma quiet_py_iter ld : always quiet (py_iter ld).
Proof. intros w. split; reflexivity. Qed.

Lemma quiet_py_next it : always quiet (py_next it).
Proof.
  intros w. unfold wp, py_next.
  destruct (w_heap w !! it) as [[|b rest]|]; split; reflexivity.
Qed.

#[local] Hint Resolve quiet_forward quiet_backward quiet_save_state
  quiet_get_synchronized_metrics quiet_py_iter quiet_py_next : always.

Lemma quiet_validate_loop n : forall it vl va, always quiet (validate_loop n it vl va).
Proof.
  pose proof quiet_step_rel.
  induction n as [|n IH]; intros it vl va; cbn [validate_loop];
    unfold validate_batch, fetch_val_batch; always_auto; quiet_leaf.
Qed.

#[local] Hint Resolve quiet_validate_loop : always.

Lemma quiet_validate_record k d ck : always quiet (validate_record k d ck).
Proof. pose proof quiet_step_rel. unfold validate_record. always_auto; quiet_leaf. Qed.

#[local] Hint Resolve quiet_validate_record : always.

Lemma validate_sched it nvb ck k w :
  w_iteration w = Some k ->
  wp (validate it nvb ck) w (fun r w' t =>
    w_iteration w' = Some k /\ sched_proj t = [SValidate k]).
Proof.
  intros Hk. pose proof quiet_step_rel as HP.
  unfold validate. apply wp_bind. unfold validate_local.
  do 5 wp_step. rewrite Hk. cbv beta iota. do 3 wp_step.
  assert (Hq : forall K : Q * Q -> M (Z * Q * Q), (forall x, always quiet (K x)) ->
    always quiet (bind (validate_loop (Z.to_nat nvb) it 0%Q 0%Q) K)).
  { intros K HK. always_auto. }
  match goal with
  | |- wp (bind _ ?K) _ _ =>
      eapply wp_mono; [apply (Hq K); intros [sl sa]; always_auto; quiet_leaf|]
  end.
  cbv beta. intros r w1 t1 [Hi Ht]. wsimpl. rewrite Hk in Hi.
  destruct r as [[[iteration ll] la]|e].
  - assert (Hrest : always quiet
      (let local_val_metrics := [("loss", nd_vec [ll]); ("accuracy", nd_vec [la])] in
       bind (gets w_distributed) (fun dist =>
         bind (if dist : bool then get_synchronized_metrics local_val_metrics
               else ret local_val_metrics)
           (fun global_val_metrics =>
              bind (gets w_rank) (fun rank =>
                if Z.eqb rank 0 then validate_record iteration global_val_metrics ck
                else ret tt))))).
    { cbv zeta. always_auto. }
    eapply wp_mono; [apply Hrest|]. cbv beta. intros r2 w2 t2 [Hi2 Ht2].
    split; [congruence|].
    sched_norm. rewrite Ht, Ht2. reflexivity.
  - sched_norm. rewrite Ht. auto.
Qed.

Lemma train_batch_sched cfg it step b k w :
  w_iteration w = Some k ->
  wp (train_batch cfg it step b) w (sched_post (val_interval cfg) k 1).
Proof.
  intros Hk. unfold train_batch, sched_post. cbn [schedule].
  do 5 wp_step. rewrite Hk. cbv beta iota. do 3 wp_step.
  { split; [apply prefix_nil|discriminate]. }
  match goal with
  | |- wp (bind _ ?K) _ _ =>
      assert (Hrest : forall w1, w_iteration w1 = Some k ->
        wp (K tt) w1 (fun r w' t =>
          sched_proj t = [STrain k] /\
          (forall a, r = Ok a -> w_iteration w' = Some (k + 1))))
  end.
  { clear w Hk. intros w Hk. do 7 wp_step.
    eapply wp_mono; [apply quiet_forward|]. cbv beta.
    intros [res|e] w1 t1 [Hi Ht]; wsimpl; rewrite Hk in Hi; sched_norm;
      [|rewrite Ht; split; [reflexivity|discriminate]].
    wp_step. eapply wp_mono; [apply quiet_backward|]. cbv beta.
    intros [[]|e] w2 t2 [Hi2 Ht2]; rewrite Hi in Hi2; sched_norm;
      [|rewrite Ht, Ht2; split; [reflexivity|discriminate]].
    do 5 wp_step. rewrite Hi2. cbv beta iota. wsimpl.
    wp_auto; sched_norm; rewrite Ht, Ht2; (split; [reflexivity|]);
      try discriminate; intros; reflexivity. }
  destruct (Z.eqb_spec (k mod val_interval cfg) 0) as [Hmod|Hmod].
  - apply wp_bind. eapply wp_mono; [apply (validate_sched _ _ _ k); wsimpl; exact Hk|].
    cbv beta. intros [[]|e] w1 t1 [Hi Ht].
    + eapply wp_mono; [apply Hrest; exact Hi|]. cbv beta.
      intros r w2 t2 [Ht2 Hi2]. rewrite sched_proj_app, Ht, Ht2. cbn [app].
      split; [reflexivity|]. intros a ->. split; [reflexivity|].
      rewrite (Hi2 a eq_refl). reflexivity.
    + rewrite Ht. split; [|discriminate]. exists [STrain k]. reflexivity.
  - wp_step. wp_step.
    eapply wp_mono; [apply Hrest; wsimpl; exact Hk|]. cbv beta.
    intros r w2 t2 [Ht2 Hi2]. rewrite Ht2. cbn [app].
    split; [reflexivity|]. intros a ->. split; [reflexivity|].
    rewrite (Hi2 a eq_refl). reflexivity.
Qed.

Lemma sched_post_bind {A B} (m : M A) (f : A -> M B) vi k n1 n2 w (E : world -> Prop) :
  wp m w (fun r w1 t => sched_post vi k n1 r w1 t /\ E w1) ->
  (forall a w1, E w1 -> w_iteration w1 = Some (k + Z.of_nat n1) ->
     wp (f a) w1 (sched_post vi (k + Z.of_nat n1) n2)) ->
  wp (bind m f) w (sched_post vi k (n1 + n2)).
Proof.
  intros Hm Hf. apply wp_bind. eapply wp_mono; [exact Hm|]. cbv beta.
  intros [a|e] w1 t1 [[Hpre Hok] HE].
  - destruct (Hok a eq_refl) as [Ht1 Hi1].
    eapply wp_mono; [apply (Hf a w1 HE Hi1)|]. cbv beta.
    intros r2 w2 t2 [Hpre2 Hok2]. unfold sched_post.
    rewrite sched_proj_app, schedule_app, Ht1. split.
    + apply prefix_app. exact Hpre2.
    + intros b ->. destruct (Hok2 b eq_refl) as [-> ->].
      split; [reflexivity|]. f_equal. lia.
  - split; [|discriminate]. rewrite schedule_app. apply prefix_app_r. exact Hpre.
Qed.

Lemma sched_post_quiet {A} (m : M A) vi k w :
  w_iteration w = Some k ->
  always quiet m ->
  wp m w (sched_post vi k 0).
Proof.
  intros Hk Hm. eapply wp_mono; [apply Hm|]. cbv beta.
  intros r w' t [Hi Ht]. unfold sched_post. rewrite Ht. cbn [schedule].
  split; [reflexivity|]. intros _ _. split; [reflexivity|].
  rewrite Hi, Hk. f_equal. lia.
Qed.

Lemma train_batches_sched cfg it l : forall step k w,
  w_iteration w = Some k ->
  wp (train_batches cfg it step l) w (sched_post (val_interval cfg) k (length l)).
Proof.
  induction l as [|b l IH]; intros step k w Hk; cbn [train_batches length].
  - wp_step. split; [reflexivity|]. intros _ _. split; [reflexivity|].
    rewrite Hk. f_equal. lia.
  - change (S (length l)) with (1 + length l)%nat.
    apply (sched_post_bind _ _ _ _ _ _ _ (fun _ => True)).
    + eapply wp_mono; [apply (train_batch_sched _ _ _ _ k w Hk)|]. cbv beta. auto.
    + intros _ w1 _ Hi. apply IH. exact Hi.
Qed.

Lemma quiet_end_of_epoch cfg e : always quiet (end_of_epoch cfg e).
Proof.
  pose proof quiet_step_rel. unfold end_of_epoch. always_auto; quiet_leaf.
Qed.

Lemma train_epoch_sched cfg it e k w :
  w_iteration w = Some k ->
  wp (train_epoch cfg it e) w (sched_post (val_interval cfg) k (train_len w)).
Proof.
  intros Hk. unfold train_epoch, train_len. do 4 wp_step.
  destruct (w_loaders w !! "train") as [ld|].
  2:{ split; [reflexivity|discriminate]. }
  do 2 wp_step.
  replace (length ld) with (length ld + 0)%nat by lia.
  apply (sched_post_bind _ _ _ _ _ _ _ (fun _ => True)).
  - eapply wp_mono; [apply (train_batches_sched _ _ _ _ k); wsimpl; exact Hk|].
    cbv beta. auto.
  - intros _ w1 _ Hi. apply sched_post_quiet; [exact Hi|apply quiet_end_of_epoch].
Qed.

Lemma train_epochs_sched cfg it n : forall e k w,
  w_iteration w = Some k ->
  wp (train_epochs cfg it e n) w (sched_post (val_interval cfg) k (n * train_len w)).
Proof.
  induction n as [|n IH]; intros e k w Hk; cbn [train_epochs Nat.mul].
  - wp_step. split; [reflexivity|]. intros _ _. split; [reflexivity|].
    rewrite Hk. f_equal. lia.
  - apply (sched_post_bind _ _ _ _ _ _ _ (fun w1 => train_len w1 = train_len w)).
    + apply wp_and; [apply train_epoch_sched; exact Hk|].
      eapply wp_mono; [apply setup_kept_train_epoch|]. cbv beta.
      intros r w1 t (_&_&_&_&Hl). unfold train_len. rewrite Hl. reflexivity.
    + intros _ w1 Hl Hi. rewrite <- Hl. apply IH. rewrite Hl. exact Hi.
Qed.

Lemma train_sched cfg w :
  wp (train cfg) w
    (sched_post (val_interval cfg) 0 (Z.to_nat (epochs cfg) * train_len w)).
Proof.
  unfold train. wp_auto.
  - eapply wp_mono; [apply train_epochs_sched; reflexivity|]. cbv beta.
    intros r w' t H. exact H.
  - split; [apply prefix_nil|discriminate].
Qed.

(** ** The metrics of one validation *)

Lemma fetch_val_batch_yields it w :
  wp (fetch_val_batch it) w (fun r w' t =>
    val_forwards t = [] /\ (forall a, r = Ok a -> length (yields t) = 1%nat)).
Proof.
  unfold wp, fetch_val_batch, try_except_StopIteration.
  unfold bind at 1. unfold py_next at 1.
  destruct (w_heap w !! it) as [[|b rest]|] eqn:Hit; cbn [ret app].
  - pose proof (fetch_val_batch_exhausted it w Hit) as Hf.
    unfold fetch_val_batch, try_except_StopIteration in Hf.
    unfold bind at 1 in Hf. unfold py_next at 1 in Hf. rewrite Hit in Hf.
    cbn [ret app] in Hf. rewrite Hf.
    destruct (w_loaders w !! "validation") as [[|b rest]|];
      (split; [reflexivity|]); intros a; try discriminate. reflexivity.
  - split; [reflexivity|]. intros _ _. reflexivity.
  - split; [reflexivity|]. discriminate.
Qed.

Lemma validate_loop_sums n : forall it vl va w,
  wp (validate_loop n it vl va) w (fun r w' t =>
    forall sl sa, r = Ok (sl, sa) ->
      length (val_forwards t) = n /\
      length (yields t) = n /\
      (sl == vl + Qsum (map fst (val_forwards t)))%Q /\
      (sa == va + Qsum (map snd (val_forwards t)))%Q).
Proof.
  induction n as [|n IH]; intros it vl va w; cbn [validate_loop].
  - wp_step. intros sl sa [= <- <-]. cbn. repeat split; ring.
  - wp_step. unfold validate_batch. wp_step.
    eapply wp_mono; [apply fetch_val_batch_yields|]. cbv beta.
    intros [[it' b]|e] w1 t1 [Hf1 Hy1]; [|discriminate].
    specialize (Hy1 _ eq_refl).
    do 5 wp_step. eapply wp_mono; [apply forward_shape|]. cbv beta.
    intros [res|e] w2 t2 [_ Ht2]; [|discriminate]. subst t2.
    wp_steps.
    eapply wp_mono; [apply IH|]. cbv beta. intros r w3 t3 H3 sl sa ->.
    destruct (H3 sl sa eq_refl) as (Hl & Hy & Hsl & Hsa).
    assert (E1 : val_forwards ((t1 ++ [EvForward false (loss res) (accuracy res)]) ++ t3)
                 = (loss res, accuracy res) :: val_forwards t3).
    { unfold val_forwards in *. rewrite !flat_map_app, Hf1. reflexivity. }
    assert (E2 : yields ((t1 ++ [EvForward false (loss res) (accuracy res)]) ++ t3)
                 = yields t1 ++ yields t3).
    { unfold yields. rewrite !flat_map_app. cbn [flat_map app].
      rewrite app_nil_r. reflexivity. }
    rewrite E1, E2, length_app, Hy1, Hy. cbn [length map fst snd]. rewrite Hl.
    repeat split; try lia.
    + rewrite Hsl. unfold Qsum. cbn [fold_right]. ring.
    + rewrite Hsa. unfold Qsum. cbn [fold_right]. ring.
Qed.

Lemma validate_local_mean it nvb w :
  wp (validate_local it nvb) w (fun r w' t =>
    forall k ll la, r = Ok (k, ll, la) ->
      nvb <> 0 /\
      Z.of_nat (length (val_forwards t)) = Z.max 0 nvb /\
      Z.of_nat (length (yields t)) = Z.max 0 nvb /\
      (ll == Qsum (map fst (val_forwards t)) / inject_Z nvb)%Q /\
      (la == Qsum (map snd (val_forwards t)) / inject_Z nvb)%Q).
Proof.
  unfold validate_local. wp_auto; try discriminate.
  eapply wp_mono; [apply validate_loop_sums|]. cbv beta.
  intros [[sl sa]|e] w1 t1 H1; [|discriminate].
  destruct (H1 sl sa eq_refl) as (Hl & Hy & Hsl & Hsa).
  wp_auto; try discriminate.
  intros k ll la [= <- <- <-]. rewrite !app_nil_r.
  change (val_forwards (EvValidate it z :: t1)) with (val_forwards t1).
  change (yields (EvValidate it z :: t1)) with (yields t1).
  rewrite Hl, Hy, Hsl, Hsa.
  repeat split; try lia; try (apply Qdiv_comp; [ring|reflexivity]).
Qed.


(** ** The best validation loss *)

Lemma tracks_minimum_app t1 : forall b saved t2,
  tracks_minimum b saved t1 ->
  tracks_minimum (best_after b t1) (saved_after saved t1) t2 ->
  tracks_minimum b saved (t1 ++ t2).
Proof.
  induction t1 as [|ev t1 IH]; intros b saved t2 H1 H2; [exact H2|].
  destruct ev; cbn [app tracks_minimum best_after saved_after] in *; auto.
  destruct H1 as (E & Hlt & Hge & H1). split; [exact E|].
  split; [exact Hlt|]. split; [exact Hge|]. auto.
Qed.

Lemma best_after_app t1 : forall b t2,
  best_after b (t1 ++ t2) = best_after (best_after b t1) t2.
Proof.
  induction t1 as [|ev t1 IH]; intros b t2; [reflexivity|].
  destruct ev; cbn [app best_after]; auto.
Qed.

Lemma saved_after_app t1 : forall saved t2,
  saved_after saved (t1 ++ t2) = saved_after (saved_after saved t1) t2.
Proof.
  induction t1 as [|ev t1 IH]; intros saved t2; [reflexivity|].
  destruct ev; cbn [app saved_after]; auto.
Qed.

Lemma Qltb_lt x y : Qltb x y = true <-> (x < y)%Q.
Proof.
  unfold Qltb. rewrite Qlt_alt. destruct (x ?= y)%Q; split; congruence.
Qed.

Lemma Qmin_of_Qltb b x : Qmin b x = if Qltb x b then x else b.
Proof.
  unfold Qmin, GenericMinMax.gmin, Qltb.
  rewrite <- (Qcompare_antisym x b). destruct (x ?= b)%Q; reflexivity.
Qed.

Lemma min_kept_step_rel : step_rel min_kept.
Proof.
  split.
  - intros w. split; [exact I|]. intros _. split; reflexivity.
  - intros ok w w1 w2 t1 t2 [H1 E1] [H2 E2].
    destruct (E1 eq_refl) as [Eb Es]. split.
    + apply tracks_minimum_app; [exact H1|]. rewrite <- Eb, Es. exact H2.
    + intros Hok. destruct (E2 Hok) as [Eb2 Es2].
      rewrite best_after_app, saved_after_app, <- Eb, Es. auto.
  - intros w e. split; [exact I|discriminate].
Qed.

Ltac min_leaf :=
  first [ solve [split; [exact I|intros _; split; reflexivity]]
        | solve [split; [exact I|discriminate]] ].

Lemma silent_step_rel : step_rel silent.
Proof.
  split.
  - intros w. split; [reflexivity|constructor].
  - intros ok w w1 w2 t1 t2 [H1 F1] [H2 F2]. split; [congruence|].
    apply Forall_app. auto.
  - intros w e. split; [reflexivity|]. repeat constructor.
Qed.

Ltac silent_leaf :=
  first [ solve [split; [reflexivity|repeat constructor]]
        | let F1 := fresh "F" in let F2 := fresh "G" in
          intros [? F1] [? F2]; split; [congruence|];
          apply Forall_app; split; [exact F1|]; constructor; [exact I|exact F2] ].

Lemma silent_py_iter ld : always silent (py_iter ld).
Proof. intros w. silent_leaf. Qed.

Lemma silent_py_next it : always silent (py_next it).
Proof.
  intros w. unfold wp, py_next.
  destruct (w_heap w !! it) as [[|b rest]|]; silent_leaf.
Qed.

#[local] Hint Resolve silent_py_iter silent_py_next : always.

Lemma silent_forward tr : always silent (forward tr).
Proof. pose proof silent_step_rel. unfold forward. always_auto; silent_leaf. Qed.

Lemma silent_backward : always silent backward.
Proof. pose proof silent_step_rel. unfold backward. always_auto; silent_leaf. Qed.

Lemma silent_get_synchronized_metrics d : always silent (get_synchronized_metrics d).
Proof.
  pose proof silent_step_rel.
  induction d as [|[k v] d IH]; cbn [get_synchronized_metrics]; unfold all_gather;
    always_auto; silent_leaf.
Qed.

#[local] Hint Resolve silent_forward silent_backward silent_get_synchronized_metrics
  : always.

Lemma silent_validate_loop n : forall it vl va, always silent (validate_loop n it vl va).
Proof.
  pose proof silent_step_rel.
  induction n as [|n IH]; intros it vl va; cbn [validate_loop];
    unfold validate_batch, fetch_val_batch; always_auto; silent_leaf.
Qed.

#[local] Hint Resolve silent_validate_loop : always.

Lemma silent_validate_local it nvb : always silent (validate_local it nvb).
Proof. pose proof silent_step_rel. unfold validate_local. always_auto; silent_leaf. Qed.

Lemma unrecorded_tracks t : forall b saved,
  Forall unrecorded t ->
  tracks_minimum b saved t /\ best_after b t = b /\ saved_after saved t = saved.
Proof.
  induction t as [|ev t IH]; intros b saved Hf; [repeat split|].
  apply Forall_cons in Hf as [Hev Hf].
  destruct ev; cbn [tracks_minimum best_after saved_after]; try apply IH; auto;
    destruct Hev.
Qed.

Lemma silent_min_kept {A} (m : M A) : always silent m -> always min_kept m.
Proof.
  intros Hm w. eapply wp_mono; [apply Hm|]. cbv beta.
  intros r w' t [Hb Hf].
  destruct (unrecorded_tracks t (w_best w) false Hf) as (H1 & H2 & H3).
  split; [exact H1|]. intros _. rewrite Hb, H2, H3. auto.
Qed.

Lemma min_kept_validate_record k d ck : always min_kept (validate_record k d ck).
Proof.
  intros w. unfold validate_record.
  wp_step. apply wp_dict_get; [intros gl|min_leaf].
  wp_step. apply wp_dict_get; [intros ga|min_leaf].
  do 5 wp_step.
  destruct (Qltb (np_mean gl) (w_best w)) eqn:Hlt; wp_auto.
  all: unfold min_kept;
    cbn [tracks_minimum best_after saved_after is_ok orb vr_loss vr_saved_best
         w_best set_files set_best String.eqb Ascii.eqb Bool.eqb].
  all: rewrite ?Qmin_of_Qltb, ?Hlt.
  all: pose proof (Qltb_lt (np_mean gl) (w_best w)) as Hiff; rewrite Hlt in Hiff.
  all: repeat split; try reflexivity; try discriminate; intros.
  all: try (exfalso; intuition congruence).
Qed.

Lemma min_kept_save_state name : name <> "BEST" -> always min_kept (save_state name).
Proof.
  intros Hne w. apply wp_save_state.
  destruct (w_iteration w), (w_optimizer w); try min_leaf.
  split; [exact I|]. intros _. cbn [best_after saved_after orb w_best set_files].
  split; [reflexivity|]. apply String.eqb_neq. exact Hne.
Qed.

Lemma min_kept_save_epoch e : always min_kept (save_state ("_epoch_" +:+ str_of_int e)).
Proof. apply min_kept_save_state. discriminate. Qed.

Lemma min_kept_save_latest : always min_kept (save_state "").
Proof. apply min_kept_save_state. discriminate. Qed.

Lemma min_kept_validate_local it nvb : always min_kept (validate_local it nvb).
Proof. apply silent_min_kept, silent_validate_local. Qed.

Lemma min_kept_forward tr : always min_kept (forward tr).
Proof. apply silent_min_kept, silent_forward. Qed.

Lemma min_kept_backward : always min_kept backward.
Proof. apply silent_min_kept, silent_backward. Qed.

Lemma min_kept_get_synchronized_metrics d : always min_kept (get_synchronized_metrics d).
Proof. apply silent_min_kept, silent_get_synchronized_metrics. Qed.

#[local] Hint Resolve min_kept_validate_record min_kept_save_epoch min_kept_save_latest
  min_kept_validate_local min_kept_forward min_kept_backward
  min_kept_get_synchronized_metrics : always.

Lemma min_kept_validate it nvb ck : always min_kept (validate it nvb ck).
Proof. pose proof min_kept_step_rel. unfold validate. always_auto; min_leaf. Qed.

#[local] Hint Resolve min_kept_validate : always.

Lemma min_kept_train_batch cfg it step b : always min_kept (train_batch cfg it step b).
Proof. pose proof min_kept_step_rel. unfold train_batch. always_auto; min_leaf. Qed.

#[local] Hint Resolve min_kept_train_batch : always.

Lemma min_kept_train_batches cfg it l : forall step,
  always min_kept (train_batches cfg it step l).
Proof.
  pose proof min_kept_step_rel.
  induction l as [|b l IH]; intros step; cbn [train_batches]; always_auto.
Qed.

Lemma min_kept_end_of_epoch cfg e : always min_kept (end_of_epoch cfg e).
Proof. pose proof min_kept_step_rel. unfold end_of_epoch. always_auto; min_leaf. Qed.

#[local] Hint Resolve min_kept_train_batches min_kept_end_of_epoch : always.

Lemma min_kept_train_epoch cfg it e : always min_kept (train_epoch cfg it e).
Proof. pose proof min_kept_step_rel. unfold train_epoch. always_auto; min_leaf. Qed.

#[local] Hint Resolve min_kept_train_epoch : always.

Lemma min_kept_train_epochs cfg it n : forall e,
  always min_kept (train_epochs cfg it e n).
Proof.
  pose proof min_kept_step_rel.
  induction n as [|n IH]; intros e; cbn [train_epochs]; always_auto.
Qed.

(** [train] resets the best validation loss and tracks the minimum from
    there. *)
Lemma train_tracks_minimum cfg w :
  wp (train cfg) w (fun r w' t =>
    tracks_minimum init_best_validation_loss false t /\
    (forall a, r = Ok a -> w_best w' = best_after init_best_validation_loss t)).
Proof.
  unfold train. wp_auto.
  - eapply wp_mono; [apply min_kept_train_epochs|]. cbv beta.
    intros r w' t [Ht Hb]. wsimpl. split; [exact Ht|].
    intros a ->. apply (Hb eq_refl).
  - split; [exact I|discriminate].
Qed.

Lemma tracks_minimum_split t1 : forall b saved t2,
  tracks_minimum b saved (t1 ++ t2) ->
  tracks_minimum b saved t1 /\
  tracks_minimum (best_after b t1) (saved_after saved t1) t2.
Proof.
  induction t1 as [|ev t1 IH]; intros b saved t2 H; [split; [exact I|exact H]|].
  destruct ev; cbn [app tracks_minimum best_after saved_after] in *; auto.
  destruct H as (E & Hlt & Hge & H). destruct (IH _ _ _ H) as [H1 H2]. auto.
Qed.

Lemma best_after_running_min t : forall b saved,
  tracks_minimum b saved t -> best_after b t = running_min b (logged_losses t).
Proof.
  induction t as [|ev t IH]; intros b saved H; [reflexivity|].
  destruct ev; cbn [tracks_minimum best_after logged_losses flat_map app] in *;
    try (apply (IH _ _ H)).
  destruct H as (E & _ & _ & H). unfold running_min. cbn [fold_left].
  rewrite <- E. apply (IH _ _ H).
Qed.

Lemma running_min_snoc b losses x :
  running_min b (losses ++ [x]) = Qmin (running_min b losses) x.
Proof. unfold running_min. rewrite fold_left_app. reflexivity. Qed.

(** The facts of a record in a run of [train], from the minimum tracked. *)
Lemma best_validation_loss_facts cfg (w : world) t1 r best t2 :
  trace_of (train cfg) w = t1 ++ EvValLog r best :: t2 ->
  let prev := running_min init_best_validation_loss (logged_losses t1) in
  ((vr_loss r < prev)%Q <-> saved_after false t1 = true) /\
  best = Qmin prev (vr_loss r).
Proof.
  intros Heq prev.
  pose proof (proj1 (wp_run _ _ _) (train_tracks_minimum cfg w)) as [Ht _].
  rewrite Heq in Ht. apply tracks_minimum_split in Ht as [H1 H2].
  cbn [tracks_minimum] in H2. destruct H2 as (E & Hlt & Hge & _).
  rewrite (best_after_running_min _ _ _ H1) in E, Hlt, Hge. fold prev in E, Hlt, Hge.
  split; [|exact E].
  destruct (Qlt_le_dec (vr_loss r) prev) as [Hl|Hl].
  - destruct (Hlt Hl) as (_ & _ & Ev). split; auto.
  - apply Qle_not_lt in Hl. destruct (Hge Hl) as (_ & _ & Ev).
    split; intros H; [contradiction|congruence].
Qed.

(** C2.  In every run of [train], each validation record (rank 0 makes one
    at the end of every completed [validate]) is made with
    [best_validation_loss] equal to the minimum of 1.0e10 and all global
    validation losses recorded so far, this one included; and the validation
    changed [best_validation_loss], recorded [saved_best = 1] and saved the
    "BEST" checkpoint if and only if its global loss is strictly below the
    value [best_validation_loss] had before.  A completed run ends with
    [best_validation_loss] the minimum of 1.0e10 and all recorded losses. *)
Theorem best_validation_loss_is_minimum cfg (w : world) :
  (forall t1 r best t2,
     trace_of (train cfg) w = t1 ++ EvValLog r best :: t2 ->
     let prev := running_min init_best_validation_loss (logged_losses t1) in
     best = running_min init_best_validation_loss (logged_losses t1 ++ [vr_loss r]) /\
     ((vr_loss r < prev)%Q <-> best <> prev) /\
     ((vr_loss r < prev)%Q <-> vr_saved_best r = 1) /\
     ((vr_loss r < prev)%Q <-> saved_after false t1 = true)) /\
  (forall a, result_of (train cfg) w = Ok a ->
     w_best (world_of (train cfg) w) =
     running_min init_best_validation_loss (logged_losses (trace_of (train cfg) w))).
Proof.
  pose proof (proj1 (wp_run _ _ _) (train_tracks_minimum cfg w)) as [Ht Hb].
  split.
  - intros t1 r best t2 Heq prev. rewrite Heq in Ht.
    apply tracks_minimum_split in Ht as [H1 H2].
    cbn [tracks_minimum] in H2. destruct H2 as (E & Hlt & Hge & _).
    rewrite (best_after_running_min _ _ _ H1) in E, Hlt, Hge. fold prev in E, Hlt, Hge.
    rewrite running_min_snoc. fold prev. split; [exact E|].
    destruct (Qlt_le_dec (vr_loss r) prev) as [Hl|Hl].
    + destruct (Hlt Hl) as (Eb & Es & Ev).
      repeat split; auto; intros _; try exact Hl.
      rewrite Eb. intros Heq'. rewrite Heq' in Hl. exact (Qlt_irrefl _ Hl).
    + apply Qle_not_lt in Hl. destruct (Hge Hl) as (Eb & Es & Ev).
      repeat split; intros H; try contradiction; exfalso; congruence.
  - intros a Ha. rewrite (Hb a Ha). apply (best_after_running_min _ _ _ Ht).
Qed.

(** ** The first validation of a run *)

Lemma logged_losses_app t1 t2 :
  logged_losses (t1 ++ t2) = logged_losses t1 ++ logged_losses t2.
Proof. apply flat_map_app. Qed.

Lemma unrecorded_no_losses t : Forall unrecorded t -> logged_losses t = [].
Proof.
  induction 1 as [|ev t Hev _ IH]; [reflexivity|].
  destruct ev; cbn [logged_losses flat_map app]; try exact IH. destruct Hev.
Qed.

Lemma has_first_record_app k t1 t2 :
  has_first_record k t1 -> has_first_record k (t1 ++ t2).
Proof.
  intros (tv & r & best & more & -> & Hl & Hk).
  exists tv, r, best, (more ++ t2). rewrite <- app_assoc. auto.
Qed.

Lemma has_first_record_pre k t1 t2 :
  logged_losses t1 = [] -> has_first_record k t2 -> has_first_record k (t1 ++ t2).
Proof.
  intros H1 (tv & r & best & more & -> & Hl & Hk).
  exists (t1 ++ tv), r, best, more. rewrite <- app_assoc, logged_losses_app, H1, Hl. auto.
Qed.

(** The first record of a trace is unique. *)
Lemma first_record_unique k t t1 r best t2 :
  has_first_record k t ->
  t = t1 ++ EvValLog r best :: t2 -> logged_losses t1 = [] ->
  vr_iteration r = k.
Proof.
  intros (tv & r' & best' & more & -> & Hl & Hk). revert t1.
  induction tv as [|ev tv IH]; intros [|ev1 t1] Heq Hl1; cbn [app] in Heq.
  - injection Heq as <- _ _. exact Hk.
  - injection Heq as <- _. discriminate Hl1.
  - injection Heq as -> _. discriminate Hl.
  - injection Heq as <- Heq. apply (IH) with (t1 := t1); auto.
    + destruct ev; cbn [logged_losses flat_map app] in Hl; auto; discriminate.
    + destruct ev; cbn [logged_losses flat_map app] in Hl1; auto; discriminate.
Qed.

Lemma first_validation_post_bind {A B} (m : M A) (f : A -> M B) rank it k w :
  wp m w (fun r _ t => first_validation_post rank it k r t) ->
  wp (bind m f) w (fun r _ t => first_validation_post rank it k r t).
Proof.
  intros Hm. apply wp_bind. eapply wp_mono; [exact Hm|]. cbv beta.
  intros [a|e] w1 t1 (t' & -> & H); [|exists t'; auto].
  unfold wp. destruct (f a w1) as [[r2 w2] t2].
  exists (t' ++ t2). split; [reflexivity|]. intros Hrank.
  destruct (H Hrank) as [H1|[H1 _]]; [|discriminate].
  left. apply has_first_record_app. exact H1.
Qed.

Lemma validate_record_logs k d ck w :
  wp (validate_record k d ck) w (fun r _ t =>
    has_first_record k t \/ (is_ok r = false /\ logged_losses t = [])).
Proof.
  unfold validate_record. wp_auto.
  all: try (right; split; reflexivity).
  all: left; unfold has_first_record.
  - eexists [_; _], _, _, []. repeat split.
  - eexists [_], _, _, []. repeat split.
  - eexists [_], _, _, []. repeat split.
  - eexists [], _, _, []. repeat split.
Qed.

Lemma validate_first it nvb ck k w :
  w_iteration w = Some k ->
  wp (validate it nvb ck) w (fun r _ t => first_validation_post (w_rank w) it k r t).
Proof.
  intros Hk. pose proof silent_step_rel as HS. pose proof setup_kept_step_rel as HK.
  unfold validate. apply wp_bind. unfold validate_local.
  do 5 wp_step. rewrite Hk. cbv beta iota. do 3 wp_step.
  match goal with
  | |- wp ?m ?w0 _ =>
      assert (Hs : always silent m) by (always_auto; silent_leaf);
      assert (Hf : always setup_kept m) by (always_auto; setup_leaf);
      pose proof (wp_and _ _ _ _ (Hs w0) (Hf w0)) as Hboth; clear Hs Hf
  end.
  match goal with
  | |- wp ?m ?w0 _ =>
      assert (Hit : wp m w0 (fun r _ _ => forall k' l a, r = Ok (k', l, a) -> k' = k))
  end.
  { apply wp_bind. eapply wp_mono; [apply wp_true|]. cbv beta.
    intros [[sl sa]|e] w1 t1 _; [|discriminate].
    wp_auto; intros; congruence. }
  eapply wp_mono; [exact (wp_and _ _ _ _ Hboth Hit)|]. cbv beta. clear Hboth Hit.
  intros r w1 t1 [[[_ Hu1] (_ & Hr1 & _)] Hit]. wsimpl.
  destruct r as [[[iteration ll] la]|e].
  2:{ exists t1. split; [reflexivity|]. intros _. right. split; [reflexivity|].
      apply unrecorded_no_losses. exact Hu1. }
  specialize (Hit _ _ _ eq_refl). subst iteration.
  do 3 wp_step.
  match goal with
  | |- wp ?m ?w0 _ =>
      assert (Hs : always silent m) by (always_auto; silent_leaf);
      assert (Hf : always setup_kept m) by (always_auto; setup_leaf);
      pose proof (wp_and _ _ _ _ (Hs w0) (Hf w0)) as Hboth; clear Hs Hf
  end.
  eapply wp_mono; [exact Hboth|]. cbv beta. clear Hboth.
  intros r w2 t2 [[_ Hu2] (_ & Hr2 & _)].
  pose proof (unrecorded_no_losses _ Hu1) as Hl1.
  pose proof (unrecorded_no_losses _ Hu2) as Hl2.
  destruct r as [gm|e].
  2:{ exists (t1 ++ t2). split; [reflexivity|]. intros _. right. split; [reflexivity|].
      rewrite logged_losses_app, Hl1, Hl2. reflexivity. }
  do 2 wp_step. rewrite Hr2, Hr1.
  destruct (Z.eqb_spec (w_rank w) 0) as [Hrank|Hrank].
  2:{ wp_step. exists (t1 ++ t2 ++ []). split; [reflexivity|]. contradiction. }
  eapply wp_mono; [apply validate_record_logs|]. cbv beta.
  intros r w3 t3 H3. exists (t1 ++ t2 ++ [] ++ t3). split; [reflexivity|].
  intros _. cbn [app]. destruct H3 as [H3|[H3 Hl3]].
  - left. apply has_first_record_pre; [exact Hl1|].
    apply has_first_record_pre; [exact Hl2|exact H3].
  - right. split; [exact H3|]. rewrite !logged_losses_app, Hl1, Hl2, Hl3. reflexivity.
Qed.

Lemma train_first_validation cfg w vld b rest :
  val_interval cfg <> 0 ->
  0 < epochs cfg ->
  w_loaders w !! "validation" = Some vld ->
  w_loaders w !! "train" = Some (b :: rest) ->
  wp (train cfg) w (fun r _ t =>
    exists t', t = EvIter (length (w_heap w)) :: t' /\
      first_validation_post (w_rank w) (length (w_heap w)) 0 r t').
Proof.
  intros Hvi Hep Hval Htrain.
  unfold train. do 12 wp_step. rewrite Hval. cbv beta iota. do 2 wp_step.
  destruct (Z.to_nat (epochs cfg)) as [|n] eqn:Hn; [lia|].
  cbn [train_epochs].
  match goal with
  | |- wp ?m ?w0 _ =>
      assert (H : wp m w0 (fun r _ t =>
                    first_validation_post (w_rank w) (length (w_heap w)) 0 r t))
  end.
  2:{ eapply wp_mono; [exact H|]. cbv beta. intros r w' t Ht. eauto. }
  apply first_validation_post_bind. unfold train_epoch.
  do 4 wp_step. rewrite Htrain. cbv beta iota. do 2 wp_step.
  apply first_validation_post_bind. cbn [train_batches].
  apply first_validation_post_bind. unfold train_batch.
  do 7 wp_step. apply wp_py_mod; intros H0; [contradiction|].
  rewrite Z.mod_0_l by assumption. cbn [Z.eqb]. cbv beta iota.
  apply first_validation_post_bind.
  eapply wp_mono; [apply (validate_first _ _ _ 0); reflexivity|]. cbv beta.
  intros r w' t H. exact H.
Qed.

Lemma saved_after_existsb t : forall saved,
  logged_losses t = [] ->
  saved_after saved t = saved || existsb is_best_save t.
Proof.
  induction t as [|ev t IH]; intros saved Hl; cbn [saved_after existsb].
  - rewrite orb_false_r. reflexivity.
  - destruct ev; cbn [logged_losses flat_map app is_best_save] in *;
      try discriminate; rewrite IH by assumption; cbn [orb]; try reflexivity.
    rewrite orb_assoc. reflexivity.
Qed.

(** C9 (as the code has it).  In a run of [train] with a validation loader,
    a first training batch, at least one epoch and a [val_interval] other
    than zero, [validate] is entered, at iteration 0, before anything is done
    with the first training batch.  On rank 0 the first validation record of
    the run, if there is one, is that of this validation (there is one unless
    the run ended on an exception before any record), and the "BEST"
    checkpoint was saved before it exactly when its global loss is strictly
    below 1.0e10. *)
Theorem first_validation_saves_best_iff_below cfg (w : world) vld b rest :
  val_interval cfg <> 0 ->
  0 < epochs cfg ->
  w_loaders w !! "validation" = Some vld ->
  w_loaders w !! "train" = Some (b :: rest) ->
  let t := trace_of (train cfg) w in
  let val_iter := length (w_heap w) in
  (exists t', t = EvIter val_iter :: EvValidate val_iter 0 :: t') /\
  (w_rank w = 0 ->
   ((exists t1 r best t2,
       t = t1 ++ EvValLog r best :: t2 /\ logged_losses t1 = [] /\ vr_iteration r = 0) \/
    (is_ok (result_of (train cfg) w) = false /\ logged_losses t = [])) /\
   (forall t1 r best t2,
      t = t1 ++ EvValLog r best :: t2 -> logged_losses t1 = [] ->
      vr_iteration r = 0 /\
      (existsb is_best_save t1 = true <-> (vr_loss r < init_best_validation_loss)%Q))).
Proof.
  intros Hvi Hep Hval Htrain t val_iter.
  pose proof (proj1 (wp_run _ _ _)
                (train_first_validation cfg w vld b rest Hvi Hep Hval Htrain))
    as (t0 & Ht & t' & -> & Hfirst).
  fold t in Ht. split; [eauto|]. intros Hrank. specialize (Hfirst Hrank).
  assert (Hrec : has_first_record 0 t \/
                 (is_ok (result_of (train cfg) w) = false /\ logged_losses t = [])).
  { rewrite Ht. destruct Hfirst as [H|[H1 H2]]; [left|right; auto].
    apply (has_first_record_pre 0 [EvIter val_iter; EvValidate val_iter 0]); auto. }
  split.
  - destruct Hrec as [(tv & r & best & more & E & Hl & Hk)|H]; [left|right; exact H].
    exists tv, r, best, more. auto.
  - intros t1 r best t2 Heq Hl1.
    assert (Hk : vr_iteration r = 0).
    { destruct Hrec as [H|[_ H]].
      - apply (first_record_unique 0 t t1 r best t2 H Heq Hl1).
      - rewrite Heq, logged_losses_app in H.
        rewrite Hl1 in H. discriminate H. }
    split; [exact Hk|].
    destruct (best_validation_loss_facts cfg w t1 r best t2 Heq) as [Hs Hp].
    rewrite Hl1 in Hp, Hs. cbn [running_min fold_left] in Hp, Hs.
    rewrite (saved_after_existsb t1 false Hl1) in Hs. cbn [orb] in Hs.
    symmetry. exact Hs.
Qed.

(** ** The names of the checkpoints *)

Lemma save_allowed_same ck si n w w1 ev :
  w_dirpath w1 = w_dirpath w -> w_model_name w1 = w_model_name w ->
  save_allowed ck si n w1 ev -> save_allowed ck si n w ev.
Proof. intros Hd Hm. destruct ev; cbn [save_allowed]; auto. rewrite Hd, Hm. auto. Qed.

Lemma saves_named_step_rel ck si n : step_rel (saves_named ck si n).
Proof.
  split.
  - intros w. split; [split; reflexivity|constructor].
  - intros ok w w1 w2 t1 t2 [[Hd1 Hm1] F1] [[Hd2 Hm2] F2].
    split; [split; congruence|]. apply Forall_app. split; [exact F1|].
    eapply Forall_impl; [exact F2|]. intros ev. apply save_allowed_same; assumption.
  - intros w e. split; [split; reflexivity|]. repeat constructor.
Qed.

Ltac saves_leaf :=
  first [ solve [split; [split; reflexivity|repeat constructor]]
        | let F1 := fresh "F" in let F2 := fresh "G" in
          let Hd1 := fresh "Hd" in let Hm1 := fresh "Hm" in
          let Hd2 := fresh "Hd" in let Hm2 := fresh "Hm" in
          intros [[Hd1 Hm1] F1] [[Hd2 Hm2] F2];
          split; [split; congruence|];
          apply Forall_app; split; [exact F1|]; constructor; [exact I|];
          eapply Forall_impl; [exact F2|]; intros ?;
          apply save_allowed_same; assumption ].

Lemma saves_named_py_iter ck si n ld : always (saves_named ck si n) (py_iter ld).
Proof. intros w. saves_leaf. Qed.

Lemma saves_named_py_next ck si n it : always (saves_named ck si n) (py_next it).
Proof.
  intros w. unfold wp, py_next.
  destruct (w_heap w !! it) as [[|b rest]|]; saves_leaf.
Qed.

#[local] Hint Resolve saves_named_py_iter saves_named_py_next : always.

Lemma saves_named_forward ck si n tr : always (saves_named ck si n) (forward tr).
Proof.
  pose proof (saves_named_step_rel ck si n). unfold forward. always_auto; saves_leaf.
Qed.

Lemma saves_named_backward ck si n : always (saves_named ck si n) backward.
Proof.
  pose proof (saves_named_step_rel ck si n). unfold backward. always_auto; saves_leaf.
Qed.

Lemma saves_named_get_synchronized_metrics ck si n d :
  always (saves_named ck si n) (get_synchronized_metrics d).
Proof.
  pose proof (saves_named_step_rel ck si n).
  induction d as [|[k v] d IH]; cbn [get_synchronized_metrics]; unfold all_gather;
    always_auto; saves_leaf.
Qed.

#[local] Hint Resolve saves_named_forward saves_named_backward
  saves_named_get_synchronized_metrics : always.

Lemma saves_named_validate_loop ck si n m : forall it vl va,
  always (saves_named ck si n) (validate_loop m it vl va).
Proof.
  pose proof (saves_named_step_rel ck si n).
  induction m as [|m IH]; intros it vl va; cbn [validate_loop];
    unfold validate_batch, fetch_val_batch; always_auto; saves_leaf.
Qed.

#[local] Hint Resolve saves_named_validate_loop : always.

Lemma saves_named_save_state ck si n name :
  (name = "BEST" \/ (name = "" /\ ck = true) \/
   exists epoch s, si = Some s /\ 0 <= epoch < n /\ (epoch + 1) mod s = 0 /\
                   name = "_epoch_" +:+ str_of_int (epoch + 1)) ->
  always (saves_named ck si n) (save_state name).
Proof.
  intros Hname w. apply wp_save_state.
  destruct (w_iteration w), (w_optimizer w); try saves_leaf.
  split; [split; reflexivity|]. constructor; [|constructor].
  split; [reflexivity|exact Hname].
Qed.

Lemma saves_named_validate ck si n it nvb :
  always (saves_named ck si n) (validate it nvb ck).
Proof.
  pose proof (saves_named_step_rel ck si n).
  unfold validate, validate_local, validate_record. always_auto; try saves_leaf.
  all: apply saves_named_save_state; auto.
Qed.

#[local] Hint Resolve saves_named_validate : always.

Lemma saves_named_train_batch cfg n it step b :
  always (saves_named (checkpointing cfg) (save_interval cfg) n)
    (train_batch cfg it step b).
Proof.
  pose proof (saves_named_step_rel (checkpointing cfg) (save_interval cfg) n).
  unfold train_batch. always_auto; saves_leaf.
Qed.

#[local] Hint Resolve saves_named_train_batch : always.

Lemma saves_named_train_batches cfg n it l : forall step,
  always (saves_named (checkpointing cfg) (save_interval cfg) n)
    (train_batches cfg it step l).
Proof.
  pose proof (saves_named_step_rel (checkpointing cfg) (save_interval cfg) n).
  induction l as [|b l IH]; intros step; cbn [train_batches]; always_auto.
Qed.

#[local] Hint Resolve saves_named_train_batches : always.

Lemma saves_named_end_of_epoch cfg n e :
  0 <= e < n ->
  always (saves_named (checkpointing cfg) (save_interval cfg) n) (end_of_epoch cfg e).
Proof.
  intros He.
  pose proof (saves_named_step_rel (checkpointing cfg) (save_interval cfg) n) as HP.
  unfold end_of_epoch.
  apply always_bind; [exact HP|apply always_gets; exact HP|intros sch].
  apply always_bind; [exact HP|always_auto; saves_leaf|intros ?; cbv beta].
  destruct (save_interval cfg) as [si|] eqn:Hsi; [|always_auto].
  intros w. apply wp_bind. apply wp_py_mod; intros Hsi0.
  - exact (sr_raise _ HP w ZeroDivisionError).
  - destruct (Z.eqb_spec ((e + 1) mod si) 0) as [Hmod|Hmod].
    + assert (Hs : always (saves_named (checkpointing cfg) (Some si) n)
                     (bind (save_state ("_epoch_" +:+ str_of_int (e + 1)))
                        (fun _ => ret tt))).
      { always_auto. apply saves_named_save_state. right. right.
        exists e, si. auto. }
      eapply wp_mono; [apply Hs|]. cbv beta. auto.
    + wp_step. exact (sr_refl _ HP w).
Qed.

#[local] Hint Resolve saves_named_end_of_epoch : always.

Lemma saves_named_train_epoch cfg n it e :
  0 <= e < n ->
  always (saves_named (checkpointing cfg) (save_interval cfg) n) (train_epoch cfg it e).
Proof.
  intros He.
  pose proof (saves_named_step_rel (checkpointing cfg) (save_interval cfg) n).
  unfold train_epoch. always_auto; saves_leaf.
Qed.

Lemma saves_named_train_epochs cfg n it m : forall e,
  0 <= e -> e + Z.of_nat m <= n ->
  always (saves_named (checkpointing cfg) (save_interval cfg) n)
    (train_epochs cfg it e m).
Proof.
  pose proof (saves_named_step_rel (checkpointing cfg) (save_interval cfg) n) as HP.
  induction m as [|m IH]; intros e He Hm; cbn [train_epochs]; [always_auto|].
  apply always_bind; [exact HP| |intros ?; cbv beta].
  - apply saves_named_train_epoch. lia.
  - apply IH; lia.
Qed.

Lemma saves_named_train cfg :
  always (saves_named (checkpointing cfg) (save_interval cfg) (epochs cfg)) (train cfg).
Proof.
  pose proof (saves_named_step_rel (checkpointing cfg) (save_interval cfg) (epochs cfg)).
  unfold train. always_auto; try saves_leaf.
  destruct (Z.to_nat (epochs cfg)) as [|m] eqn:Hm; [cbn [train_epochs]; always_auto|].
  rewrite <- Hm. apply saves_named_train_epochs; lia.
Qed.


(** ** The validation iterator of [train] *)

Lemma starts_recovery_app l0 t1 t2 :
  starts_recovery l0 t1 -> starts_recovery l0 (t1 ++ t2).
Proof. intros (l' & t' & Hl & ->). exists l', (t' ++ t2). auto. Qed.

Lemma recovers_app l0 nvb t1 : forall ex t2,
  recovers l0 nvb ex t1 ->
  recovers l0 nvb (exhausted_after l0 ex t1) t2 ->
  recovers l0 nvb ex (t1 ++ t2).
Proof.
  induction t1 as [|ev t1 IH]; intros ex t2 H1 H2; [exact H2|].
  destruct ev; cbn [app recovers exhausted_after] in *; auto.
  - destruct H1 as [Hl H1]. auto.
  - destruct H1 as (Hl & Hs & H1). split; [exact Hl|]. split; [|auto].
    intros Hex Hn. apply starts_recovery_app. auto.
Qed.

Lemma recovers_split l0 nvb t1 : forall ex t2,
  recovers l0 nvb ex (t1 ++ t2) ->
  recovers l0 nvb (exhausted_after l0 ex t1) t2.
Proof.
  induction t1 as [|ev t1 IH]; intros ex t2 H; [exact H|].
  destruct ev; cbn [app recovers exhausted_after] in *; auto.
  - destruct H as [_ H]. auto.
  - destruct H as (_ & _ & H). auto.
Qed.

Lemma exhausted_after_app l0 t1 : forall ex t2,
  exhausted_after l0 ex (t1 ++ t2) = exhausted_after l0 (exhausted_after l0 ex t1) t2.
Proof.
  induction t1 as [|ev t1 IH]; intros ex t2; [reflexivity|].
  destruct ev; cbn [app exhausted_after]; auto.
Qed.

Lemma exhausted_after_true l0 t : exhausted_after l0 true t = true.
Proof. induction t as [|ev t IH]; [reflexivity|]. destruct ev; cbn; auto. Qed.

Lemma exhausted_after_in l0 t : forall ex n,
  In (EvNext l0 n) t -> (n <= 1)%nat -> exhausted_after l0 ex t = true.
Proof.
  induction t as [|ev t IH]; intros ex n Hin Hn; [destruct Hin|].
  destruct Hin as [Hin|Hin].
  - subst ev. cbn [exhausted_after]. rewrite Nat.eqb_refl.
    apply Nat.leb_le in Hn. rewrite Hn, orb_true_r. apply exhausted_after_true.
  - destruct ev; cbn [exhausted_after]; eauto.
Qed.

Lemma recovers_validate_in l0 nvb t : forall ex l k,
  recovers l0 nvb ex t -> In (EvValidate l k) t -> l = l0.
Proof.
  induction t as [|ev t IH]; intros ex l k H Hin; [destruct Hin|].
  destruct Hin as [Hin|Hin].
  - subst ev. apply H.
  - destruct ev; cbn [recovers] in H; try (eapply IH; [exact H|exact Hin]).
    + destruct H as [_ H]. eauto.
    + destruct H as (_ & _ & H). eauto.
Qed.

Lemma recovers_iter_in l0 nvb t : forall ex l,
  recovers l0 nvb ex t -> In (EvIter l) t -> l <> l0.
Proof.
  induction t as [|ev t IH]; intros ex l H Hin; [destruct Hin|].
  destruct Hin as [Hin|Hin].
  - subst ev. apply H.
  - destruct ev; cbn [recovers] in H; try (eapply IH; [exact H|exact Hin]).
    + destruct H as [_ H]. eauto.
    + destruct H as (_ & _ & H). eauto.
Qed.

Lemma iter_kept_step_rel l0 nvb : step_rel (iter_kept l0 nvb).
Proof.
  split.
  - intros w ex Hinv. split; [exact I|exact Hinv].
  - intros ok w w1 w2 t1 t2 H1 H2 ex Hinv.
    destruct (H1 ex Hinv) as [R1 I1]. destruct (H2 _ I1) as [R2 I2].
    split; [apply recovers_app; assumption|].
    rewrite exhausted_after_app. exact I2.
  - intros w e ex Hinv. split; [exact I|exact Hinv].
Qed.

Ltac iter_leaf :=
  first [ solve [intros ex Hinv; split; [exact I|exact Hinv]]
        | let H1 := fresh "H" in let H2 := fresh "H" in
          let R1 := fresh "R" in let I1 := fresh "I" in
          let R2 := fresh "R" in let I2 := fresh "I" in
          intros H1 H2 ex Hinv;
          destruct (H1 ex Hinv) as [R1 I1]; destruct (H2 _ I1) as [R2 I2];
          split; [apply recovers_app; [exact R1|exact R2]|];
          rewrite exhausted_after_app; exact I2 ].

Lemma iter_kept_py_iter l0 nvb ld : always (iter_kept l0 nvb) (py_iter ld).
Proof.
  intros w ex (Hlt & Hex & Hld). cbn [recovers exhausted_after].
  split; [split; [lia|exact I]|]. unfold iter_inv. wsimpl.
  rewrite length_app. split; [lia|]. split; [|exact Hld].
  intros E. rewrite lookup_app_l by lia. auto.
Qed.

Lemma iter_kept_py_next l0 nvb it : always (iter_kept l0 nvb) (py_next it).
Proof.
  intros w. unfold wp, py_next.
  destruct (w_heap w !! it) as [[|b rest]|] eqn:Hit;
    intros ex (Hlt & Hex & Hld); cbn [recovers exhausted_after is_ok].
  - split; [exact I|]. split; [exact Hlt|]. split; [|exact Hld].
    intros E. destruct (Nat.eqb_spec it l0) as [->|Hne]; [exact Hit|].
    cbn [andb] in E. rewrite orb_false_r in E. auto.
  - split; [exact I|]. unfold iter_inv. wsimpl. rewrite length_insert.
    split; [exact Hlt|]. split; [|exact Hld].
    intros E. destruct (Nat.eqb_spec it l0) as [->|Hne].
    + destruct ex; cbn [orb andb] in E.
      * rewrite (Hex eq_refl) in Hit. discriminate.
      * destruct rest; [|discriminate]. apply list_lookup_insert_eq. exact Hlt.
    + cbn [andb] in E. rewrite orb_false_r in E.
      rewrite list_lookup_insert_ne by exact Hne. auto.
  - split; [exact I|]. split; [exact Hlt|]. split; [|exact Hld].
    intros E. destruct (Nat.eqb_spec it l0) as [->|Hne].
    + apply lookup_ge_None in Hit. lia.
    + cbn [andb] in E. rewrite orb_false_r in E. auto.
Qed.

#[local] Hint Resolve iter_kept_py_iter iter_kept_py_next : always.

Lemma iter_kept_forward l0 nvb tr : always (iter_kept l0 nvb) (forward tr).
Proof.
  pose proof (iter_kept_step_rel l0 nvb). unfold forward. always_auto; iter_leaf.
Qed.

Lemma iter_kept_backward l0 nvb : always (iter_kept l0 nvb) backward.
Proof.
  pose proof (iter_kept_step_rel l0 nvb). unfold backward. always_auto; iter_leaf.
Qed.

Lemma iter_kept_save_state l0 nvb name : always (iter_kept l0 nvb) (save_state name).
Proof.
  pose proof (iter_kept_step_rel l0 nvb). unfold save_state. always_auto; iter_leaf.
Qed.

Lemma iter_kept_get_synchronized_metrics l0 nvb d :
  always (iter_kept l0 nvb) (get_synchronized_metrics d).
Proof.
  pose proof (iter_kept_step_rel l0 nvb).
  induction d as [|[k v] d IH]; cbn [get_synchronized_metrics]; unfold all_gather;
    always_auto; iter_leaf.
Qed.

#[local] Hint Resolve iter_kept_forward iter_kept_backward iter_kept_save_state
  iter_kept_get_synchronized_metrics : always.

Lemma iter_kept_validate_loop l0 nvb n : forall it vl va,
  always (iter_kept l0 nvb) (validate_loop n it vl va).
Proof.
  pose proof (iter_kept_step_rel l0 nvb).
  induction n as [|n IH]; intros it vl va; cbn [validate_loop];
    unfold validate_batch, fetch_val_batch; always_auto; iter_leaf.
Qed.

#[local] Hint Resolve iter_kept_validate_loop : always.

Lemma starts_recovery_bind {A B} (m : M A) (f : A -> M B) l0 w :
  wp m w (fun _ _ t => starts_recovery l0 t) ->
  wp (bind m f) w (fun _ _ t => starts_recovery l0 t).
Proof.
  intros Hm. apply wp_bind. eapply wp_mono; [exact Hm|]. cbv beta.
  intros [a|e] w1 t1 H; [|exact H].
  unfold wp. destruct (f a w1) as [[r2 w2] t2]. apply starts_recovery_app. exact H.
Qed.

Lemma fetch_val_batch_recovers l0 w :
  iter_inv l0 true w ->
  wp (fetch_val_batch l0) w (fun _ _ t => starts_recovery l0 t).
Proof.
  intros (Hlt & Hex & [ld Hld]). unfold wp.
  rewrite (fetch_val_batch_exhausted l0 w (Hex eq_refl)), Hld.
  destruct ld as [|b rest]; eexists _, _; (split; [|reflexivity]); lia.
Qed.

Lemma validate_loop_recovers l0 n vl va w :
  iter_inv l0 true w ->
  wp (validate_loop (S n) l0 vl va) w (fun _ _ t => starts_recovery l0 t).
Proof.
  intros Hinv. cbn [validate_loop]. apply starts_recovery_bind.
  unfold validate_batch. apply starts_recovery_bind.
  apply fetch_val_batch_recovers. exact Hinv.
Qed.

Lemma iter_kept_validate_local l0 nvb : always (iter_kept l0 nvb) (validate_local l0 nvb).
Proof.
  pose proof (iter_kept_step_rel l0 nvb) as HP.
  intros w. unfold validate_local. do 6 wp_step.
  destruct (w_iteration w) as [k|]; [|iter_leaf].
  do 2 wp_step.
  match goal with
  | |- wp ?m ?w0 _ =>
      assert (Hrest : always (iter_kept l0 nvb) m) by (always_auto; iter_leaf);
      assert (Hrec : iter_inv l0 true w0 -> 0 < nvb ->
                     wp m w0 (fun _ _ t => starts_recovery l0 t))
  end.
  { intros Hinv Hn. destruct (Z.to_nat nvb) as [|n] eqn:En; [lia|].
    apply starts_recovery_bind. apply validate_loop_recovers. exact Hinv. }
  specialize (Hrest (set_training false w)). unfold wp in *.
  destruct (bind _ _ (set_training false w)) as [[r w'] t].
  intros ex Hinv. destruct (Hrest ex Hinv) as [R I']. cbn [recovers exhausted_after].
  split; [|exact I']. split; [reflexivity|]. split; [|exact R].
  intros -> Hn. apply Hrec; assumption.
Qed.

#[local] Hint Resolve iter_kept_validate_local : always.

Lemma iter_kept_validate l0 nvb ck : always (iter_kept l0 nvb) (validate l0 nvb ck).
Proof.
  pose proof (iter_kept_step_rel l0 nvb).
  unfold validate, validate_record. always_auto; iter_leaf.
Qed.

#[local] Hint Resolve iter_kept_validate : always.

Lemma iter_kept_train_batch cfg l0 step b :
  always (iter_kept l0 (num_val_batches cfg)) (train_batch cfg l0 step b).
Proof.
  pose proof (iter_kept_step_rel l0 (num_val_batches cfg)).
  unfold train_batch. always_auto; iter_leaf.
Qed.

#[local] Hint Resolve iter_kept_train_batch : always.

Lemma iter_kept_train_batches cfg l0 l : forall step,
  always (iter_kept l0 (num_val_batches cfg)) (train_batches cfg l0 step l).
Proof.
  pose proof (iter_kept_step_rel l0 (num_val_batches cfg)).
  induction l as [|b l IH]; intros step; cbn [train_batches]; always_auto.
Qed.

Lemma iter_kept_end_of_epoch cfg l0 e :
  always (iter_kept l0 (num_val_batches cfg)) (end_of_epoch cfg e).
Proof.
  pose proof (iter_kept_step_rel l0 (num_val_batches cfg)).
  unfold end_of_epoch. always_auto; iter_leaf.
Qed.

#[local] Hint Resolve iter_kept_train_batches iter_kept_end_of_epoch : always.

Lemma iter_kept_train_epoch cfg l0 e :
  always (iter_kept l0 (num_val_batches cfg)) (train_epoch cfg l0 e).
Proof.
  pose proof (iter_kept_step_rel l0 (num_val_batches cfg)).
  unfold train_epoch. always_auto; iter_leaf.
Qed.

#[local] Hint Resolve iter_kept_train_epoch : always.

Lemma iter_kept_train_epochs cfg l0 n : forall e,
  always (iter_kept l0 (num_val_batches cfg)) (train_epochs cfg l0 e n).
Proof.
  pose proof (iter_kept_step_rel l0 (num_val_batches cfg)).
  induction n as [|n IH]; intros e; cbn [train_epochs]; always_auto.
Qed.

Lemma train_recovers cfg w vld :
  w_loaders w !! "validation" = Some vld ->
  wp (train cfg) w (fun _ _ t =>
    exists t', t = EvIter (length (w_heap w)) :: t' /\
      recovers (length (w_heap w)) (num_val_batches cfg) false t').
Proof.
  intros Hld. unfold train. do 12 wp_step. rewrite Hld. cbv beta iota. do 2 wp_step.
  eapply wp_mono; [apply iter_kept_train_epochs|]. cbv beta.
  intros r w' t H. exists t. split; [reflexivity|].
  apply (H false). unfold iter_inv. wsimpl. rewrite length_app. cbn [length].
  split; [lia|]. split; [discriminate|]. rewrite Hld. eauto.
Qed.

(** C10.  [train] creates the validation iterator once, before the epoch
    loop, and every [validate] of the run is given that same iterator
    object; the iterators created later, in the recovery branch of
    [validate], are other objects, bound in [validate] only.  So once a fetch
    has taken the last batch of [train]'s iterator, or has found it empty,
    every later [validate] of the run (fetching at least one batch) starts
    with a [next] on that iterator that raises StopIteration, which is
    caught, and a new iterator is created. *)
Theorem validation_iterator_shared cfg (w : world) vld :
  w_loaders w !! "validation" = Some vld ->
  let val_iter := length (w_heap w) in
  exists t',
    trace_of (train cfg) w = EvIter val_iter :: t' /\
    (forall l, In (EvIter l) t' -> l <> val_iter) /\
    (forall l k, In (EvValidate l k) t' -> l = val_iter) /\
    (forall t1 l k t2 n,
       t' = t1 ++ EvValidate l k :: t2 ->
       In (EvNext val_iter n) t1 -> (n <= 1)%nat ->
       0 < num_val_batches cfg ->
       starts_recovery val_iter t2).
Proof.
  intros Hld val_iter.
  pose proof (proj1 (wp_run _ _ _) (train_recovers cfg w vld Hld)) as (t' & Ht & Hr).
  exists t'. split; [exact Ht|].
  split; [intros l; apply (recovers_iter_in _ _ _ _ _ Hr)|].
  split; [intros l k; apply (recovers_validate_in _ _ _ _ _ _ Hr)|].
  intros t1 l k t2 n Heq Hin Hn Hnvb. rewrite Heq in Hr.
  apply recovers_split in Hr. cbn [recovers] in Hr. destruct Hr as (_ & Hs & _).
  apply Hs; [|exact Hnvb]. apply (exhausted_after_in _ _ _ n); assumption.
Qed.

(** ** More on checkpoints *)

Lemma append_length (x y : string) :
  String.length (x +:+ y) = (String.length x + String.length y)%nat.
Proof.
  induction x as [|c x IH]; [reflexivity|].
  change (S (String.length (x +:+ y)) = S (String.length x + String.length y)).
  rewrite IH. reflexivity.
Qed.

Lemma append_inj_r s : forall a b : string, a +:+ s = b +:+ s -> a = b.
Proof.
  induction a as [|c a IH]; intros [|c' b] H.
  - reflexivity.
  - apply (f_equal String.length) in H. rewrite !append_length in H.
    simpl String.length in H. lia.
  - apply (f_equal String.length) in H. rewrite !append_length in H.
    simpl String.length in H. lia.
  - change (String c (a +:+ s) = String c' (b +:+ s)) in H.
    injection H as -> H. f_equal. apply IH. exact H.
Qed.

Lemma str_of_int_inj a b : str_of_int a = str_of_int b -> a = b.
Proof.
  unfold str_of_int. intros H. apply DecimalZ.to_int_inj.
  assert (Hn : forall z,
    NilZero.int_of_string (NilZero.string_of_int (Z.to_int z)) = Some (Z.to_int z)).
  { intros z. apply NilZero.isi.
    - destruct z; cbn; try discriminate.
      intros [= E]. exact (DecimalPos.Unsigned.to_uint_nonnil _ E).
    - destruct z; cbn; try discriminate.
      intros [= E]. exact (DecimalPos.Unsigned.to_uint_nonnil _ E). }
  pose proof (Hn a) as Ha. rewrite H, Hn in Ha. congruence.
Qed.

Lemma checkpoint_filename_inj (w : world) n1 n2 :
  checkpoint_filename w n1 = checkpoint_filename w n2 -> n1 = n2.
Proof.
  unfold checkpoint_filename. intros H.
  apply String.app_inj in H. apply String.app_inj in H.
  apply append_inj_r in H. exact H.
Qed.

(** X1.  [restore_best_state] reads the very file [save_state("BEST")]
    writes: after a "BEST" save, restoring the best state on an engine with
    the same dump path and model class that still sees the file succeeds
    without an event, and replaces the weights and the iteration counter by
    the saved ones, and the optimizer state as well when the engine has an
    optimizer; every other attribute, [best_validation_loss] and the epoch
    among them, stays as it is. *)
Theorem restore_best_state_after_best_save (w w1 w2 : world) fname t1 :
  save_state "BEST" w = (Ok fname, w1, t1) ->
  w_dirpath w2 = w_dirpath w ->
  w_model_name w2 = w_model_name w ->
  w_files w2 !! fname = w_files w1 !! fname ->
  exists it opt,
    w_iteration w = Some it /\ w_optimizer w = Some opt /\
    restore_best_state w2 =
    (Ok tt,
     set_iteration (Some it)
       (match w_optimizer w2 with
        | Some _ => set_optimizer (Some opt) (set_weights (w_weights w) w2)
        | None => set_weights (w_weights w) w2
        end),
     []).
Proof.
  rewrite save_state_run.
  destruct (w_iteration w) as [it|] eqn:Hit; [|discriminate].
  destruct (w_optimizer w) as [opt|] eqn:Hopt; [|discriminate].
  intros [= <- <- <-] Hd Hm Hfile.
  cbn [w_files set_files] in Hfile. rewrite lookup_insert_eq in Hfile.
  exists it, opt. split; [reflexivity|]. split; [reflexivity|].
  unfold restore_best_state, bind, gets.
  assert (Hname : checkpoint_filename w2 "BEST" = checkpoint_filename w "BEST").
  { unfold checkpoint_filename. rewrite Hd, Hm. reflexivity. }
  rewrite Hname, (restore_checkpoint_dict _ _ _ _ _ Hfile). reflexivity.
Qed.

(** X2.  [restore_state] is not atomic.  It fails without touching the
    engine when the file is missing or the checkpoint has no 'state_dict';
    but the weights are loaded first, so a checkpoint that lacks 'optimizer'
    (on an engine with an optimizer) or 'global_step' raises KeyError with
    the model weights already replaced by those of the file; and when only
    'global_step' is missing, an engine with an optimizer has its optimizer
    state replaced as well. *)
Theorem restore_state_is_not_atomic (cfg : restore_config) (w : world) :
  (w_files w !! weight_file cfg = None ->
   restore_state cfg w =
   (Err (FileNotFoundError (weight_file cfg)), w,
    [EvRaise (FileNotFoundError (weight_file cfg))])) /\
  (forall d,
     w_files w !! weight_file cfg = Some (CkptFile d) ->
     d !! "state_dict" = None ->
     restore_state cfg w = (Err (KeyError "state_dict"), w, [EvRaise (KeyError "state_dict")])) /\
  (forall d ws,
     w_files w !! weight_file cfg = Some (CkptFile d) ->
     d !! "state_dict" = Some (CWeights ws) ->
     w_optimizer w <> None ->
     d !! "optimizer" = None ->
     restore_state cfg w =
     (Err (KeyError "optimizer"), set_weights ws w, [EvRaise (KeyError "optimizer")])) /\
  (forall d ws,
     w_files w !! weight_file cfg = Some (CkptFile d) ->
     d !! "state_dict" = Some (CWeights ws) ->
     w_optimizer w = None ->
     d !! "global_step" = None ->
     restore_state cfg w =
     (Err (KeyError "global_step"), set_weights ws w, [EvRaise (KeyError "global_step")])) /\
  (forall d ws o,
     w_files w !! weight_file cfg = Some (CkptFile d) ->
     d !! "state_dict" = Some (CWeights ws) ->
     w_optimizer w <> None ->
     d !! "optimizer" = Some (COpt o) ->
     d !! "global_step" = None ->
     restore_state cfg w =
     (Err (KeyError "global_step"), set_optimizer (Some o) (set_weights ws w),
      [EvRaise (KeyError "global_step")])).
Proof.
  unfold restore_state, restore_state_from_file, bind, gets, ckpt_get.
  repeat split.
  - intros ->. reflexivity.
  - intros d -> ->. reflexivity.
  - intros d ws -> -> Ho Hd. cbn.
    destruct (w_optimizer w) as [o|]; [|congruence]. rewrite Hd. reflexivity.
  - intros d ws -> -> Ho Hd. cbn. rewrite Ho, Hd. reflexivity.
  - intros d ws o -> -> Ho Hd Hg. cbn.
    destruct (w_optimizer w) as [o0|]; [|congruence]. rewrite Hd. cbn.
    rewrite Hg. reflexivity.
Qed.

(** X3.  Checkpoints saved under different suffixes are different files: the
    file name determines the suffix, the "_epoch_<n>" suffixes of different
    epoch numbers differ from one another and from "BEST" and the empty
    suffix, and a save under one suffix leaves the file of every other suffix
    as it was. *)
Theorem checkpoint_files_distinct (w : world) :
  (forall n1 n2, checkpoint_filename w n1 = checkpoint_filename w n2 -> n1 = n2) /\
  (forall e1 e2,
     checkpoint_filename w ("_epoch_" +:+ str_of_int e1) =
     checkpoint_filename w ("_epoch_" +:+ str_of_int e2) -> e1 = e2) /\
  (forall e,
     checkpoint_filename w ("_epoch_" +:+ str_of_int e) <> checkpoint_filename w "BEST" /\
     checkpoint_filename w ("_epoch_" +:+ str_of_int e) <> checkpoint_filename w "" /\
     checkpoint_filename w "BEST" <> checkpoint_filename w "") /\
  (forall name other fname w1 t,
     save_state name w = (Ok fname, w1, t) ->
     other <> name ->
     w_files w1 !! checkpoint_filename w other = w_files w !! checkpoint_filename w other).
Proof.
  split; [exact (checkpoint_filename_inj w)|].
  split; [|split].
  - intros e1 e2 H. apply checkpoint_filename_inj in H.
    apply String.app_inj in H. apply str_of_int_inj. exact H.
  - intros e. repeat split; intros H; apply checkpoint_filename_inj in H; discriminate H.
  - intros name other fname w1 t. rewrite save_state_run.
    destruct (w_iteration w) as [it|]; [|discriminate].
    destruct (w_optimizer w) as [opt|]; [|discriminate].
    intros [= <- <- <-] Hne. cbn [w_files set_files].
    apply lookup_insert_ne. intros H. apply checkpoint_filename_inj in H. congruence.
Qed.

(** X4.  An engine that has only been constructed and given an optimizer
    cannot save its state: [__init__] does not set [self.iteration], so
    [save_state], under any suffix, raises AttributeError and writes no
    file.  (The counter is set by [train] and by a restore.) *)
Theorem fresh_engine_cannot_save model_name model training is_ddp rank dump_path
    optimizer_config opt name (w : world) :
  optimizer_config model = Ok opt ->
  let fresh :=
    bind (__init__ model_name model training is_ddp rank dump_path)
      (fun _ => configure_optimizers optimizer_config) in
  result_of fresh w = Ok tt /\
  w_optimizer (world_of fresh w) = Some opt /\
  result_of (save_state name) (world_of fresh w) = Err (AttributeError "iteration") /\
  w_files (world_of (save_state name) (world_of fresh w)) = w_files w.
Proof.
  intros Hopt fresh.
  unfold fresh, result_of, world_of, __init__, configure_optimizers, bind, gets, modify.
  cbn [fst snd w_weights]. rewrite Hopt. cbn [lift ret fst snd].
  rewrite save_state_run. cbn. auto.
Qed.

(** ** More on the forward pass *)

Lemma count_equal_bounds p : forall l, 0 <= count_equal p l <= Z.of_nat (length p).
Proof.
  induction p as [|x p IH]; intros [|y l]; cbn [count_equal length]; try lia.
  specialize (IH l). destruct (Z.eqb x y); lia.
Qed.

Lemma forward_run tr (w : world) :
  forward tr w =
  match w_data w, w_labels w with
  | None, _ => (Err (AttributeError "to"), w, [EvRaise (AttributeError "to")])
  | Some _, None => (Err (AttributeError "to"), w, [EvRaise (AttributeError "to")])
  | Some data, Some labels =>
      match model_apply (w_weights w) (w_training w) data with
      | Err e => (Err e, w, [EvRaise e])
      | Ok model_out =>
          match cross_entropy model_out labels with
          | Err e => (Err e, w, [EvRaise e])
          | Ok ls =>
              if Z.eqb (Z.of_nat (length (map argmax model_out))) 0 then
                (Err ZeroDivisionError, set_loss (Some ls) w, [EvRaise ZeroDivisionError])
              else
                let acc := (inject_Z (count_equal (map argmax model_out) labels)
                            / inject_Z (Z.of_nat (length (map argmax model_out))))%Q in
                (Ok (mkForward (map argmax model_out) (softmax_rows model_out) model_out
                       ls acc),
                 set_loss (Some ls) w, [EvForward tr ls acc])
          end
      end
  end.
Proof.
  unfold forward, bind, gets, need, modify, emit, py_div.
  destruct (w_data w) as [data|]; [|reflexivity]. cbn [ret raise].
  destruct (w_labels w) as [labels|]; [|reflexivity]. cbn [ret raise].
  destruct (model_apply (w_weights w) (w_training w) data) as [model_out|e]; [|reflexivity].
  cbn [lift ret raise].
  destruct (cross_entropy model_out labels) as [ls|e]; [|reflexivity].
  cbn [lift ret raise app].
  destruct (Z.eqb (Z.of_nat (length (map argmax model_out))) 0); reflexivity.
Qed.


(** X6.  How [forward] fails on an engine without a batch and on an empty
    batch: with [self.data] (or [self.labels]) still None it raises
    AttributeError and changes nothing; when the model returns no row, the
    loss is computed and stored and then the accuracy divides by zero
    predictions. *)
Theorem forward_failures tr (w : world) :
  (w_data w = None \/ w_labels w = None ->
   forward tr w = (Err (AttributeError "to"), w, [EvRaise (AttributeError "to")])) /\
  (forall data labels ls,
     w_data w = Some data ->
     w_labels w = Some labels ->
     model_apply (w_weights w) (w_training w) data = Ok [] ->
     cross_entropy [] labels = Ok ls ->
     forward tr w =
     (Err ZeroDivisionError, set_loss (Some ls) w, [EvRaise ZeroDivisionError])).
Proof.
  rewrite forward_run. split.
  - intros [-> | Hl]; [reflexivity|]. rewrite Hl. destruct (w_data w); reflexivity.
  - intros data labels ls -> -> -> ->. reflexivity.
Qed.

(** ** More on the attribution routines *)

(** X7.  [epsilonPlusFlat], the routine no method calls, enters the
    gradient-attribution context manager once per class label 0, 1, 2, 3 as
    well, but with the one-hot row of the class as the whole target, not
    tiled over the inputs of the batch; and neither routine changes any
    attribute of the engine, whether it returns or raises. *)
Theorem epsilonPlusFlat_targets model data (w : world) :
  match result_of (epsilonPlusFlat model data) w with
  | Ok _ =>
      gradient_targets (trace_of (epsilonPlusFlat model data) w) =
      map (fun i => [eye_row i]) [0; 1; 2; 3]
  | Err e =>
      exists k, (k < 4)%nat /\
        gradient_targets (trace_of (epsilonPlusFlat model data) w) =
        take (S k) (map (fun i => [eye_row i]) [0; 1; 2; 3])
  end /\
  (forall c, world_of (attribution_routine c model data) w = w).
Proof.
  split.
  - apply (proj1 (wp_run (epsilonPlusFlat model data) w (fun r w' t =>
      match r with
      | Ok _ => gradient_targets t = map (fun i => [eye_row i]) [0; 1; 2; 3]
      | Err e => exists k, (k < 4)%nat /\
                   gradient_targets t = take (S k) (map (fun i => [eye_row i]) [0; 1; 2; 3])
      end))).
    unfold epsilonPlusFlat. wp_step.
    eapply wp_mono; [apply attribution_loop_trace|]. cbv beta.
    intros [[tout trel]|e] w1 t1 Ht.
    + subst t1. wp_auto. reflexivity.
    + destruct Ht as (k & Hk & ->). exists k. split; [exact Hk|].
      destruct k as [|[|[|[|k]]]]; [reflexivity..|lia].
  - intros c.
    apply (proj1 (wp_run (attribution_routine c model data) w (fun _ w' _ => w' = w))).
    destruct c; cbn [attribution_routine]; unfold epsilonAlpha2Beta1, epsilonPlusFlat;
      wp_step; (eapply wp_mono; [apply attribution_loop_frame|]); cbv beta;
      intros [[tout trel]|e] w1 t1 [-> _]; wp_auto; reflexivity.
Qed.

Lemma concat_const_length {A} (n : nat) (ls : list (list A)) :
  Forall (fun l => length l = n) ls -> length (concat ls) = (length ls * n)%nat.
Proof.
  induction 1 as [|l ls Hl _ IH]; [reflexivity|].
  cbn [concat length]. rewrite length_app, Hl, IH. lia.
Qed.

(** X8.  The arrays an attribution routine returns stack the four classes
    along the first axis: for a batch of at least one input and an
    attributor that gives one output row per input and an attribution of [C]
    channels of [P] pixels per input, the outputs have [4 * len(batch)] rows
    and the relevances [4 * C] rows of [P] scores. *)
Theorem attribution_arrays_stack_classes c model data (w w' : world) out rel t C P :
  data <> [] ->
  (forall target o a,
     gradient_attributor c model data target = Ok (o, a) ->
     length o = length data /\ length a = length data /\ shaped C P a) ->
  attribution_routine c model data w = (Ok (out, rel), w', t) ->
  exists rows_out rows_rel,
    out = nd_mat rows_out /\ rel = nd_mat rows_rel /\
    length rows_out = (4 * length data)%nat /\
    length rows_rel = (4 * C)%nat /\
    Forall (fun row => length row = P) rows_rel.
Proof.
  intros Hdata Hattr Hrun.
  assert (Hloop : exists tout trel w1 t1,
    attribution_loop c (routine_target c data) model data 0 4 [] [] w
      = (Ok (tout, trel), w1, t1) /\ out = nd_mat tout /\ rel = nd_mat trel).
  { destruct c; cbn [attribution_routine] in Hrun;
      unfold epsilonAlpha2Beta1, epsilonPlusFlat, bind in Hrun;
      cbn [routine_target];
      match type of Hrun with
      | context [attribution_loop ?c ?mk ?m ?d ?i ?n ?a ?b ?w] =>
          destruct (attribution_loop c mk m d i n a b w)
            as [[[[tout trel]|e] w1] t1] eqn:Hl
      end; cbn [ret] in Hrun; try discriminate;
      injection Hrun as <- <- <- <-;
      eexists _, _, _, _; (split; [exact Hl|split; reflexivity]). }
  destruct Hloop as (tout & trel & w1 & t1 & Hloop & -> & ->).
  destruct (attribution_loop_result _ _ _ _ _ _ _ _ _ _ _ _ _ Hloop) as (rs & Hrs & -> & ->).
  exists (concat (map fst rs)), (concat (map (fun r => sum0 (snd r)) rs)).
  split; [reflexivity|]. split; [reflexivity|].
  assert (Hlen : length rs = 4%nat).
  { apply Forall2_length in Hrs. rewrite <- Hrs. reflexivity. }
  assert (Hall : Forall (fun r : list (list Q) * tensor =>
                           length (fst r) = length data /\
                           length (sum0 (snd r)) = C /\
                           Forall (fun row => length row = P) (sum0 (snd r))) rs).
  { clear Hloop Hrun Hlen. induction Hrs as [|i [o a] js rs Hi Hrs IH]; [constructor|].
    constructor; [|exact IH]. cbn [fst snd].
    destruct (Hattr _ _ _ Hi) as (Ho & Ha & Hsh). split; [exact Ho|].
    assert (Hne : a <> []).
    { intros ->. destruct data; [congruence|discriminate]. }
    destruct (sum0_spec a C P Hne Hsh) as (H1 & H2 & _). auto. }
  split; [|split].
  - rewrite (concat_const_length (length data)), length_map, Hlen; [reflexivity|].
    apply Forall_map. eapply Forall_impl; [exact Hall|]. cbv beta. intros r H. apply H.
  - rewrite (concat_const_length C), length_map, Hlen; [reflexivity|].
    apply Forall_map. eapply Forall_impl; [exact Hall|]. cbv beta. intros r H. apply H.
  - apply Forall_concat. apply Forall_map.
    eapply Forall_impl; [exact Hall|]. cbv beta. intros r H. apply H.
Qed.

(** ** What a validation leaves alone *)

Lemma train_log_rows_app t1 t2 :
  train_log_rows (t1 ++ t2) = train_log_rows t1 ++ train_log_rows t2.
Proof. apply flat_map_app. Qed.

Lemma state_kept_step_rel : step_rel state_kept.
Proof.
  split.
  - intros w. repeat split.
  - intros ok w w1 w2 t1 t2 (?&?&?&?&?&?&E1) (?&?&?&?&?&?&E2).
    repeat split; try congruence. rewrite train_log_rows_app, E1, E2. reflexivity.
  - intros w e. repeat split.
Qed.

Ltac state_leaf :=
  first [ solve [repeat split]
        | let E1 := fresh "E" in let E2 := fresh "F" in
          intros (?&?&?&?&?&?&E1) (?&?&?&?&?&?&E2);
          repeat split; try congruence;
          rewrite train_log_rows_app, E1; exact E2 ].

Lemma state_kept_py_iter ld : always state_kept (py_iter ld).
Proof. intros w. repeat split. Qed.

Lemma state_kept_py_next it : always state_kept (py_next it).
Proof.
  intros w. unfold wp, py_next.
  destruct (w_heap w !! it) as [[|b rest]|]; repeat split.
Qed.

#[local] Hint Resolve state_kept_py_iter state_kept_py_next : always.

Lemma state_kept_forward tr : always state_kept (forward tr).
Proof. pose proof state_kept_step_rel. unfold forward. always_auto; state_leaf. Qed.

Lemma state_kept_save_state name : always state_kept (save_state name).
Proof. pose proof state_kept_step_rel. unfold save_state. always_auto; state_leaf. Qed.

Lemma state_kept_get_synchronized_metrics d :
  always state_kept (get_synchronized_metrics d).
Proof.
  pose proof state_kept_step_rel.
  induction d as [|[k v] d IH]; cbn [get_synchronized_metrics]; unfold all_gather;
    always_auto; state_leaf.
Qed.

#[local] Hint Resolve state_kept_forward state_kept_save_state
  state_kept_get_synchronized_metrics : always.

Lemma state_kept_validate_loop n : forall it vl va,
  always state_kept (validate_loop n it vl va).
Proof.
  pose proof state_kept_step_rel.
  induction n as [|n IH]; intros it vl va; cbn [validate_loop];
    unfold validate_batch, fetch_val_batch; always_auto; state_leaf.
Qed.

#[local] Hint Resolve state_kept_validate_loop : always.

Lemma state_kept_validate it nvb ck : always state_kept (validate it nvb ck).
Proof.
  pose proof state_kept_step_rel.
  unfold validate, validate_local, validate_record. always_auto; state_leaf.
Qed.

#[local] Hint Resolve state_kept_validate : always.

Lemma mode_kept_step_rel : step_rel mode_kept.
Proof.
  split.
  - intros w. reflexivity.
  - intros ok w w1 w2 t1 t2 H1 H2. unfold mode_kept in *. congruence.
  - intros w e. reflexivity.
Qed.

Ltac mode_leaf :=
  first [ solve [reflexivity] | unfold mode_kept; intros; congruence ].

Lemma mode_kept_save_state name : always mode_kept (save_state name).
Proof. pose proof mode_kept_step_rel. unfold save_state. always_auto; mode_leaf. Qed.

Lemma mode_kept_get_synchronized_metrics d :
  always mode_kept (get_synchronized_metrics d).
Proof.
  pose proof mode_kept_step_rel.
  induction d as [|[k v] d IH]; cbn [get_synchronized_metrics]; unfold all_gather;
    always_auto; mode_leaf.
Qed.

#[local] Hint Resolve mode_kept_save_state mode_kept_get_synchronized_metrics : always.

Lemma mode_kept_validate_record k d ck : always mode_kept (validate_record k d ck).
Proof. pose proof mode_kept_step_rel. unfold validate_record. always_auto; mode_leaf. Qed.

#[local] Hint Resolve mode_kept_validate_record : always.

(** A validation that returns has put the model back in training mode. *)
Lemma validate_training it nvb ck w :
  wp (validate it nvb ck) w (fun r w' _ => is_ok r = true -> w_training w' = true).
Proof.
  pose proof mode_kept_step_rel as HP.
  unfold validate. apply wp_bind.
  assert (Hl : wp (validate_local it nvb) w (fun r w1 _ =>
                 is_ok r = true -> w_training w1 = true)).
  { unfold validate_local. do 6 wp_step.
    destruct (w_iteration w) as [k|]; [|discriminate].
    do 3 wp_step. eapply wp_mono; [apply wp_true|]. cbv beta.
    intros [[sl sa]|e] w1 t1 _; [|discriminate].
    wp_auto; try discriminate. reflexivity. }
  eapply wp_mono; [exact Hl|]. cbv beta.
  intros [[[iteration ll] la]|e] w1 t1 H1; [|discriminate].
  specialize (H1 eq_refl).
  match goal with
  | |- wp ?m _ _ => assert (Hrest : always mode_kept m) by always_auto
  end.
  eapply wp_mono; [apply Hrest|]. cbv beta. intros r w2 t2 H2 _.
  unfold mode_kept in H2. congruence.
Qed.

(** X9.  A validation changes nothing of what is being trained: whether
    [validate] returns or raises, the model weights, the optimizer state,
    the scheduler and the counters ([iteration], [epoch], [step]) are what
    they were, and nothing is recorded in the training log; and a
    [validate] that returns leaves the model in training mode. *)
Theorem validate_keeps_training_state it nvb ck (w : world) :
  let w' := world_of (validate it nvb ck) w in
  w_weights w' = w_weights w /\
  w_optimizer w' = w_optimizer w /\
  w_scheduler w' = w_scheduler w /\
  w_iteration w' = w_iteration w /\
  w_epoch w' = w_epoch w /\
  w_step w' = w_step w /\
  train_log_rows (trace_of (validate it nvb ck) w) = [] /\
  (is_ok (result_of (validate it nvb ck) w) = true -> w_training w' = true).
Proof.
  intros w'.
  pose proof (proj1 (wp_run _ _ _) (state_kept_validate it nvb ck w))
    as (H1 & H2 & H3 & H4 & H5 & H6 & H7).
  pose proof (proj1 (wp_run _ _ _) (validate_training it nvb ck w)) as H8.
  repeat split; assumption.
Qed.

(** ** What a validation records *)

Lemma peers_kept_step_rel : step_rel peers_kept.
Proof.
  split.
  - intros w. reflexivity.
  - intros ok w w1 w2 t1 t2 H1 H2. unfold peers_kept in *. congruence.
  - intros w e. reflexivity.
Qed.

Ltac peers_leaf :=
  first [ solve [reflexivity] | unfold peers_kept; intros; congruence ].

Lemma peers_kept_py_iter ld : always peers_kept (py_iter ld).
Proof. intros w. reflexivity. Qed.

Lemma peers_kept_py_next it : always peers_kept (py_next it).
Proof.
  intros w. unfold wp, py_next.
  destruct (w_heap w !! it) as [[|b rest]|]; reflexivity.
Qed.

#[local] Hint Resolve peers_kept_py_iter peers_kept_py_next : always.

Lemma peers_kept_forward tr : always peers_kept (forward tr).
Proof. pose proof peers_kept_step_rel. unfold forward. always_auto; peers_leaf. Qed.

#[local] Hint Resolve peers_kept_forward : always.

Lemma peers_kept_validate_loop n : forall it vl va,
  always peers_kept (validate_loop n it vl va).
Proof.
  pose proof peers_kept_step_rel.
  induction n as [|n IH]; intros it vl va; cbn [validate_loop];
    unfold validate_batch, fetch_val_batch; always_auto; peers_leaf.
Qed.

#[local] Hint Resolve peers_kept_validate_loop : always.

Lemma peers_kept_validate_local it nvb : always peers_kept (validate_local it nvb).
Proof. pose proof peers_kept_step_rel. unfold validate_local. always_auto; peers_leaf. Qed.

Lemma setup_kept_validate_local it nvb : always setup_kept (validate_local it nvb).
Proof. pose proof setup_kept_step_rel. unfold validate_local. always_auto; setup_leaf. Qed.

Lemma state_kept_validate_local it nvb : always state_kept (validate_local it nvb).
Proof. pose proof state_kept_step_rel. unfold validate_local. always_auto; state_leaf. Qed.

Lemma validate_local_iteration it nvb k w :
  w_iteration w = Some k ->
  wp (validate_local it nvb) w (fun r _ _ => forall k' ll la, r = Ok (k', ll, la) -> k' = k).
Proof.
  intros Hk. unfold validate_local. do 5 wp_step. rewrite Hk. cbv beta iota. do 3 wp_step.
  apply wp_bind. eapply wp_mono; [apply wp_true|]. cbv beta.
  intros [[sl sa]|e] w1 t1 _; [|discriminate].
  wp_auto; intros; congruence.
Qed.

(** What is known after the local part of a validation that returned. *)
Lemma validate_local_facts it nvb k w :
  w_iteration w = Some k ->
  wp (validate_local it nvb) w (fun r w1 t1 =>
    forall k' ll la, r = Ok (k', ll, la) ->
      k' = k /\
      (ll == Qsum (map fst (val_forwards t1)) / inject_Z nvb)%Q /\
      (la == Qsum (map snd (val_forwards t1)) / inject_Z nvb)%Q /\
      logged_losses t1 = [] /\
      w_rank w1 = w_rank w /\ w_distributed w1 = w_distributed w /\
      w_epoch w1 = w_epoch w /\ w_gather_in w1 = w_gather_in w).
Proof.
  intros Hk.
  pose proof (wp_and _ _ _ _ (validate_local_iteration it nvb k w Hk)
    (wp_and _ _ _ _ (validate_local_mean it nvb w)
       (wp_and _ _ _ _ (silent_validate_local it nvb w)
          (wp_and _ _ _ _ (setup_kept_validate_local it nvb w)
             (wp_and _ _ _ _ (state_kept_validate_local it nvb w)
                (peers_kept_validate_local it nvb w)))))) as H.
  eapply wp_mono; [exact H|]. cbv beta. clear H.
  intros r w1 t1 (Hi & Hm & [_ Hs] & (_ & Hr & _ & Hd & _) & (_ & _ & _ & _ & He & _) & Hp).
  intros k' ll la ->.
  destruct (Hm _ _ _ eq_refl) as (_ & _ & _ & Hll & Hla).
  split; [exact (Hi _ _ _ eq_refl)|]. split; [exact Hll|]. split; [exact Hla|].
  split; [apply unrecorded_no_losses; exact Hs|]. auto.
Qed.

Lemma np_mean_vec1 x : (np_mean (nd_vec [x]) == x)%Q.
Proof. unfold np_mean, np_sum, Qsum. cbn. field. Qed.

(** The row rank 0 records for the global metrics [gl] and [ga]. *)
Lemma validate_record_row k gl ga ck w :
  wp (validate_record k [("loss", gl); ("accuracy", ga)] ck) w (fun r w' t =>
    is_ok r = true ->
    exists saved_best t0,
      t = t0 ++ [EvValLog (mkValRecord k (np_mean gl) (np_mean ga) saved_best (w_epoch w))
                   (w_best w')] /\
      logged_losses t0 = [] /\ val_forwards t = []).
Proof.
  unfold validate_record.
  change (dict_get [("loss", gl); ("accuracy", ga)] "loss") with (@ret FW nd gl).
  change (dict_get [("loss", gl); ("accuracy", ga)] "accuracy") with (@ret FW nd ga).
  wp_auto; try discriminate; intros _.
  - eexists _, [_; _]. repeat split.
  - eexists _, [_]. repeat split.
  - eexists _, [_]. repeat split.
  - eexists _, []. repeat split.
Qed.

Lemma val_forwards_app t1 t2 : val_forwards (t1 ++ t2) = val_forwards t1 ++ val_forwards t2.
Proof. apply flat_map_app. Qed.

Lemma validate_row_local it nvb ck k w :
  w_iteration w = Some k ->
  w_distributed w = false ->
  w_rank w = 0 ->
  wp (validate it nvb ck) w (fun r w' t =>
    is_ok r = true ->
    exists row t0,
      t = t0 ++ [EvValLog row (w_best w')] /\ logged_losses t0 = [] /\
      vr_iteration row = k /\ vr_epoch row = w_epoch w /\
      (vr_loss row == Qsum (map fst (val_forwards t)) / inject_Z nvb)%Q /\
      (vr_accuracy row == Qsum (map snd (val_forwards t)) / inject_Z nvb)%Q).
Proof.
  intros Hk Hd Hr. unfold validate. apply wp_bind.
  eapply wp_mono; [apply (validate_local_facts it nvb k w Hk)|]. cbv beta.
  intros [[[k' ll] la]|e] w1 t1 H1; [|discriminate].
  destruct (H1 _ _ _ eq_refl) as (-> & Hll & Hla & Hl1 & Hr1 & Hd1 & He1 & _).
  do 2 wp_step. rewrite Hd1, Hd. cbv iota. do 4 wp_step. rewrite Hr1, Hr.
  cbn [Z.eqb]. cbv iota.
  eapply wp_mono; [apply validate_record_row|]. cbv beta.
  intros r w3 t3 H3 Hok. destruct (H3 Hok) as (sb & t0 & -> & Hl0 & Hv0).
  eexists _, (t1 ++ t0). rewrite <- app_assoc. split; [reflexivity|].
  rewrite logged_losses_app, Hl1, Hl0.
  rewrite val_forwards_app in Hv0. apply app_eq_nil in Hv0 as [Hv0 _].
  rewrite !val_forwards_app, Hv0. cbn [val_forwards flat_map app]. rewrite ?app_nil_r.
  cbn [vr_iteration vr_epoch vr_loss vr_accuracy].
  repeat split; try assumption.
  - rewrite np_mean_vec1. exact Hll.
  - rewrite np_mean_vec1. exact Hla.
Qed.

(** X10.  What a validation records on a single process: a [validate] of a
    non-distributed engine of rank 0 that returns has recorded exactly one
    row, as its last step, holding the iteration and the epoch the engine is
    at, and as loss and accuracy the sums over the batches it passed forward
    divided by [num_val_batches]. *)
Theorem validate_records_local_mean it nvb ck k (w : world) :
  w_iteration w = Some k ->
  w_distributed w = false ->
  w_rank w = 0 ->
  is_ok (result_of (validate it nvb ck) w) = true ->
  let t := trace_of (validate it nvb ck) w in
  exists row t0,
    t = t0 ++ [EvValLog row (w_best (world_of (validate it nvb ck) w))] /\
    logged_losses t0 = [] /\
    vr_iteration row = k /\ vr_epoch row = w_epoch w /\
    (vr_loss row == Qsum (map fst (val_forwards t)) / inject_Z nvb)%Q /\
    (vr_accuracy row == Qsum (map snd (val_forwards t)) / inject_Z nvb)%Q.
Proof.
  intros Hk Hd Hr Hok t.
  exact (proj1 (wp_run _ _ _) (validate_row_local it nvb ck k w Hk Hd Hr) Hok).
Qed.

(** ** Metrics gathered from all processes *)

Lemma wp_of_run {A} (m : M A) w r w' t (Q : result A -> world -> list event -> Prop) :
  m w = (r, w', t) -> Q r w' t -> wp m w Q.
Proof. unfold wp. intros ->. auto. Qed.

Lemma wp_run_eq {A} (m : M A) w r w' t :
  wp m w (fun r1 w1 t1 => r1 = r /\ w1 = w' /\ t1 = t) -> m w = (r, w', t).
Proof.
  unfold wp. destruct (m w) as [[r1 w1] t1]. intros (-> & -> & ->). reflexivity.
Qed.

Lemma wp_run_ex {A} (m : M A) w r t (P : world -> Prop) :
  wp m w (fun r1 w1 t1 => r1 = r /\ t1 = t /\ P w1) ->
  exists w', m w = (r, w', t) /\ P w'.
Proof.
  unfold wp. destruct (m w) as [[r1 w1] t1]. intros (-> & -> & HP). eauto.
Qed.

Lemma nd_flatten_Arr l : nd_flatten (Arr l) = concat (map nd_flatten l).
Proof.
  induction l as [|x l IH]; [reflexivity|]. cbn [map concat]. rewrite <- IH. reflexivity.
Qed.

Lemma nd_cat_flatten l : forall cat,
  nd_cat l = Ok cat -> nd_flatten (Arr cat) = concat (map nd_flatten l).
Proof.
  induction l as [|x l IH]; intros cat H; cbn [nd_cat] in H.
  - injection H as <-. reflexivity.
  - destruct x as [q|xs]; [discriminate|].
    destruct (nd_cat l) as [ys|e]; [|discriminate].
    injection H as <-. rewrite nd_flatten_Arr, map_app, concat_app. cbn [map concat].
    rewrite <- (IH ys eq_refl), !nd_flatten_Arr. reflexivity.
Qed.

Lemma get_synchronized_metrics_cons name array rest (w : world) :
  get_synchronized_metrics ((name, array) :: rest) w =
  if w_distributed w then
    match w_gather_in w with
    | [] => (Err (ExternalError "all_gather"), w, [EvRaise (ExternalError "all_gather")])
    | p :: peers =>
        match nd_cat (gathered (w_rank w) array p) with
        | Err e => (Err e, set_gather_in peers w, [EvRaise e])
        | Ok cat =>
            match get_synchronized_metrics rest (set_gather_in peers w) with
            | (Ok others, w', t) => (Ok ((name, Arr cat) :: others), w', t)
            | (Err e, w', t) => (Err e, w', t)
            end
        end
    end
  else (Err (AttributeError "ngpus"), w, [EvRaise (AttributeError "ngpus")]).
Proof.
  cbn [get_synchronized_metrics]. unfold bind at 1. unfold gets at 1.
  destruct (w_distributed w); [|reflexivity].
  unfold bind at 1. cbn [ret]. unfold bind at 1. unfold all_gather, bind, gets, modify.
  destruct (w_gather_in w) as [|p peers]; [reflexivity|]. cbn [ret].
  wsimpl. unfold gathered.
  destruct (nd_cat (take (Z.to_nat (w_rank w)) p ++ array :: drop (Z.to_nat (w_rank w)) p))
    as [cat|e]; [|reflexivity].
  cbn [lift ret].
  destruct (get_synchronized_metrics rest (set_gather_in peers w)) as [[[others|e] w'] t];
    cbn [app]; rewrite ?app_nil_r; reflexivity.
Qed.

(** X11.  What [get_synchronized_metrics] returns: a dictionary with the
    keys of the one given, in the same order, got from one collective per
    key, each value being the concatenation, along the first axis and in rank
    order, of the arrays the processes hold under that key, the array of this
    process at the position of its rank.  Nothing is recorded, and a
    dictionary with at least one key is only synchronized by a distributed
    engine. *)
Theorem get_synchronized_metrics_concatenates d : forall (w w' : world) out t,
  get_synchronized_metrics d w = (Ok out, w', t) ->
  t = [] /\
  map fst out = map fst d /\
  (d <> [] -> w_distributed w = true) /\
  exists peers,
    w_gather_in w = peers ++ w_gather_in w' /\
    Forall3 (fun kv p o =>
               exists rows,
                 nd_cat (gathered (w_rank w) (snd kv) p) = Ok rows /\
                 o = (fst kv, Arr rows) /\
                 nd_flatten (Arr rows) =
                 concat (map nd_flatten (gathered (w_rank w) (snd kv) p)))
      d peers out.
Proof.
  induction d as [|[name array] d IH]; intros w w' out t H.
  - injection H as <- <- <-. repeat split; [congruence|].
    exists []. split; [reflexivity|constructor].
  - rewrite get_synchronized_metrics_cons in H.
    destruct (w_distributed w) eqn:Hd; [|discriminate].
    destruct (w_gather_in w) as [|p peers] eqn:Hg; [discriminate|].
    destruct (nd_cat (gathered (w_rank w) array p)) as [cat|e] eqn:Hc; [|discriminate].
    destruct (get_synchronized_metrics d (set_gather_in peers w))
      as [[[others|e] w1] t1] eqn:Hrec; [|discriminate].
    injection H as <- <- <-.
    destruct (IH _ _ _ _ Hrec) as (Ht & Hk & _ & ps & Hps & Hall).
    cbn [w_gather_in set_gather_in w_rank] in Hps, Hall.
    split; [exact Ht|]. split; [cbn [map fst]; f_equal; exact Hk|].
    split; [reflexivity|].
    exists (p :: ps). split; [cbn [app]; f_equal; exact Hps|].
    constructor; [|exact Hall].
    exists cat. split; [exact Hc|]. split; [reflexivity|].
    apply nd_cat_flatten. exact Hc.
Qed.

Lemma nd_cat_vecs l : nd_cat (map (fun x => nd_vec [x]) l) = Ok (map Sc l).
Proof.
  induction l as [|x l IH]; [reflexivity|].
  cbn [map nd_cat nd_vec]. rewrite IH. reflexivity.
Qed.

Lemma nd_cat_vec1 own l :
  nd_cat (nd_vec [own] :: map (fun x => nd_vec [x]) l) = Ok (Sc own :: map Sc l).
Proof. exact (nd_cat_vecs (own :: l)). Qed.

Lemma nd_flatten_scalars l : nd_flatten (Arr (map Sc l)) = l.
Proof.
  rewrite nd_flatten_Arr, map_map. cbn [nd_flatten].
  induction l as [|x l IH]; [reflexivity|]. cbn [map concat app]. rewrite IH. reflexivity.
Qed.

Lemma np_mean_scalars x l :
  (np_mean (Arr (Sc x :: map Sc l)) == (x + Qsum l) / inject_Z (Z.of_nat (S (length l))))%Q.
Proof.
  unfold np_mean, np_sum.
  change (Sc x :: map Sc l) with (map Sc (x :: l)). rewrite nd_flatten_scalars.
  reflexivity.
Qed.

Lemma gathered_rank0 own p : gathered 0 own p = own :: p.
Proof. reflexivity. Qed.

Lemma gather_two_metrics (w : world) ll la pl pa rest :
  w_distributed w = true ->
  w_rank w = 0 ->
  w_gather_in w = map (fun x => nd_vec [x]) pl :: map (fun x => nd_vec [x]) pa :: rest ->
  get_synchronized_metrics [("loss", nd_vec [ll]); ("accuracy", nd_vec [la])] w =
  (Ok [("loss", Arr (Sc ll :: map Sc pl)); ("accuracy", Arr (Sc la :: map Sc pa))],
   set_gather_in rest (set_gather_in (map (fun x => nd_vec [x]) pa :: rest) w), []).
Proof.
  intros Hd Hr Hg.
  rewrite get_synchronized_metrics_cons, Hd, Hg, Hr, gathered_rank0, nd_cat_vec1.
  rewrite get_synchronized_metrics_cons. wsimpl.
  rewrite Hd, Hr, gathered_rank0, nd_cat_vec1. reflexivity.
Qed.

Lemma validate_row_distributed it nvb ck k w pl pa rest :
  w_iteration w = Some k ->
  w_distributed w = true ->
  w_rank w = 0 ->
  w_gather_in w = map (fun x => nd_vec [x]) pl :: map (fun x => nd_vec [x]) pa :: rest ->
  wp (validate it nvb ck) w (fun r w' t =>
    is_ok r = true ->
    exists row t0,
      t = t0 ++ [EvValLog row (w_best w')] /\ logged_losses t0 = [] /\
      vr_iteration row = k /\
      (vr_loss row ==
       (Qsum (map fst (val_forwards t)) / inject_Z nvb + Qsum pl)
       / inject_Z (Z.of_nat (S (length pl))))%Q /\
      (vr_accuracy row ==
       (Qsum (map snd (val_forwards t)) / inject_Z nvb + Qsum pa)
       / inject_Z (Z.of_nat (S (length pa))))%Q /\
      w_gather_in w' = rest).
Proof.
  intros Hk Hd Hr Hg. unfold validate. apply wp_bind.
  eapply wp_mono; [apply (validate_local_facts it nvb k w Hk)|]. cbv beta.
  intros [[[k' ll] la]|e] w1 t1 H1; [|discriminate].
  destruct (H1 _ _ _ eq_refl) as (-> & Hll & Hla & Hl1 & Hr1 & Hd1 & He1 & Hg1).
  rewrite Hd in Hd1. rewrite Hr in Hr1. rewrite Hg in Hg1.
  do 2 wp_step. rewrite Hd1. cbv iota. wp_step.
  eapply wp_of_run; [apply (gather_two_metrics w1 ll la pl pa rest Hd1 Hr1 Hg1)|].
  cbv beta iota. do 2 wp_step. rewrite Hr1. cbn [Z.eqb]. cbv iota.
  assert (Hpeers : always peers_kept
            (validate_record k [("loss", Arr (Sc ll :: map Sc pl));
                                ("accuracy", Arr (Sc la :: map Sc pa))] ck)).
  { pose proof peers_kept_step_rel. unfold validate_record, save_state.
    always_auto; peers_leaf. }
  eapply wp_mono;
    [exact (wp_and _ _ _ _ (validate_record_row k _ _ ck _) (Hpeers _))|]. cbv beta.
  intros r w3 t3 [H3 Hp3] Hok. destruct (H3 Hok) as (sb & t0 & -> & Hl0 & Hv0).
  eexists _, (t1 ++ t0). rewrite <- app_assoc. split; [reflexivity|].
  rewrite logged_losses_app, Hl1, Hl0.
  rewrite val_forwards_app in Hv0. apply app_eq_nil in Hv0 as [Hv0 _].
  rewrite !val_forwards_app, Hv0. cbn [val_forwards flat_map app]. rewrite ?app_nil_r.
  cbn [vr_iteration vr_epoch vr_loss vr_accuracy].
  split; [reflexivity|]. split; [reflexivity|].
  split; [rewrite np_mean_scalars, <- Hll; reflexivity|].
  split; [rewrite np_mean_scalars, <- Hla; reflexivity|].
  unfold peers_kept in Hp3. rewrite Hp3. reflexivity.
Qed.

(** X12.  What a validation records when several processes train together:
    on the distributed engine of rank 0, when each peer contributes its own
    loss and accuracy to the two collectives, the row recorded holds the
    mean over all processes of the per-process losses (this process's being
    the sum over its batches divided by [num_val_batches]), and likewise for
    the accuracy; the validation takes the contributions of exactly two
    collectives. *)
Theorem validate_records_mean_over_processes it nvb ck k (w : world) peer_losses
    peer_accuracies rest :
  w_iteration w = Some k ->
  w_distributed w = true ->
  w_rank w = 0 ->
  w_gather_in w =
    map (fun x => nd_vec [x]) peer_losses :: map (fun x => nd_vec [x]) peer_accuracies
      :: rest ->
  is_ok (result_of (validate it nvb ck) w) = true ->
  let t := trace_of (validate it nvb ck) w in
  let w' := world_of (validate it nvb ck) w in
  exists row t0,
    t = t0 ++ [EvValLog row (w_best w')] /\ logged_losses t0 = [] /\
    vr_iteration row = k /\
    (vr_loss row ==
     (Qsum (map fst (val_forwards t)) / inject_Z nvb + Qsum peer_losses)
     / inject_Z (Z.of_nat (S (length peer_losses))))%Q /\
    (vr_accuracy row ==
     (Qsum (map snd (val_forwards t)) / inject_Z nvb + Qsum peer_accuracies)
     / inject_Z (Z.of_nat (S (length peer_accuracies))))%Q /\
    w_gather_in w' = rest.
Proof.
  intros Hk Hd Hr Hg Hok t w'.
  exact (proj1 (wp_run _ _ _)
           (validate_row_distributed it nvb ck k w _ _ rest Hk Hd Hr Hg) Hok).
Qed.

(** ** What a run of [train] makes of the model, the counters and the log *)

Lemma forward_post tr w :
  wp (forward tr) w (fun r w' t =>
    match r with
    | Ok res =>
        w' = set_loss (Some (loss res)) w /\ t = [EvForward tr (loss res) (accuracy res)]
    | Err e => t = [EvRaise e]
    end).
Proof.
  unfold wp. rewrite forward_run.
  destruct (w_data w) as [data|]; [|reflexivity].
  destruct (w_labels w) as [labels|]; [|reflexivity].
  destruct (model_apply (w_weights w) (w_training w) data) as [model_out|e]; [|reflexivity].
  destruct (cross_entropy model_out labels) as [ls|e]; [|reflexivity].
  destruct (Z.eqb (Z.of_nat (length (map argmax model_out))) 0); [reflexivity|].
  split; reflexivity.
Qed.

Lemma backward_run (w : world) :
  backward w =
  match w_optimizer w, w_loss w, w_data w, w_labels w with
  | None, _, _, _ =>
      (Err (AttributeError "zero_grad"), w, [EvRaise (AttributeError "zero_grad")])
  | Some _, None, _, _ =>
      (Err (AttributeError "backward"), w, [EvRaise (AttributeError "backward")])
  | Some _, Some _, None, _ => (Err (AttributeError "to"), w, [EvRaise (AttributeError "to")])
  | Some _, Some _, Some _, None =>
      (Err (AttributeError "to"), w, [EvRaise (AttributeError "to")])
  | Some opt, Some _, Some data, Some labels =>
      let '(opt', ws') := optimizer_step opt (w_weights w) data labels in
      (Ok tt, set_optimizer (Some opt') (set_weights ws' w), [])
  end.
Proof.
  unfold backward, bind, gets, need, modify.
  destruct (w_optimizer w) as [opt|]; [|reflexivity]. cbn [ret raise].
  destruct (w_loss w) as [l|]; [|reflexivity]. cbn [ret raise].
  destruct (w_data w) as [data|]; [|reflexivity]. cbn [ret raise].
  destruct (w_labels w) as [labels|]; [|reflexivity]. cbn [ret raise].
  destruct (optimizer_step opt (w_weights w) data labels) as [opt' ws']. reflexivity.
Qed.

Lemma evolves_trans f g (w w1 w2 : world) :
  evolves f w w1 -> evolves g w1 w2 -> evolves (fun s => g (f s)) w w2.
Proof.
  intros Hf Hg opt Ho. specialize (Hf opt Ho).
  destruct (f (w_scheduler w, opt, w_weights w)) as [[sch o] ws].
  destruct Hf as (Hs & Ho1 & Hw). specialize (Hg o Ho1). rewrite Hs, Hw in Hg. exact Hg.
Qed.

Lemma evolves_same (w w' : world) :
  w_scheduler w' = w_scheduler w -> w_optimizer w' = w_optimizer w ->
  w_weights w' = w_weights w -> evolves (fun s => s) w w'.
Proof. intros Hs Ho Hw opt Hopt. rewrite Hs, Ho, Hw. auto. Qed.

Lemma evolves_from f (w0 w w' : world) :
  w_scheduler w = w_scheduler w0 -> w_optimizer w = w_optimizer w0 ->
  w_weights w = w_weights w0 -> evolves f w w' -> evolves f w0 w'.
Proof. intros Hs Ho Hw H opt Hopt. rewrite <- Hs, <- Hw. apply H. congruence. Qed.

Lemma evolves_ext f g (w w' : world) :
  (forall s, f s = g s) -> evolves f w w' -> evolves g w w'.
Proof. intros Hfg H opt Ho. rewrite <- Hfg. apply H. exact Ho. Qed.

Lemma log_post_bind {A B} (m : M A) (f : A -> M B) rows1 rows2 (E1 E2 : world -> Prop) w :
  wp m w (log_post rows1 E1) ->
  (forall a w1, E1 w1 -> wp (f a) w1 (log_post rows2 E2)) ->
  wp (bind m f) w (log_post (rows1 ++ rows2) E2).
Proof.
  intros Hm Hf. apply wp_bind. eapply wp_mono; [exact Hm|]. cbv beta.
  intros [a|e] w1 t1 [Hpre Hok].
  - destruct (Hok eq_refl) as [Ht1 HE].
    eapply wp_mono; [apply (Hf a w1 HE)|]. cbv beta.
    intros r2 w2 t2 [Hpre2 Hok2]. unfold log_post.
    rewrite train_log_rows_app, Ht1. split.
    + apply prefix_app. exact Hpre2.
    + intros H. destruct (Hok2 H) as [-> HE2]. auto.
  - split; [|discriminate]. apply prefix_app_r. exact Hpre.
Qed.

Lemma log_post_mono {A} rows (E E' : world -> Prop) (m : M A) w :
  wp m w (log_post rows E) -> (forall w', E w' -> E' w') -> wp m w (log_post rows E').
Proof.
  intros H HE. eapply wp_mono; [exact H|]. cbv beta.
  intros r w' t [Hpre Hok]. split; [exact Hpre|].
  intros Hr. destruct (Hok Hr). auto.
Qed.

Ltac rows_norm := unfold log_post; cbn [train_log_rows flat_map app is_ok].

Lemma train_batch_effect cfg it step b k w :
  w_iteration w = Some k ->
  wp (train_batch cfg it step b) w
    (log_post [(k + 1, w_epoch w)] (fun w' =>
       w_iteration w' = Some (k + 1) /\ w_epoch w' = w_epoch w /\
       w_step w' = step + 1 /\ evolves (batch_update b) w w')).
Proof.
  intros Hk. unfold train_batch.
  do 5 wp_step. rewrite Hk. cbv beta iota. do 3 wp_step.
  { rows_norm. split; [apply prefix_nil|discriminate]. }
  match goal with
  | |- wp (bind _ ?K) _ _ =>
      assert (Hrest : forall w1, w_iteration w1 = Some k ->
        wp (K tt) w1
          (log_post [(k + 1, w_epoch w1)] (fun w' =>
             w_iteration w' = Some (k + 1) /\ w_epoch w' = w_epoch w1 /\
             w_step w' = step + 1 /\ evolves (batch_update b) w1 w')))
  end.
  { clear w Hk. intros w Hk. do 7 wp_step.
    eapply wp_mono; [apply forward_post|]. cbv beta.
    intros [res|e] w1 t1 H1.
    2:{ subst t1. rows_norm. split; [apply prefix_nil|discriminate]. }
    destruct H1 as [-> ->]. wp_step.
    destruct (w_optimizer w) as [opt|] eqn:Ho.
    2:{ eapply wp_of_run; [rewrite backward_run; wsimpl; rewrite Ho; reflexivity|].
        rows_norm. split; [apply prefix_nil|discriminate]. }
    destruct (optimizer_step opt (w_weights w) (b_data b) (b_labels b)) as [opt' ws'] eqn:Hs.
    eapply wp_of_run; [rewrite backward_run; wsimpl; rewrite Ho, Hs; reflexivity|].
    cbv beta iota. do 5 wp_step. rewrite Hk. cbv beta iota.
    assert (Hev : forall w', w_scheduler w' = w_scheduler w ->
                    w_optimizer w' = Some opt' -> w_weights w' = ws' ->
                    evolves (batch_update b) w w').
    { intros w' H1 H2 H3 o Hoo. rewrite Ho in Hoo. injection Hoo as <-.
      unfold batch_update. rewrite Hs. auto. }
    wp_auto; rows_norm; (split; [reflexivity|]); try discriminate;
      intros _; (split; [reflexivity|]); repeat split; apply Hev; reflexivity. }
  destruct (Z.eqb_spec (k mod val_interval cfg) 0) as [Hmod|Hmod].
  - apply wp_bind. eapply wp_mono; [apply state_kept_validate|]. cbv beta.
    intros [[]|e] w1 t1 (Hw & Ho & Hs & Hi & He & Hst & Hrows); wsimpl.
    + eapply wp_mono; [apply Hrest; rewrite Hi; exact Hk|]. cbv beta.
      intros r w2 t2 [Hpre Hok]. unfold log_post.
      rewrite train_log_rows_app, Hrows, <- He. cbn [app].
      split; [exact Hpre|]. intros Hr. destruct (Hok Hr) as (Hrw & Hi2 & He2 & Hs2 & Hev).
      split; [exact Hrw|]. repeat split; try assumption.
      apply (evolves_from _ w w1); assumption.
    + rows_norm. rewrite Hrows. split; [apply prefix_nil|discriminate].
  - wp_step. wp_step.
    eapply wp_mono; [apply Hrest; wsimpl; exact Hk|]. cbv beta.
    intros r w2 t2 [Hpre Hok]. unfold log_post. wsimpl.
    split; [exact Hpre|]. intros Hr. destruct (Hok Hr) as (Hrw & Hi2 & He2 & Hs2 & Hev).
    split; [exact Hrw|]. repeat split; assumption.
Qed.

Lemma log_post_and {A} rows (E F : world -> Prop) (m : M A) w :
  wp m w (log_post rows E) -> wp m w (fun _ w' _ => F w') ->
  wp m w (log_post rows (fun w' => E w' /\ F w')).
Proof.
  intros H1 H2. eapply wp_mono; [exact (wp_and _ _ _ _ H1 H2)|]. cbv beta.
  intros r w' t [[Hpre Hok] HF]. split; [exact Hpre|].
  intros Hr. destruct (Hok Hr). auto.
Qed.

Lemma train_batches_effect cfg it l : forall step k w,
  w_iteration w = Some k ->
  wp (train_batches cfg it step l) w
    (log_post (map (fun i => (i + 1, w_epoch w)) (seqZ k (Z.of_nat (length l))))
       (fun w' =>
          w_iteration w' = Some (k + Z.of_nat (length l)) /\ w_epoch w' = w_epoch w /\
          w_step w' = match l with [] => w_step w | _ => step + Z.of_nat (length l) end /\
          evolves (batches_update l) w w')).
Proof.
  induction l as [|b l IH]; intros step k w Hk; cbn [train_batches].
  - wp_step. rows_norm. split; [reflexivity|]. intros _. split; [reflexivity|].
    split; [rewrite Hk; f_equal; cbn; lia|]. split; [reflexivity|]. split; [reflexivity|].
    apply evolves_same; reflexivity.
  - rewrite (seqZ_cons k) by (cbn [length]; lia). cbn [map].
    change ((k + 1, w_epoch w) :: ?r) with ([(k + 1, w_epoch w)] ++ r).
    eapply log_post_bind; [apply (train_batch_effect cfg it step b k w Hk)|].
    cbv beta. intros _ w1 (Hi1 & He1 & Hs1 & Hev1).
    pose proof (IH (step + 1) (k + 1) w1 Hi1) as H. rewrite He1 in H.
    replace (Z.succ k) with (k + 1) by lia.
    replace (Z.pred (Z.of_nat (length (b :: l)))) with (Z.of_nat (length l))
      by (cbn [length]; lia).
    eapply log_post_mono; [exact H|]. cbv beta.
    intros w2 (Hi2 & He2 & Hs2 & Hev2).
    split; [rewrite Hi2; f_equal; cbn [length]; lia|]. split; [exact He2|].
    split.
    + rewrite Hs2. destruct l; cbn [length]; lia.
    + exact (evolves_trans _ _ _ _ _ Hev1 Hev2).
Qed.

Lemma end_of_epoch_effect cfg e w :
  wp (end_of_epoch cfg e) w
    (log_post [] (fun w' =>
       w_iteration w' = w_iteration w /\ w_epoch w' = w_epoch w /\ w_step w' = w_step w /\
       evolves scheduler_update w w')).
Proof.
  pose proof state_kept_step_rel as HP.
  assert (Hsave : always state_kept
            match save_interval cfg with
            | Some si =>
                bind (py_mod (e + 1) si) (fun r =>
                  if Z.eqb r 0 then
                    bind (save_state ("_epoch_" +:+ str_of_int (e + 1))) (fun _ => ret tt)
                  else ret tt)
            | None => ret tt
            end).
  { always_auto. }
  assert (Hrest : forall w1,
            w_iteration w1 = w_iteration w -> w_epoch w1 = w_epoch w ->
            w_step w1 = w_step w -> evolves scheduler_update w w1 ->
            wp match save_interval cfg with
               | Some si =>
                   bind (py_mod (e + 1) si) (fun r =>
                     if Z.eqb r 0 then
                       bind (save_state ("_epoch_" +:+ str_of_int (e + 1))) (fun _ => ret tt)
                     else ret tt)
               | None => ret tt
               end w1
              (log_post [] (fun w' =>
                 w_iteration w' = w_iteration w /\ w_epoch w' = w_epoch w /\
                 w_step w' = w_step w /\ evolves scheduler_update w w'))).
  { intros w1 Hi He Hs Hev. eapply wp_mono; [apply Hsave|]. cbv beta.
    intros r w2 t2 (Hw2 & Ho2 & Hs2 & Hi2 & He2 & Hst2 & Hrows).
    unfold log_post. rewrite Hrows. split; [reflexivity|]. intros _.
    split; [reflexivity|]. repeat split; try congruence.
    intros opt Ho. specialize (Hev opt Ho).
    destruct (scheduler_update (w_scheduler w, opt, w_weights w)) as [[sch o] ws].
    destruct Hev as (H1 & H2 & H3). repeat split; congruence. }
  unfold end_of_epoch. do 2 wp_step. wp_step.
  destruct (w_scheduler w) as [sc|] eqn:Hsc.
  - do 2 wp_step. wp_step. destruct (w_optimizer w) as [opt|] eqn:Ho.
    + wp_step. cbv beta iota.
      destruct (scheduler_step sc opt) as [sc' opt'] eqn:Hss. wp_step.
      eapply wp_mono; [apply Hrest; try reflexivity|].
      * intros o Hoo. rewrite Ho in Hoo. injection Hoo as <-.
        cbn [scheduler_update]. rewrite Hsc, Hss. repeat split.
      * cbv beta. intros r w2 t2 H. exact H.
    + wp_step. rows_norm. split; [apply prefix_nil|discriminate].
  - wp_step.
    eapply wp_mono; [apply Hrest; try reflexivity|].
    * intros o Hoo. cbn [scheduler_update]. rewrite Hsc. repeat split. exact Hoo.
    * cbv beta. intros r w2 t2 H. exact H.
Qed.

Lemma train_epoch_effect cfg it e k l w :
  w_iteration w = Some k ->
  w_loaders w !! "train" = Some l ->
  wp (train_epoch cfg it e) w
    (log_post (map (fun i => (i + 1, e)) (seqZ k (Z.of_nat (length l))))
       (fun w' =>
          w_iteration w' = Some (k + Z.of_nat (length l)) /\ w_epoch w' = e /\
          w_step w' = Z.of_nat (length l) /\ evolves (epoch_update l) w w')).
Proof.
  intros Hk Hl. unfold train_epoch. do 4 wp_step. rewrite Hl. cbv beta iota.
  do 2 wp_step.
  rewrite <- (app_nil_r (map _ _)).
  eapply log_post_bind.
  - apply (train_batches_effect cfg it l 0 k). wsimpl. exact Hk.
  - cbv beta. wsimpl. intros _ w1 (Hi1 & He1 & Hs1 & Hev1).
    eapply log_post_mono; [apply end_of_epoch_effect|]. cbv beta.
    intros w2 (Hi2 & He2 & Hs2 & Hev2).
    split; [congruence|]. split; [congruence|]. split.
    + rewrite Hs2, Hs1. destruct l; cbn [length]; lia.
    + exact (evolves_trans _ _ _ _ _ Hev1 Hev2).
Qed.

Lemma train_log_spec_app L a n1 n2 :
  train_log_spec L a (n1 + n2) =
  train_log_spec L a n1 ++ train_log_spec L (a + Z.of_nat n1) n2.
Proof.
  unfold train_log_spec. rewrite Nat2Z.inj_add, seqZ_app by lia. apply map_app.
Qed.

Lemma train_log_spec_epoch e n :
  train_log_spec (Z.of_nat n) (e * Z.of_nat n) n =
  map (fun i => (i + 1, e)) (seqZ (e * Z.of_nat n) (Z.of_nat n)).
Proof.
  unfold train_log_spec. apply map_ext_in. intros i Hi.
  apply list_elem_of_In, elem_of_seqZ in Hi. f_equal.
  symmetry. apply (Z.div_unique_pos i (Z.of_nat n) e (i - e * Z.of_nat n)); lia.
Qed.

Lemma train_epochs_effect cfg it l n : forall e w,
  w_iteration w = Some (e * Z.of_nat (length l)) ->
  w_loaders w !! "train" = Some l ->
  wp (train_epochs cfg it e n) w
    (log_post (train_log_spec (Z.of_nat (length l)) (e * Z.of_nat (length l))
                 (n * length l))
       (fun w' =>
          w_iteration w' = Some ((e + Z.of_nat n) * Z.of_nat (length l)) /\
          w_epoch w' = match n with O => w_epoch w | _ => e + Z.of_nat n - 1 end /\
          w_step w' = match n with O => w_step w | _ => Z.of_nat (length l) end /\
          evolves (Nat.iter n (epoch_update l)) w w')).
Proof.
  induction n as [|n IH]; intros e w Hk Hl; cbn [train_epochs].
  - wp_step. rows_norm. split; [reflexivity|]. intros _. split; [reflexivity|].
    split; [rewrite Hk; f_equal; lia|]. split; [reflexivity|]. split; [reflexivity|].
    apply evolves_same; reflexivity.
  - cbn [Nat.mul]. rewrite train_log_spec_app, train_log_spec_epoch.
    eapply log_post_bind.
    + apply log_post_and; [apply (train_epoch_effect cfg it e _ l w Hk Hl)|].
      eapply wp_mono; [apply setup_kept_train_epoch|]. cbv beta.
      intros r w1 t1 (_ & _ & _ & _ & Hld). exact Hld.
    + cbv beta. intros _ w1 [(Hi1 & He1 & Hs1 & Hev1) Hld1].
      assert (Hk1 : w_iteration w1 = Some ((e + 1) * Z.of_nat (length l))).
      { rewrite Hi1. f_equal. lia. }
      assert (Hl1 : w_loaders w1 !! "train" = Some l) by (rewrite Hld1; exact Hl).
      replace (e * Z.of_nat (length l) + Z.of_nat (length l))
        with ((e + 1) * Z.of_nat (length l)) by lia.
      eapply log_post_mono; [apply (IH (e + 1) w1 Hk1 Hl1)|]. cbv beta.
      intros w2 (Hi2 & He2 & Hs2 & Hev2).
      split; [rewrite Hi2; f_equal; lia|]. split.
      { rewrite He2, He1. destruct n; lia. }
      split.
      { rewrite Hs2, Hs1. destruct n; reflexivity. }
      eapply evolves_ext; [|exact (evolves_trans _ _ _ _ _ Hev1 Hev2)].
      intros st. cbv beta. symmetry. apply Nat.iter_succ_r.
Qed.

Lemma train_effect cfg l w :
  w_loaders w !! "train" = Some l ->
  wp (train cfg) w
    (log_post (train_log_spec (Z.of_nat (length l)) 0 (Z.to_nat (epochs cfg) * length l))
       (fun w' =>
          w_iteration w' =
            Some (Z.of_nat (Z.to_nat (epochs cfg)) * Z.of_nat (length l)) /\
          w_epoch w' = match Z.to_nat (epochs cfg) with
                       | O => 0
                       | _ => Z.of_nat (Z.to_nat (epochs cfg)) - 1
                       end /\
          w_step w' = match Z.to_nat (epochs cfg) with
                      | O => 0
                      | _ => Z.of_nat (length l)
                      end /\
          evolves (Nat.iter (Z.to_nat (epochs cfg)) (epoch_update l)) w w')).
Proof.
  intros Hl. unfold train. do 12 wp_step.
  destruct (w_loaders w !! "validation") as [vld|]; cbv beta iota.
  2:{ rows_norm. split; [apply prefix_nil|discriminate]. }
  do 2 wp_step.
  eapply log_post_mono.
  - apply (train_epochs_effect cfg _ l (Z.to_nat (epochs cfg)) 0); wsimpl;
      [reflexivity|exact Hl].
  - cbv beta. wsimpl. intros w' (Hi & He & Hs & Hev).
    split; [rewrite Hi; f_equal; lia|]. split; [rewrite He; destruct (Z.to_nat _); lia|].
    split; [exact Hs|]. exact Hev.
Qed.

(** X13.  What a completed run of [train] has made of the model: starting
    with an optimizer, it has applied the optimizer step once for every
    batch of the training loader, in the order of the loader, for every
    epoch in turn, the scheduler (if there is one) making its step after the
    batches of each epoch; the validations in between have changed nothing of
    it. *)
Theorem train_updates_model cfg (w : world) opt l :
  w_optimizer w = Some opt ->
  w_loaders w !! "train" = Some l ->
  is_ok (result_of (train cfg) w) = true ->
  let w' := world_of (train cfg) w in
  let '(sch, opt', ws) :=
    Nat.iter (Z.to_nat (epochs cfg)) (epoch_update l) (w_scheduler w, opt, w_weights w) in
  w_scheduler w' = sch /\ w_optimizer w' = Some opt' /\ w_weights w' = ws.
Proof.
  intros Ho Hl Hok w'.
  destruct (proj1 (wp_run _ _ _) (train_effect cfg l w Hl)) as [_ H].
  destruct (H Hok) as (_ & _ & _ & _ & Hev). exact (Hev opt Ho).
Qed.

(** X14.  The counters after a completed run of [train]: [self.iteration]
    is the number of batches trained, [epochs * len(train_loader)], whatever
    it was before (a restored count does not survive the start of [train]);
    [self.epoch] is the index of the last epoch and [self.step] the number of
    batches of an epoch; with no epoch to run the three are 0. *)
Theorem train_counters_after_run cfg (w : world) l :
  w_loaders w !! "train" = Some l ->
  is_ok (result_of (train cfg) w) = true ->
  let w' := world_of (train cfg) w in
  w_iteration w' = Some (Z.max 0 (epochs cfg) * Z.of_nat (length l)) /\
  (0 < epochs cfg -> w_epoch w' = epochs cfg - 1 /\ w_step w' = Z.of_nat (length l)) /\
  (epochs cfg <= 0 -> w_epoch w' = 0 /\ w_step w' = 0).
Proof.
  intros Hl Hok w'.
  destruct (proj1 (wp_run _ _ _) (train_effect cfg l w Hl)) as [_ H].
  destruct (H Hok) as (_ & Hi & He & Hs & _). fold w' in Hi, He, Hs.
  split; [rewrite Hi; f_equal; lia|]. split.
  - intros Hpos. destruct (Z.to_nat (epochs cfg)) eqn:E; [lia|].
    split; [rewrite He; lia|exact Hs].
  - intros Hneg. destruct (Z.to_nat (epochs cfg)) eqn:E; [auto|lia].
Qed.

(** X15.  The training log of a run of [train] has one row per batch
    trained, in order: the row of the batch number [i] of the run (counted
    from 0) holds iteration [i + 1] and epoch [i // len(train_loader)].  A
    completed run has the rows of all [epochs * len(train_loader)] batches, a
    run stopped by an exception the rows of the batches before it. *)
Theorem train_log_row_per_batch cfg (w : world) :
  let rows := train_log_rows (trace_of (train cfg) w) in
  let spec := train_log_spec (Z.of_nat (train_len w)) 0
                (Z.to_nat (epochs cfg) * train_len w) in
  rows `prefix_of` spec /\
  (is_ok (result_of (train cfg) w) = true -> rows = spec).
Proof.
  intros rows spec. unfold rows, spec, train_len.
  destruct (w_loaders w !! "train") as [l|] eqn:Hl.
  - destruct (proj1 (wp_run _ _ _) (train_effect cfg l w Hl)) as [Hpre H].
    split; [exact Hpre|]. intros Hok. apply (H Hok).
  - rewrite Nat.mul_0_r. cbn [train_log_spec].
    assert (H : wp (train cfg) w (fun _ _ t => train_log_rows t = [])).
    { unfold train. do 12 wp_step.
      destruct (w_loaders w !! "validation") as [vld|]; cbv beta iota; [|reflexivity].
      do 2 wp_step.
      destruct (Z.to_nat (epochs cfg)) as [|n]; cbn [train_epochs].
      - wp_step. reflexivity.
      - wp_step. unfold train_epoch. do 4 wp_step. rewrite Hl. reflexivity. }
    apply (proj1 (wp_run _ _ _)) in H. rewrite H. split; [reflexivity|auto].
Qed.

(** ** How a run of [train] begins and how it fails *)

Lemma train_without_validation_loader cfg (w : world) :
  w_loaders w !! "validation" = None ->
  train cfg w =
  (Err (KeyError "validation"), train_reset w, [EvRaise (KeyError "validation")]).
Proof.
  intros Hv. unfold train, get_loader, bind, modify, gets. cbn [ret].
  unfold train_reset. wsimpl. rewrite Hv. reflexivity.
Qed.

Lemma train_start cfg (w : world) vld :
  w_loaders w !! "validation" = Some vld ->
  train cfg w =
  match train_epochs cfg (length (w_heap w)) 0 (Z.to_nat (epochs cfg))
          (at_first_epoch w vld) with
  | (r, w', t) => (r, w', EvIter (length (w_heap w)) :: t)
  end.
Proof.
  intros Hv. unfold train, get_loader, bind, modify, gets, py_iter. cbn [ret].
  unfold at_first_epoch, train_reset. wsimpl. rewrite Hv. cbn [ret].
  destruct (train_epochs _ _ _ _ _) as [[r w'] t]. reflexivity.
Qed.

Lemma at_first_epoch_fields (w : world) vld :
  w_iteration (at_first_epoch w vld) = Some 0 /\
  w_rank (at_first_epoch w vld) = w_rank w /\
  w_weights (at_first_epoch w vld) = w_weights w /\
  w_optimizer (at_first_epoch w vld) = w_optimizer w /\
  w_loaders (at_first_epoch w vld) = w_loaders w.
Proof. repeat split. Qed.

Lemma at_first_batch_fields (w : world) vld :
  w_iteration (at_first_batch w vld) = Some 0 /\
  w_epoch (at_first_batch w vld) = 0 /\
  w_rank (at_first_batch w vld) = w_rank w /\
  w_weights (at_first_batch w vld) = w_weights w /\
  w_optimizer (at_first_batch w vld) = w_optimizer w /\
  w_files (at_first_batch w vld) = w_files w.
Proof. repeat split. Qed.

(** A run whose first batch raises ends there. *)
Lemma train_fails_in_first_batch cfg (w : world) vld b rest e w' t :
  0 < epochs cfg ->
  w_loaders w !! "validation" = Some vld ->
  w_loaders w !! "train" = Some (b :: rest) ->
  train_batch cfg (length (w_heap w)) 0 b (at_first_batch w vld) = (Err e, w', t) ->
  train cfg w = (Err e, w', EvIter (length (w_heap w)) :: t).
Proof.
  intros Hep Hv Ht Hb. rewrite (train_start cfg w vld Hv).
  destruct (Z.to_nat (epochs cfg)) as [|n] eqn:Hn; [lia|].
  cbn [train_epochs]. unfold bind at 1. unfold train_epoch.
  unfold bind at 1. unfold modify at 1. unfold bind at 1.
  unfold get_loader, bind at 1. unfold gets at 1. cbn [ret].
  destruct (at_first_epoch_fields w vld) as (_ & _ & _ & _ & Hld).
  change (w_loaders (set_epoch 0 (at_first_epoch w vld)))
    with (w_loaders (at_first_epoch w vld)).
  rewrite Hld, Ht. cbn [ret].
  unfold bind at 1. unfold modify at 1. unfold bind at 1.
  cbn [train_batches]. unfold bind at 1.
  fold (at_first_batch w vld). rewrite Hb. reflexivity.
Qed.

(** X16.  Before the first epoch.  [train] resets the counters and the best
    validation loss first; without a "validation" loader it then raises
    KeyError, whatever [epochs] is; with one and no epoch to run it returns
    having done nothing but create the validation iterator; and with an
    epoch to run but no "train" loader it raises KeyError at the start of the
    first epoch. *)
Theorem train_before_first_epoch cfg (w : world) :
  (w_loaders w !! "validation" = None ->
   train cfg w =
   (Err (KeyError "validation"), train_reset w, [EvRaise (KeyError "validation")])) /\
  (forall vld,
     w_loaders w !! "validation" = Some vld ->
     epochs cfg <= 0 ->
     train cfg w = (Ok tt, at_first_epoch w vld, [EvIter (length (w_heap w))])) /\
  (forall vld,
     w_loaders w !! "validation" = Some vld ->
     0 < epochs cfg ->
     w_loaders w !! "train" = None ->
     train cfg w =
     (Err (KeyError "train"), set_epoch 0 (at_first_epoch w vld),
      [EvIter (length (w_heap w)); EvRaise (KeyError "train")])).
Proof.
  split; [apply train_without_validation_loader|]. split.
  - intros vld Hv Hep. rewrite (train_start cfg w vld Hv).
    replace (Z.to_nat (epochs cfg)) with 0%nat by lia. reflexivity.
  - intros vld Hv Hep Ht.
    rewrite (train_start cfg w vld Hv).
    destruct (Z.to_nat (epochs cfg)) as [|n] eqn:Hn; [lia|].
    cbn [train_epochs]. unfold bind at 1. unfold train_epoch.
    unfold bind at 1. unfold modify at 1. unfold bind at 1.
    unfold get_loader, bind at 1. unfold gets at 1. cbn [ret].
    destruct (at_first_epoch_fields w vld) as (_ & _ & _ & _ & Hld).
    change (w_loaders (set_epoch 0 (at_first_epoch w vld)))
      with (w_loaders (at_first_epoch w vld)).
    rewrite Hld, Ht. reflexivity.
Qed.

(** X17.  A zero [val_interval] does not switch validation off: the first
    batch computes [self.iteration % val_interval], so a run with a batch to
    train raises ZeroDivisionError before any validation, forward pass or
    save. *)
Theorem train_zero_val_interval cfg (w : world) vld b rest :
  val_interval cfg = 0 ->
  0 < epochs cfg ->
  w_loaders w !! "validation" = Some vld ->
  w_loaders w !! "train" = Some (b :: rest) ->
  exists w',
    train cfg w =
    (Err ZeroDivisionError, w', [EvIter (length (w_heap w)); EvRaise ZeroDivisionError]) /\
    w_weights w' = w_weights w /\ w_files w' = w_files w /\ w_iteration w' = Some 0.
Proof.
  intros Hvi Hep Hv Ht.
  destruct (wp_run_ex (train_batch cfg (length (w_heap w)) 0 b) (at_first_batch w vld)
              (Err ZeroDivisionError) [EvRaise ZeroDivisionError]
              (fun w' => w_weights w' = w_weights w /\ w_files w' = w_files w /\
                         w_iteration w' = Some 0)) as (w' & Hb & HP).
  { destruct (at_first_batch_fields w vld) as (Hi0 & _ & _ & Hw0 & _ & Hf0).
    revert Hi0 Hw0 Hf0. generalize (at_first_batch w vld). intros w0 Hi0 Hw0 Hf0.
    unfold train_batch. do 5 wp_step. rewrite Hi0. cbv beta iota. do 2 wp_step.
    apply wp_py_mod; intros H0; [|contradiction].
    repeat split; assumption. }
  exists w'. split; [|exact HP].
  exact (train_fails_in_first_batch cfg w vld b rest _ _ _ Hep Hv Ht Hb).
Qed.

(** X18.  A zero [num_val_batches] stops the run in its first validation:
    no batch is fetched, the model is put back in training mode, and the
    division of the summed loss by [num_val_batches] raises
    ZeroDivisionError. *)
Theorem train_zero_num_val_batches cfg (w : world) vld b rest :
  num_val_batches cfg = 0 ->
  val_interval cfg <> 0 ->
  0 < epochs cfg ->
  w_loaders w !! "validation" = Some vld ->
  w_loaders w !! "train" = Some (b :: rest) ->
  exists w',
    train cfg w =
    (Err ZeroDivisionError, w',
     [EvIter (length (w_heap w)); EvValidate (length (w_heap w)) 0;
      EvRaise ZeroDivisionError]) /\
    w_training w' = true /\ w_weights w' = w_weights w /\ w_files w' = w_files w.
Proof.
  intros Hn Hvi Hep Hv Ht.
  destruct (wp_run_ex (train_batch cfg (length (w_heap w)) 0 b) (at_first_batch w vld)
              (Err ZeroDivisionError)
              [EvValidate (length (w_heap w)) 0; EvRaise ZeroDivisionError]
              (fun w' => w_training w' = true /\ w_weights w' = w_weights w /\
                         w_files w' = w_files w)) as (w' & Hb & HP).
  { destruct (at_first_batch_fields w vld) as (Hi0 & _ & _ & Hw0 & _ & Hf0).
    revert Hi0 Hw0 Hf0. generalize (at_first_batch w vld). intros w0 Hi0 Hw0 Hf0.
    unfold train_batch. do 5 wp_step. rewrite Hi0. cbv beta iota. do 2 wp_step.
    apply wp_py_mod; intros H0; [contradiction|].
    rewrite Z.mod_0_l by exact Hvi. cbn [Z.eqb]. cbv iota.
    wp_step. unfold validate, validate_local. rewrite Hn.
    cbn [Z.to_nat validate_loop]. do 6 wp_step. rewrite Hi0. cbv beta iota.
    wp_steps; try congruence. repeat split; assumption. }
  exists w'. split; [|exact HP].
  exact (train_fails_in_first_batch cfg w vld b rest _ _ _ Hep Hv Ht Hb).
Qed.

Lemma fails_bind {A B} (m : M A) (f : A -> M B) w :
  (forall a w1, wp (f a) w1 (fun r _ _ => is_ok r = false)) ->
  wp (bind m f) w (fun r _ _ => is_ok r = false).
Proof.
  intros Hf. apply wp_bind. eapply wp_mono; [apply wp_true|]. cbv beta.
  intros [a|e] w1 t1 _; [apply Hf|reflexivity].
Qed.

Lemma fails_bind_rank {A B} (m : M A) (f : A -> M B) w :
  always setup_kept m ->
  w_rank w = 0 ->
  (forall a w1, w_rank w1 = 0 -> wp (f a) w1 (fun r _ _ => is_ok r = false)) ->
  wp (bind m f) w (fun r _ _ => is_ok r = false).
Proof.
  intros Hm Hr Hf. apply wp_bind. eapply wp_mono; [apply Hm|]. cbv beta.
  intros [a|e] w1 t1 (_ & Hr1 & _); [|reflexivity].
  apply Hf. congruence.
Qed.

(** On rank 0 a zero [report_interval] makes every batch end in an error. *)
Lemma train_batch_report_zero cfg it step b w :
  w_rank w = 0 ->
  report_interval cfg = 0 ->
  wp (train_batch cfg it step b) w (fun r _ _ => is_ok r = false).
Proof.
  intros Hr Hrep. unfold train_batch.
  repeat lazymatch goal with
    | |- wp (bind (gets w_rank) _) _ _ => fail
    | |- wp (bind _ _) _ _ =>
        eapply fails_bind_rank;
          [solve [pose proof setup_kept_step_rel; always_auto; setup_leaf]
          |assumption
          |intros ? ? ?]
    end.
  do 2 wp_step.
  match goal with H : w_rank ?w1 = 0 |- wp _ ?w1 _ => rewrite H end.
  cbn [Z.eqb]. cbv iota. wp_step. rewrite Hrep. unfold py_mod. cbn [Z.eqb].
  reflexivity.
Qed.

(** X19.  On rank 0 a zero [report_interval] stops the run at its first
    batch: after the batch has been trained and its row recorded,
    [self.iteration % report_interval] raises ZeroDivisionError (on the
    other ranks the remainder is never computed).  So the run raises, with
    at most the one row of iteration 1 in its training log. *)
Theorem train_zero_report_interval cfg (w : world) vld b rest :
  w_rank w = 0 ->
  report_interval cfg = 0 ->
  0 < epochs cfg ->
  w_loaders w !! "validation" = Some vld ->
  w_loaders w !! "train" = Some (b :: rest) ->
  is_ok (result_of (train cfg) w) = false /\
  train_log_rows (trace_of (train cfg) w) `prefix_of` [(1, 0)].
Proof.
  intros Hr Hrep Hep Hv Ht.
  assert (Hb : exists e w' t,
            train_batch cfg (length (w_heap w)) 0 b (at_first_batch w vld) = (Err e, w', t) /\
            train_log_rows t `prefix_of` [(1, 0)]).
  { destruct (at_first_batch_fields w vld) as (Hi0 & He0 & Hr0 & _).
    rewrite Hr in Hr0. revert Hi0 He0 Hr0.
    generalize (at_first_batch w vld). generalize (length (w_heap w)).
    intros it w0 Hi0 He0 Hr0.
    pose proof (train_batch_report_zero cfg it 0 b w0 Hr0 Hrep) as Hfail.
    pose proof (train_batch_effect cfg it 0 b 0 w0 Hi0) as [Hpre _]%wp_run.
    apply (proj1 (wp_run _ _ _)) in Hfail. unfold result_of, trace_of in *.
    rewrite He0 in Hpre.
    destruct (train_batch cfg it 0 b w0) as [[[a|e] w'] t]; [discriminate|].
    eauto. }
  destruct Hb as (e & w' & t & Hb & Hpre). unfold result_of, trace_of.
  rewrite (train_fails_in_first_batch cfg w vld b rest e w' t Hep Hv Ht Hb).
  split; [reflexivity|exact Hpre].
Qed.

Lemma train_fails_in_first_epoch cfg (w : world) vld e w' t :
  0 < epochs cfg ->
  w_loaders w !! "validation" = Some vld ->
  train_epoch cfg (length (w_heap w)) 0 (at_first_epoch w vld) = (Err e, w', t) ->
  train cfg w = (Err e, w', EvIter (length (w_heap w)) :: t).
Proof.
  intros Hep Hv He. rewrite (train_start cfg w vld Hv).
  destruct (Z.to_nat (epochs cfg)) as [|n] eqn:Hn; [lia|].
  cbn [train_epochs]. unfold bind at 1. rewrite He. reflexivity.
Qed.

Lemma train_epoch_save_zero cfg it e w :
  save_interval cfg = Some 0 ->
  wp (train_epoch cfg it e) w (fun r _ _ => is_ok r = false).
Proof.
  intros Hsi. unfold train_epoch, end_of_epoch.
  do 6 (apply fails_bind; intros ? ?).
  rewrite Hsi. wp_step. unfold py_mod. cbn [Z.eqb]. reflexivity.
Qed.

(** X20.  A [save_interval] of zero stops the run at the end of its first
    epoch: the batches of the epoch are trained, the scheduler makes its
    step, and then [(self.epoch+1) % save_interval] raises
    ZeroDivisionError; no batch of a second epoch is trained. *)
Theorem train_zero_save_interval cfg (w : world) vld l :
  save_interval cfg = Some 0 ->
  0 < epochs cfg ->
  w_loaders w !! "validation" = Some vld ->
  w_loaders w !! "train" = Some l ->
  is_ok (result_of (train cfg) w) = false /\
  train_log_rows (trace_of (train cfg) w) `prefix_of`
    train_log_spec (Z.of_nat (length l)) 0 (length l).
Proof.
  intros Hsi Hep Hv Ht.
  assert (He : exists e w' t,
            train_epoch cfg (length (w_heap w)) 0 (at_first_epoch w vld) = (Err e, w', t) /\
            train_log_rows t `prefix_of`
              map (fun i => (i + 1, 0)) (seqZ 0 (Z.of_nat (length l)))).
  { destruct (at_first_epoch_fields w vld) as (Hi0 & _ & _ & _ & Hl0).
    rewrite <- Hl0 in Ht. clear Hl0. revert Hi0 Ht.
    generalize (at_first_epoch w vld). generalize (length (w_heap w)).
    intros it w0 Hi0 Hl0.
    pose proof (train_epoch_save_zero cfg it 0 w0 Hsi) as Hfail.
    pose proof (train_epoch_effect cfg it 0 0 l w0 Hi0 Hl0) as [Hpre _]%wp_run.
    apply (proj1 (wp_run _ _ _)) in Hfail. unfold result_of, trace_of in *.
    destruct (train_epoch cfg it 0 w0) as [[[a|e] w'] t]; [discriminate|].
    eauto. }
  destruct He as (e & w' & t & He & Hpre). unfold result_of, trace_of.
  rewrite (train_fails_in_first_epoch cfg w vld e w' t Hep Hv He).
  split; [reflexivity|].
  pose proof (train_log_spec_epoch 0 (length l)) as Hspec.
  rewrite Z.mul_0_l in Hspec. rewrite Hspec. exact Hpre.
Qed.

Lemma model_kept_step_rel : step_rel model_kept.
Proof.
  split.
  - intros w. repeat split.
  - intros ok w w1 w2 t1 t2 (?&?&E1) (?&?&E2).
    repeat split; try congruence. rewrite train_log_rows_app, E1, E2. reflexivity.
  - intros w e. repeat split.
Qed.

Lemma state_model_kept {A} (m : M A) : always state_kept m -> always model_kept m.
Proof.
  intros Hm w. eapply wp_mono; [apply Hm|]. cbv beta.
  intros r w' t (Hw & Ho & _ & _ & _ & _ & Hr). repeat split; assumption.
Qed.

Ltac model_leaf :=
  first [ solve [repeat split]
        | let E1 := fresh "E" in let E2 := fresh "F" in
          intros (?&?&E1) (?&?&E2); repeat split; try congruence;
          rewrite train_log_rows_app, E1; exact E2 ].

Lemma model_kept_validate it nvb ck : always model_kept (validate it nvb ck).
Proof. apply state_model_kept, state_kept_validate. Qed.

Lemma model_kept_forward tr : always model_kept (forward tr).
Proof. apply state_model_kept, state_kept_forward. Qed.

#[local] Hint Resolve model_kept_validate model_kept_forward : always.

Lemma untrained_bind {A B} (m : M A) (f : A -> M B) w :
  always model_kept m ->
  (forall a w1, w_optimizer w1 = None ->
     wp (f a) w1 (fun r w' t => is_ok r = false /\ model_kept false w1 w' t)) ->
  w_optimizer w = None ->
  wp (bind m f) w (fun r w' t => is_ok r = false /\ model_kept false w w' t).
Proof.
  intros Hm Hf Hnone. apply wp_bind. eapply wp_mono; [apply Hm|]. cbv beta.
  intros [a|e] w1 t1 (Hw & Ho & Hr).
  - eapply wp_mono; [apply (Hf a w1); congruence|]. cbv beta.
    intros r w2 t2 [Hfail (Hw2 & Ho2 & Hr2)]. split; [exact Hfail|].
    repeat split; try congruence. rewrite train_log_rows_app, Hr, Hr2. reflexivity.
  - split; [reflexivity|]. repeat split; assumption.
Qed.

(** Without an optimizer a batch is not trained. *)
Lemma train_batch_untrained cfg it step b w :
  w_optimizer w = None ->
  wp (train_batch cfg it step b) w (fun r w' t =>
    is_ok r = false /\ model_kept false w w' t).
Proof.
  intros Hnone. unfold train_batch.
  repeat lazymatch goal with
    | |- wp (bind backward _) _ _ => fail
    | |- wp (bind _ _) _ _ =>
        eapply untrained_bind;
          [solve [pose proof model_kept_step_rel; always_auto; model_leaf]
          | |assumption];
          intros ? ? ?
    end.
  wp_step.
  match goal with
  | H : w_optimizer ?w1 = None |- wp backward ?w1 _ =>
      eapply wp_of_run; [rewrite backward_run, H; reflexivity|]
  end.
  split; [reflexivity|]. repeat split.
Qed.


(** ** The processes other than rank 0 *)

Lemma worker_kept_step_rel : step_rel worker_kept.
Proof.
  split.
  - intros w. split; [reflexivity|]. intros _. split; [reflexivity|constructor].
  - intros ok w w1 w2 t1 t2 [R1 H1] [R2 H2]. split; [congruence|].
    intros Hr. destruct (H1 Hr) as [B1 F1].
    destruct H2 as [B2 F2]; [congruence|].
    split; [congruence|]. apply Forall_app. auto.
  - intros w e. split; [reflexivity|]. intros _. split; [reflexivity|].
    repeat constructor.
Qed.

Ltac worker_leaf :=
  first [ solve [split; [reflexivity|]; intros _; split; [reflexivity|];
                 repeat constructor]
        | let R1 := fresh "R" in let H1 := fresh "H" in
          let R2 := fresh "R" in let H2 := fresh "H" in
          let Hr := fresh "Hr" in
          let B1 := fresh "B" in let F1 := fresh "F" in
          let B2 := fresh "B" in let F2 := fresh "F" in
          intros [R1 H1] [R2 H2]; split; [congruence|];
          intros Hr; destruct (H1 Hr) as [B1 F1];
          destruct H2 as [B2 F2]; [congruence|];
          split; [congruence|];
          apply Forall_app; split; [exact F1|]; constructor; [exact I|exact F2] ].

Lemma worker_kept_py_iter ld : always worker_kept (py_iter ld).
Proof. intros w. worker_leaf. Qed.

Lemma worker_kept_py_next it : always worker_kept (py_next it).
Proof.
  intros w. unfold wp, py_next.
  destruct (w_heap w !! it) as [[|b rest]|]; worker_leaf.
Qed.

#[local] Hint Resolve worker_kept_py_iter worker_kept_py_next : always.

Lemma worker_kept_forward tr : always worker_kept (forward tr).
Proof. pose proof worker_kept_step_rel. unfold forward. always_auto; worker_leaf. Qed.

Lemma worker_kept_backward : always worker_kept backward.
Proof. pose proof worker_kept_step_rel. unfold backward. always_auto; worker_leaf. Qed.

Lemma worker_kept_get_synchronized_metrics d :
  always worker_kept (get_synchronized_metrics d).
Proof.
  pose proof worker_kept_step_rel.
  induction d as [|[k v] d IH]; cbn [get_synchronized_metrics]; unfold all_gather;
    always_auto; worker_leaf.
Qed.

#[local] Hint Resolve worker_kept_forward worker_kept_backward
  worker_kept_get_synchronized_metrics : always.

Lemma worker_kept_validate_loop n : forall it vl va,
  always worker_kept (validate_loop n it vl va).
Proof.
  pose proof worker_kept_step_rel.
  induction n as [|n IH]; intros it vl va; cbn [validate_loop];
    unfold validate_batch, fetch_val_batch; always_auto; worker_leaf.
Qed.

#[local] Hint Resolve worker_kept_validate_loop : always.

Lemma worker_kept_validate_local it nvb : always worker_kept (validate_local it nvb).
Proof. pose proof worker_kept_step_rel. unfold validate_local. always_auto; worker_leaf. Qed.

#[local] Hint Resolve worker_kept_validate_local : always.

Lemma setup_kept_validate_record k d ck : always setup_kept (validate_record k d ck).
Proof.
  pose proof setup_kept_step_rel. unfold validate_record. always_auto; setup_leaf.
Qed.

(** Only rank 0 goes on to record the validation. *)
Lemma worker_kept_record k gm ck :
  always worker_kept
    (bind (gets w_rank) (fun rank =>
       if Z.eqb rank 0 then validate_record k gm ck else ret tt)).
Proof.
  intros w. do 2 wp_step.
  destruct (Z.eqb_spec (w_rank w) 0) as [H0|H0].
  - eapply wp_mono; [apply setup_kept_validate_record|]. cbv beta.
    intros r w' t (_ & Hr & _). split; [exact Hr|]. contradiction.
  - wp_step. split; [reflexivity|]. intros _. split; [reflexivity|constructor].
Qed.

Lemma worker_kept_validate it nvb ck : always worker_kept (validate it nvb ck).
Proof.
  pose proof worker_kept_step_rel as HP. unfold validate.
  apply always_bind; [exact HP|apply worker_kept_validate_local|].
  intros [[k ll] la]. cbv zeta.
  apply always_bind; [exact HP|apply always_gets; exact HP|intros dist].
  apply always_bind; [exact HP|destruct dist; always_auto|intros gm].
  apply worker_kept_record.
Qed.

#[local] Hint Resolve worker_kept_validate : always.

Lemma worker_kept_save_epoch n :
  always worker_kept (save_state ("_epoch_" +:+ str_of_int n)).
Proof.
  intros w. apply wp_save_state.
  destruct (w_iteration w), (w_optimizer w); try worker_leaf.
  split; [reflexivity|]. intros _. split; [reflexivity|].
  constructor; [|constructor]. exists n. reflexivity.
Qed.

#[local] Hint Resolve worker_kept_save_epoch : always.

Lemma worker_kept_train_batch cfg it step b : always worker_kept (train_batch cfg it step b).
Proof.
  pose proof worker_kept_step_rel. unfold train_batch. always_auto; worker_leaf.
Qed.

#[local] Hint Resolve worker_kept_train_batch : always.

Lemma worker_kept_train_batches cfg it l : forall step,
  always worker_kept (train_batches cfg it step l).
Proof.
  pose proof worker_kept_step_rel.
  induction l as [|b l IH]; intros step; cbn [train_batches]; always_auto.
Qed.

Lemma worker_kept_end_of_epoch cfg e : always worker_kept (end_of_epoch cfg e).
Proof.
  pose proof worker_kept_step_rel. unfold end_of_epoch. always_auto; worker_leaf.
Qed.

#[local] Hint Resolve worker_kept_train_batches worker_kept_end_of_epoch : always.

Lemma worker_kept_train_epoch cfg it e : always worker_kept (train_epoch cfg it e).
Proof.
  pose proof worker_kept_step_rel. unfold train_epoch. always_auto; worker_leaf.
Qed.

#[local] Hint Resolve worker_kept_train_epoch : always.

Lemma worker_kept_train_epochs cfg it n : forall e,
  always worker_kept (train_epochs cfg it e n).
Proof.
  pose proof worker_kept_step_rel.
  induction n as [|n IH]; intros e; cbn [train_epochs]; always_auto.
Qed.

Lemma train_as_worker cfg w :
  w_rank w <> 0 ->
  wp (train cfg) w (fun _ w' t =>
    Forall worker_event t /\ w_best w' = init_best_validation_loss).
Proof.
  intros Hr. unfold train. do 12 wp_step.
  destruct (w_loaders w !! "validation") as [vld|]; cbv beta iota.
  2:{ split; [repeat constructor|reflexivity]. }
  do 2 wp_step.
  eapply wp_mono; [apply worker_kept_train_epochs|]. cbv beta.
  intros r w' t [_ H]. wsimpl. destruct (H Hr) as [Hb Hf].
  split; [|exact Hb]. constructor; [exact I|exact Hf].
Qed.

(** X22.  What the processes other than rank 0 do in a run of [train]:
    they record no validation and never save the "BEST" or the latest
    checkpoint, so their [best_validation_loss] stays at 1.0e10; but the
    epoch checkpoints of [save_interval] are not guarded by the rank, and
    every process writes them. *)
Theorem train_on_other_ranks cfg (w : world) :
  w_rank w <> 0 ->
  Forall worker_event (trace_of (train cfg) w) /\
  w_best (world_of (train cfg) w) = init_best_validation_loss.
Proof.
  intros Hr. exact (proj1 (wp_run _ _ _) (train_as_worker cfg w Hr)).
Qed.

(** ** The checkpoints of a validation *)

Lemma files_kept_step_rel : step_rel files_kept.
Proof.
  split.
  - intros w. split; reflexivity.
  - intros ok w w1 w2 t1 t2 [F1 B1] [F2 B2]. split; congruence.
  - intros w e. split; reflexivity.
Qed.

Ltac files_leaf :=
  first [ solve [split; reflexivity]
        | intros [? ?] [? ?]; split; congruence ].

Lemma files_kept_py_iter ld : always files_kept (py_iter ld).
Proof. intros w. split; reflexivity. Qed.

Lemma files_kept_py_next it : always files_kept (py_next it).
Proof.
  intros w. unfold wp, py_next.
  destruct (w_heap w !! it) as [[|b rest]|]; split; reflexivity.
Qed.

#[local] Hint Resolve files_kept_py_iter files_kept_py_next : always.

Lemma files_kept_forward tr : always files_kept (forward tr).
Proof. pose proof files_kept_step_rel. unfold forward. always_auto; files_leaf. Qed.

Lemma files_kept_get_synchronized_metrics d :
  always files_kept (get_synchronized_metrics d).
Proof.
  pose proof files_kept_step_rel.
  induction d as [|[k v] d IH]; cbn [get_synchronized_metrics]; unfold all_gather;
    always_auto; files_leaf.
Qed.

#[local] Hint Resolve files_kept_forward files_kept_get_synchronized_metrics : always.

Lemma files_kept_validate_loop n : forall it vl va,
  always files_kept (validate_loop n it vl va).
Proof.
  pose proof files_kept_step_rel.
  induction n as [|n IH]; intros it vl va; cbn [validate_loop];
    unfold validate_batch, fetch_val_batch; always_auto; files_leaf.
Qed.

#[local] Hint Resolve files_kept_validate_loop : always.

Lemma files_kept_validate_local it nvb : always files_kept (validate_local it nvb).
Proof. pose proof files_kept_step_rel. unfold validate_local. always_auto; files_leaf. Qed.

Lemma checkpoint_filename_same (w w' : world) name :
  w_dirpath w' = w_dirpath w -> w_model_name w' = w_model_name w ->
  checkpoint_filename w' name = checkpoint_filename w name.
Proof. intros Hd Hm. unfold checkpoint_filename. rewrite Hd, Hm. reflexivity. Qed.

Lemma best_latest_ne (w : world) : checkpoint_filename w "" <> checkpoint_filename w "BEST".
Proof. intros H. apply checkpoint_filename_inj in H. discriminate H. Qed.

(** What rank 0 has written when its record is made. *)
Lemma validate_record_files k gm ck it opt (w : world) :
  w_iteration w = Some it ->
  w_optimizer w = Some opt ->
  wp (validate_record k gm ck) w (fun r w' t =>
    is_ok r = true ->
    let d := CkptFile (checkpoint_dict it opt (w_weights w)) in
    ((w_best w' < w_best w)%Q ->
       w_files w' !! checkpoint_filename w "BEST" = Some d) /\
    (ck = true -> w_files w' !! checkpoint_filename w "" = Some d) /\
    (~ (w_best w' < w_best w)%Q ->
       w_files w' !! checkpoint_filename w "BEST" =
       w_files w !! checkpoint_filename w "BEST") /\
    (~ (w_best w' < w_best w)%Q -> ck = false -> w_files w' = w_files w)).
Proof.
  intros Hit Hopt. pose proof (best_latest_ne w) as Hne.
  unfold validate_record.
  wp_step. apply wp_dict_get; [intros gl|discriminate].
  wp_step. apply wp_dict_get; [intros ga|discriminate].
  do 5 wp_step.
  pose proof (Qltb_lt (np_mean gl) (w_best w)) as Hiff.
  destruct (Qltb (np_mean gl) (w_best w)) eqn:Hlt.
  - assert (Hless : (np_mean gl < w_best w)%Q) by (apply Hiff; reflexivity).
    destruct ck;
      repeat (first [wp_step | rewrite Hit, Hopt; cbv beta iota]); try congruence;
      intros _; cbv zeta;
      change (checkpoint_filename (set_best (np_mean gl) w)) with (checkpoint_filename w).
    + split; [|split; [|split]].
      * intros _. rewrite lookup_insert_ne by exact Hne. apply lookup_insert_eq.
      * intros _. apply lookup_insert_eq.
      * intros Hn. contradiction.
      * intros Hn. contradiction.
    + split; [|split; [|split]].
      * intros _. apply lookup_insert_eq.
      * discriminate.
      * intros Hn. contradiction.
      * intros Hn. contradiction.
  - assert (Hnot : ~ (w_best w < w_best w)%Q) by apply Qlt_irrefl.
    destruct ck;
      repeat (first [wp_step | rewrite Hit, Hopt; cbv beta iota]); try congruence;
      intros _; cbv zeta.
    + split; [|split; [|split]].
      * intros Hl. contradiction.
      * intros _. apply lookup_insert_eq.
      * intros _. apply lookup_insert_ne. exact Hne.
      * discriminate.
    + split; [|split; [|split]]; auto.
      * intros Hl. contradiction.
      * discriminate.
Qed.

Lemma validate_files it nvb ck k opt (w : world) :
  w_iteration w = Some k ->
  w_optimizer w = Some opt ->
  w_rank w = 0 ->
  wp (validate it nvb ck) w (fun r w' t =>
    is_ok r = true ->
    let d := CkptFile (checkpoint_dict k opt (w_weights w)) in
    ((w_best w' < w_best w)%Q ->
       w_files w' !! checkpoint_filename w "BEST" = Some d) /\
    (ck = true -> w_files w' !! checkpoint_filename w "" = Some d) /\
    (~ (w_best w' < w_best w)%Q ->
       w_files w' !! checkpoint_filename w "BEST" =
       w_files w !! checkpoint_filename w "BEST") /\
    (~ (w_best w' < w_best w)%Q -> ck = false -> w_files w' = w_files w)).
Proof.
  intros Hit Hopt Hr. unfold validate. apply wp_bind.
  eapply wp_mono;
    [exact (wp_and _ _ _ _ (setup_kept_validate_local it nvb w)
              (wp_and _ _ _ _ (state_kept_validate_local it nvb w)
                 (files_kept_validate_local it nvb w)))|].
  cbv beta.
  intros [[[k' ll] la]|e] w1 t1
    [(Hd1 & Hr1 & Hm1 & Hdist1 & _) [(Hw1 & Ho1 & _ & Hi1 & _) [Hf1 Hb1]]];
    [|discriminate].
  do 2 wp_step. wp_step.
  assert (Hmid : forall d,
            always setup_kept (if (w_distributed w1 : bool)
                               then get_synchronized_metrics d else ret d) /\
            always state_kept (if (w_distributed w1 : bool)
                               then get_synchronized_metrics d else ret d) /\
            always files_kept (if (w_distributed w1 : bool)
                               then get_synchronized_metrics d else ret d)).
  { intros d. pose proof setup_kept_step_rel. pose proof state_kept_step_rel.
    pose proof files_kept_step_rel.
    destruct (w_distributed w1); repeat split; always_auto. }
  match goal with
  | |- wp (if _ then get_synchronized_metrics ?d else _) _ _ =>
      destruct (Hmid d) as (Ha & Hb & Hc)
  end.
  eapply wp_mono; [exact (wp_and _ _ _ _ (Ha w1) (wp_and _ _ _ _ (Hb w1) (Hc w1)))|].
  cbv beta.
  intros [gm|e] w2 t2
    [(Hd2 & Hr2 & Hm2 & _) [(Hw2 & Ho2 & _ & Hi2 & _) [Hf2 Hb2]]];
    [|discriminate].
  do 2 wp_step. rewrite Hr2, Hr1, Hr. cbn [Z.eqb]. cbv iota.
  assert (Hit2 : w_iteration w2 = Some k) by congruence.
  assert (Hopt2 : w_optimizer w2 = Some opt) by congruence.
  eapply wp_mono; [apply (validate_record_files k' gm ck k opt w2 Hit2 Hopt2)|].
  cbv beta zeta. intros r w3 t3 H3 Hok. specialize (H3 Hok).
  assert (Hname : forall name, checkpoint_filename w2 name = checkpoint_filename w name).
  { intros name. apply checkpoint_filename_same; congruence. }
  rewrite !Hname in H3.
  replace (w_best w2) with (w_best w) in H3 by congruence.
  replace (w_files w2) with (w_files w) in H3 by congruence.
  replace (w_weights w2) with (w_weights w) in H3 by congruence.
  exact H3.
Qed.

(** X23.  The checkpoints a validation writes hold the state of that moment.
    After a [validate] that returned on rank 0, with an optimizer: if the
    best validation loss went down, the "BEST" file holds the present
    weights, optimizer state and iteration count, and otherwise the "BEST"
    file is left as it was; with checkpointing on, the latest file (empty
    suffix) holds that state too, so that after an improving validation the
    two files have the same content; and without improvement or
    checkpointing no file is written. *)
Theorem validate_checkpoints_hold_state it nvb ck k opt (w : world) :
  w_iteration w = Some k ->
  w_optimizer w = Some opt ->
  w_rank w = 0 ->
  is_ok (result_of (validate it nvb ck) w) = true ->
  let w' := world_of (validate it nvb ck) w in
  let d := CkptFile (checkpoint_dict k opt (w_weights w)) in
  ((w_best w' < w_best w)%Q ->
     w_files w' !! checkpoint_filename w "BEST" = Some d) /\
  (ck = true -> w_files w' !! checkpoint_filename w "" = Some d) /\
  (~ (w_best w' < w_best w)%Q ->
     w_files w' !! checkpoint_filename w "BEST" =
     w_files w !! checkpoint_filename w "BEST") /\
  (~ (w_best w' < w_best w)%Q -> ck = false -> w_files w' = w_files w).
Proof.
  intros Hit Hopt Hr Hok w' d.
  exact (proj1 (wp_run _ _ _) (validate_files it nvb ck k opt w Hit Hopt Hr) Hok).
Qed.

(** ** How [evaluate] fails *)

Lemma gradient_or_raise_no_forward t :
  Forall is_gradient_or_raise t -> val_forwards t = [].
Proof.
  induction 1 as [|ev t Hev _ IH]; [reflexivity|].
  destruct ev; cbn [val_forwards flat_map app]; try exact IH; destruct Hev.
Qed.

Lemma lrp_loop_frame n current_model data its lrp rel w :
  wp (lrp_loop (S n) current_model data its lrp rel) w (fun r w' t =>
    (exists e, r = Err e) /\ w' = w /\ Forall is_gradient_or_raise t).
Proof.
  cbn [lrp_loop]. wp_step.
  eapply wp_mono; [apply epsilonAlpha2Beta1_frame|]. cbv beta.
  intros [[out attribution]|e] w' t [-> Ht].
  - destruct (py_extend_at_array out its (PNd out)) as [e He].
    wp_step. rewrite He. wp_auto.
    split; [eauto|]. split; [reflexivity|].
    apply Forall_app. split; [exact Ht|]. repeat constructor.
  - eauto.
Qed.

(** The first batch of the test set is the last one looked at. *)
Lemma evaluate_loop_first b rest st w :
  wp (evaluate_loop (b :: rest) st) w (fun r w' t =>
    (exists e, r = Err e) /\
    w_training w' = w_training w /\ w_weights w' = w_weights w /\
    w_optimizer w' = w_optimizer w /\ w_iteration w' = w_iteration w /\
    (length (val_forwards t) <= 1)%nat).
Proof.
  cbn [evaluate_loop]. do 4 wp_step. wp_step.
  eapply wp_mono; [apply forward_shape|]. cbv beta.
  intros [res|e] w' t [Hw Ht]; subst t.
  2:{ split; [eauto|]. destruct Hw as [->|[l ->]]; repeat split; cbn; lia. }
  assert (Hf : w_training w' = w_training w /\ w_weights w' = w_weights w /\
               w_optimizer w' = w_optimizer w /\ w_iteration w' = w_iteration w).
  { destruct Hw as [->|[l ->]]; repeat split. }
  do 2 wp_step.
  wp_step. wp_step.
  destruct (py_extend (ev_lrp_output st) (PList [PList []])) as [lrp0|e].
  2:{ split; [eauto|]. destruct Hf as (?&?&?&?). repeat split; try assumption. cbn. lia. }
  wp_step. wp_step.
  destruct (py_extend (ev_relevance st) (PList [PList []])) as [rel0|e].
  2:{ split; [eauto|]. destruct Hf as (?&?&?&?). repeat split; try assumption. cbn. lia. }
  wp_step.
  eapply wp_mono; [apply lrp_loop_frame|]. cbv beta.
  intros r w'' t ([e ->] & -> & Ht).
  split; [eauto|]. destruct Hf as (?&?&?&?). repeat split; try assumption.
  cbn [app]. change (EvForward false (loss res) (accuracy res) :: t)
    with ([EvForward false (loss res) (accuracy res)] ++ t).
  rewrite val_forwards_app, (gradient_or_raise_no_forward t Ht). cbn. lia.
Qed.

Lemma evaluate_frame w :
  wp evaluate w (fun r w' t =>
    w_training w' = false /\ w_weights w' = w_weights w /\
    w_optimizer w' = w_optimizer w /\ w_iteration w' = w_iteration w /\
    (length (val_forwards t) <= 1)%nat).
Proof.
  unfold evaluate. do 4 wp_step.
  destruct (w_loaders w !! "test") as [[|b rest]|]; cbv beta iota.
  - wp_step. cbn [evaluate_loop]. wp_step.
    cbn [eval_loss eval_acc eval_iterations]. wp_step.
    apply wp_py_div; intros H0; [|congruence].
    repeat split. cbn. lia.
  - wp_step. eapply wp_mono; [apply evaluate_loop_first|]. cbv beta.
    intros r w' t ([e ->] & Ht & Hw & Ho & Hi & Hn). wsimpl. auto.
  - repeat split. cbn. lia.
Qed.

(** X24.  How [evaluate] ends.  Without a "test" loader it raises KeyError
    and with an empty test set ZeroDivisionError (the averages are taken over
    zero iterations), having done nothing but put the model in evaluation
    mode.  In every case the model is left in evaluation mode, the weights,
    the optimizer and the iteration counter are untouched, and at most one
    batch of the test set has been passed forward. *)
Theorem evaluate_failure_modes (w : world) :
  (w_loaders w !! "test" = None ->
   evaluate w = (Err (KeyError "test"), set_training false w, [EvRaise (KeyError "test")])) /\
  (w_loaders w !! "test" = Some [] ->
   evaluate w = (Err ZeroDivisionError, set_training false w, [EvRaise ZeroDivisionError])) /\
  (let w' := world_of evaluate w in
   w_training w' = false /\ w_weights w' = w_weights w /\
   w_optimizer w' = w_optimizer w /\ w_iteration w' = w_iteration w) /\
  (length (val_forwards (trace_of evaluate w)) <= 1)%nat.
Proof.
  split; [|split].
  - intros Ht. apply wp_run_eq. unfold evaluate. do 4 wp_step. rewrite Ht.
    repeat split.
  - intros Ht. apply wp_run_eq. unfold evaluate. do 4 wp_step. rewrite Ht.
    cbv beta iota. wp_step. cbn [evaluate_loop]. wp_step.
    cbn [eval_loss eval_acc eval_iterations]. wp_step.
    apply wp_py_div; intros H0; [|congruence]. repeat split.
  - pose proof (proj1 (wp_run _ _ _) (evaluate_frame w)) as (H1 & H2 & H3 & H4 & H5).
    repeat split; assumption.
Qed.

(** ** Attribution during evaluation *)

Lemma wp_result {A} (m : M A) w : wp m w (fun r _ _ => r = result_of m w).
Proof. apply wp_run. reflexivity. Qed.

Lemma gradient_targets_app t1 t2 :
  gradient_targets (t1 ++ t2) = gradient_targets t1 ++ gradient_targets t2.
Proof. unfold gradient_targets. apply flat_map_app. Qed.

Lemma gradient_targets_raise t e :
  gradient_targets (t ++ [EvRaise e]) = gradient_targets t.
Proof. rewrite gradient_targets_app. cbn. apply app_nil_r. Qed.

(** Line 460 on an array: no row at that index, or a row without [extend]. *)
Lemma py_extend_at_array_error a i x :
  py_extend_at (PNd a) i x = Err (AttributeError "extend") \/
  py_extend_at (PNd a) i x = Err IndexError.
Proof.
  unfold py_extend_at, py_getitem. destruct a as [q|l]; [right; reflexivity|].
  destruct (l !! Z.to_nat i); cbn; auto.
Qed.

(** The class loop returns when the attributor does for each of its targets. *)
Lemma attribution_loop_returns c mk model data n : forall i tout trel w,
  (forall j, i <= j < i + Z.of_nat n ->
     is_ok (gradient_attributor c model data (mk j)) = true) ->
  wp (attribution_loop c mk model data i n tout trel) w (fun r _ _ => is_ok r = true).
Proof.
  induction n as [|n IH]; intros i tout trel w H; cbn [attribution_loop].
  - wp_auto. reflexivity.
  - pose proof (H i ltac:(lia)) as Hi.
    wp_auto.
    + eapply wp_mono; [apply IH; intros j Hj; apply H; lia|]. cbv beta. auto.
    + discriminate Hi.
Qed.

Lemma epsilonAlpha2Beta1_targets model data w :
  wp (epsilonAlpha2Beta1 model data) w (fun r w' t =>
    match r with
    | Ok _ => gradient_targets t = class_targets data
    | Err e => exists k, (k < 4)%nat /\
                 gradient_targets t = take (S k) (class_targets data)
    end).
Proof.
  unfold epsilonAlpha2Beta1. wp_step.
  eapply wp_mono; [apply attribution_loop_trace|]. cbv beta.
  intros [[tout trel]|e] w1 t1 Ht.
  - subst t1. wp_auto. reflexivity.
  - destruct Ht as (k & Hk & ->). exists k. split; [exact Hk|].
    destruct k as [|[|[|[|k]]]]; [reflexivity..|lia].
Qed.

Lemma epsilonAlpha2Beta1_returns model data w :
  (forall target, target ∈ class_targets data ->
     is_ok (gradient_attributor EpsilonAlpha2Beta1 model data target) = true) ->
  wp (epsilonAlpha2Beta1 model data) w (fun r _ _ => is_ok r = true).
Proof.
  intros H. unfold epsilonAlpha2Beta1. wp_step.
  eapply wp_mono; [apply attribution_loop_returns|].
  - intros j Hj. apply H. apply list_elem_of_In. unfold class_targets. cbn [map In].
    assert (Hj' : j = 0 \/ j = 1 \/ j = 2 \/ j = 3) by lia.
    destruct Hj' as [->|[->|[->| ->]]]; auto 6.
  - cbv beta. intros [[tout trel]|e] w1 t1 Hok; [|discriminate].
    wp_auto. reflexivity.
Qed.

(** One call of the routine inside [evaluate]: it attributes the batch, class
    after class, and leaves the engine alone. *)
Lemma epsilonAlpha2Beta1_run model data w :
  wp (epsilonAlpha2Beta1 model data) w (fun r w' t =>
    w' = w /\ Forall is_gradient_or_raise t /\
    gradient_targets t `prefix_of` class_targets data /\
    (is_ok r = true -> gradient_targets t = class_targets data) /\
    ((forall target, target ∈ class_targets data ->
        is_ok (gradient_attributor EpsilonAlpha2Beta1 model data target) = true) ->
     is_ok r = true)).
Proof.
  apply wp_run.
  pose proof (proj1 (wp_run _ _ _) (epsilonAlpha2Beta1_frame model data w)) as [Hw Hev].
  pose proof (proj1 (wp_run _ _ _) (epsilonAlpha2Beta1_targets model data w)) as Ht.
  split; [exact Hw|]. split; [exact Hev|].
  split; [|split].
  - destruct (result_of (epsilonAlpha2Beta1 model data) w) as [res|e].
    + rewrite Ht. reflexivity.
    + destruct Ht as (k & _ & ->). apply prefix_take.
  - destruct (result_of (epsilonAlpha2Beta1 model data) w) as [res|e];
      [auto|discriminate].
  - intros H. exact (proj1 (wp_run _ _ _) (epsilonAlpha2Beta1_returns model data w H)).
Qed.

(** The first round of [for i in range(4)]: the routine is called, and line
    460 raises on what it returned. *)
Lemma lrp_loop_attribution n current_model data its lrp rel w :
  wp (lrp_loop (S n) current_model data its lrp rel) w (fun r w' t =>
    (exists e, r = Err e) /\
    gradient_targets t `prefix_of` class_targets data /\
    ((forall target, target ∈ class_targets data ->
        is_ok (gradient_attributor EpsilonAlpha2Beta1 current_model data target) = true) ->
     gradient_targets t = class_targets data /\
     (r = Err (AttributeError "extend") \/ r = Err IndexError))).
Proof.
  cbn [lrp_loop]. wp_step.
  eapply wp_mono; [apply epsilonAlpha2Beta1_run|]. cbv beta.
  intros [[out attribution]|e] w' t (-> & Hev & Hpre & Hfull & Hret).
  - wp_step. apply wp_lift.
    destruct (py_extend_at_array_error out its (PNd out)) as [He|He]; rewrite He;
      cbv beta iota; rewrite gradient_targets_raise;
      (split; [eauto|]); (split; [exact Hpre|]); intros _; (split; [auto|]); auto.
  - split; [eauto|]. split; [exact Hpre|].
    intros H. specialize (Hret H). discriminate.
Qed.

Lemma evaluate_loop_attribution b rest st w l1 l2 :
  ev_lrp_output st = PList l1 ->
  ev_relevance st = PList l2 ->
  wp (evaluate_loop (b :: rest) st) w (fun r w' t =>
    (exists e, r = Err e) /\
    gradient_targets t `prefix_of` class_targets (b_data b) /\
    (is_ok (result_of (forward false)
              (set_labels (Some (b_labels b)) (set_data (Some (b_data b)) w))) = true ->
     (forall target, target ∈ class_targets (b_data b) ->
        is_ok (gradient_attributor EpsilonAlpha2Beta1 (w_weights w) (b_data b) target)
        = true) ->
     gradient_targets t = class_targets (b_data b) /\
     (r = Err (AttributeError "extend") \/ r = Err IndexError))).
Proof.
  intros H1 H2. cbn [evaluate_loop]. apply wp_bind, wp_modify. apply wp_bind, wp_modify.
  apply wp_bind.
  eapply wp_mono; [apply (wp_and _ _ _ _ (forward_shape false _) (wp_result _ _))|].
  cbv beta. intros [res|e] w' t [[Hw Ht] Hr]; subst t.
  2:{ split; [eauto|]. split; [apply prefix_nil|].
      intros Hf. rewrite <- Hr in Hf. discriminate. }
  assert (Hws : w_weights w' = w_weights w) by (destruct Hw as [->|[l ->]]; reflexivity).
  clear Hr Hw.
  apply wp_bind, wp_gets. rewrite Hws.
  apply wp_bind. rewrite H1. cbn [py_extend py_items]. apply wp_lift.
  apply wp_bind. rewrite H2. cbn [py_extend py_items]. apply wp_lift.
  apply wp_bind.
  eapply wp_mono; [apply lrp_loop_attribution|]. cbv beta.
  intros r w'' t ([e ->] & Hpre & Hfull).
  cbn [app].
  change (gradient_targets (EvForward false (loss res) (accuracy res) :: t))
    with (gradient_targets t).
  split; [eauto|]. split; [exact Hpre|].
  intros _ Hattr. destruct (Hfull Hattr) as [Hg [[= ->]|[= ->]]]; auto.
Qed.

(** C3.  [evaluate] attributes the first batch of the test set and no other:
    the gradient-attribution context manager is entered, at most, for the
    four classes of the first batch, in order, and then the run raises
    (line 460, see C4); when the forward pass of the first batch and the
    four attributions return, the invocations are exactly the one per class
    of the first batch.  So on a test set of two or more batches the
    invocations are never those of one per class for every batch. *)
Theorem evaluate_attributes_first_batch_only (w : world) b rest :
  w_loaders w !! "test" = Some (b :: rest) ->
  let t := trace_of evaluate w in
  let data := b_data b in
  (exists e, result_of evaluate w = Err e) /\
  gradient_targets t `prefix_of` class_targets data /\
  (rest <> [] ->
   gradient_targets t <> flat_map (fun b' => class_targets (b_data b')) (b :: rest)) /\
  (is_ok (result_of (forward false)
            (set_labels (Some (b_labels b))
               (set_data (Some data) (set_training false w)))) = true ->
   (forall target, target ∈ class_targets data ->
      is_ok (gradient_attributor EpsilonAlpha2Beta1 (w_weights w) data target) = true) ->
   gradient_targets t = class_targets data /\
   (result_of evaluate w = Err (AttributeError "extend") \/
    result_of evaluate w = Err IndexError)).
Proof.
  intros Hl t data.
  assert (Hrun : (exists e, result_of evaluate w = Err e) /\
    gradient_targets t `prefix_of` class_targets data /\
    (is_ok (result_of (forward false)
              (set_labels (Some (b_labels b))
                 (set_data (Some data) (set_training false w)))) = true ->
     (forall target, target ∈ class_targets data ->
        is_ok (gradient_attributor EpsilonAlpha2Beta1 (w_weights w) data target) = true) ->
     gradient_targets t = class_targets data /\
     (result_of evaluate w = Err (AttributeError "extend") \/
      result_of evaluate w = Err IndexError))).
  { subst t data.
    apply (proj1 (wp_run evaluate w (fun r w' t =>
      (exists e, r = Err e) /\
      gradient_targets t `prefix_of` class_targets (b_data b) /\
      (is_ok (result_of (forward false)
                (set_labels (Some (b_labels b))
                   (set_data (Some (b_data b)) (set_training false w)))) = true ->
       (forall target, target ∈ class_targets (b_data b) ->
          is_ok (gradient_attributor EpsilonAlpha2Beta1 (w_weights w) (b_data b) target)
          = true) ->
       gradient_targets t = class_targets (b_data b) /\
       (r = Err (AttributeError "extend") \/ r = Err IndexError))))).
    unfold evaluate. apply wp_bind, wp_modify. apply wp_bind, wp_get_loader.
    change (w_loaders (set_training false w)) with (w_loaders w). rewrite Hl.
    apply wp_bind.
    eapply wp_mono;
      [apply (evaluate_loop_attribution b rest _ (set_training false w) [] []);
       reflexivity|].
    cbv beta. intros r w' t0 ([e ->] & Hpre & Hfull).
    cbn [app]. split; [eauto|]. split; [exact Hpre|].
    intros Hf Hattr. destruct (Hfull Hf Hattr) as [Hg [[= ->]|[= ->]]]; auto. }
  destruct Hrun as (Herr & Hpre & Hfull).
  split; [exact Herr|]. split; [exact Hpre|]. split; [|exact Hfull].
  intros Hrest Heq. destruct rest as [|b2 rest']; [congruence|].
  apply prefix_length in Hpre. rewrite Heq in Hpre.
  cbn [flat_map] in Hpre. rewrite !length_app in Hpre.
  unfold class_targets in Hpre. cbn [map length] in Hpre. lia.
Qed.

(** ** Configuration *)

Lemma configure_data_loaders_cons label_set map_labels name lc rest (w : world) :
  configure_data_loaders label_set map_labels ((name, lc) :: rest) w =
  match lc with
  | Err e => (Err e, w, [EvRaise e])
  | Ok loader =>
      configure_data_loaders label_set map_labels rest
        (match label_set with
         | Some ls =>
             set_loaders (<[name := map_labels ls loader]>
                            (<[name := loader]> (w_loaders w)))
               (set_loaders (<[name := loader]> (w_loaders w)) w)
         | None => set_loaders (<[name := loader]> (w_loaders w)) w
         end)
  end.
Proof.
  cbn [configure_data_loaders]. unfold bind at 1.
  destruct lc as [loader|e]; [|reflexivity]. cbn [lift ret].
  unfold bind at 1. unfold modify at 1. unfold bind at 1.
  destruct label_set as [ls|].
  - unfold modify at 1.
    destruct (configure_data_loaders (Some ls) map_labels rest _) as [[r w'] t].
    reflexivity.
  - cbn [ret].
    destruct (configure_data_loaders None map_labels rest _) as [[r w'] t].
    reflexivity.
Qed.

(** X25.  [configure_data_loaders] puts every loader of the config under
    its name: after a call that returned, for a config whose names are
    distinct, each name holds the loader made from its config, with the
    labels mapped when the engine has a label set, every other name holds
    what it held before, and nothing else of the engine has changed. *)
Theorem configure_data_loaders_sets_loaders label_set map_labels loaders_config :
  forall (w w' : world) t,
  NoDup (map fst loaders_config) ->
  configure_data_loaders label_set map_labels loaders_config w = (Ok tt, w', t) ->
  t = [] /\
  (forall name lc, (name, lc) ∈ loaders_config ->
     exists loader,
       lc = Ok loader /\
       w_loaders w' !! name =
       Some (match label_set with
             | Some ls => map_labels ls loader
             | None => loader
             end)) /\
  (forall name, name ∉ map fst loaders_config ->
     w_loaders w' !! name = w_loaders w !! name) /\
  w_weights w' = w_weights w /\ w_optimizer w' = w_optimizer w /\
  w_iteration w' = w_iteration w /\ w_files w' = w_files w.
Proof.
  induction loaders_config as [|[name lc] rest IH]; intros w w' t Hnd Hrun.
  - injection Hrun as <- <-. split; [reflexivity|]. split.
    + intros name lc Hin. apply elem_of_nil in Hin. destruct Hin.
    + repeat split.
  - rewrite configure_data_loaders_cons in Hrun.
    destruct lc as [loader|e]; [|discriminate].
    cbn [map fst] in Hnd. apply NoDup_cons in Hnd as [Hnotin Hnd].
    destruct (IH _ _ _ Hnd Hrun) as (Ht & Hin & Hout & Hw & Ho & Hi & Hf).
    assert (Hhere : w_loaders w' !! name =
                    Some (match label_set with
                          | Some ls => map_labels ls loader
                          | None => loader
                          end)).
    { rewrite (Hout name Hnotin). destruct label_set; cbn; apply lookup_insert_eq. }
    split; [exact Ht|]. split; [|split].
    + intros n lc Hin'. apply elem_of_cons in Hin' as [[= -> ->]|Hin'].
      * exists loader. split; [reflexivity|exact Hhere].
      * apply (Hin n lc Hin').
    + intros n Hn. cbn [map fst] in Hn. apply not_elem_of_cons in Hn as [Hne Hn].
      rewrite (Hout n Hn).
      destruct label_set; cbn; rewrite ?lookup_insert_ne by congruence; reflexivity.
    + destruct label_set; cbn in Hw, Ho, Hi, Hf; auto.
Qed.

(** X26.  Restoring a checkpoint and saving again writes the same
    checkpoint: on an engine with an optimizer, after
    [restore_state_from_file] of a file that [save_state] wrote, a
    [save_state] under any suffix succeeds and the file it writes has the
    content of the file restored from. *)
Theorem restore_then_save_same_checkpoint weight_file name it opt ws (w : world) :
  w_files w !! weight_file = Some (CkptFile (checkpoint_dict it opt ws)) ->
  w_optimizer w <> None ->
  exists w1 w2 fname,
    restore_state_from_file weight_file w = (Ok tt, w1, []) /\
    save_state name w1 = (Ok fname, w2, [EvSave name fname]) /\
    fname = checkpoint_filename w name /\
    w_files w2 !! fname = w_files w !! weight_file.
Proof.
  intros Hf Ho. rewrite (restore_checkpoint_dict _ _ _ _ _ Hf).
  destruct (w_optimizer w) as [o|] eqn:Hopt; [|congruence].
  eexists _, _, _. split; [reflexivity|].
  rewrite save_state_run. wsimpl. split; [reflexivity|]. split; [reflexivity|].
  wsimpl. rewrite Hf. apply lookup_insert_eq.
Qed.

End Properties.

(** * The properties at work on the small engine *)

Lemma checkpoint_roundtrip_witness :
  let w := set_iteration (Some 5) (toy_world 1 0) in
  exists w3 t3,
    restore_state_from_file "out/ResNetBEST.pth" (world_of (save_state "BEST") w)
      = (Ok tt, w3, t3) /\
    w_weights w3 = w_weights w /\
    w_iteration w3 = w_iteration w /\
    (w_optimizer (world_of (save_state "BEST") w) <> None ->
     w_optimizer w3 = w_optimizer w) /\
    (w_optimizer (world_of (save_state "BEST") w) = None -> w_optimizer w3 = None).
Proof.
  intros w.
  apply (@checkpoint_roundtrip (toy_framework 1) "BEST" w
           (world_of (save_state "BEST") w) (world_of (save_state "BEST") w)
           "out/ResNetBEST.pth" (trace_of (save_state "BEST") w)).
  - vm_compute. reflexivity.
  - reflexivity.
Defined.

Lemma best_validation_loss_is_minimum_witness :
  let w := toy_world (1 # 2) 0 in
  let t := trace_of (train toy_config) w in
  (exists r best,
     nth_error t 14 = Some (EvValLog r best) /\
     best = running_min init_best_validation_loss
              (logged_losses (take 14 t) ++ [vr_loss r]) /\
     vr_saved_best r = 1) /\
  w_best (world_of (train toy_config) w) =
  running_min init_best_validation_loss (logged_losses t).
Proof.
  intros w t.
  pose proof (@best_validation_loss_is_minimum (toy_framework (1 # 2)) toy_config w)
    as [Hrec Hend].
  split.
  - eexists _, _. split; [vm_compute; reflexivity|].
    edestruct (Hrec (take 14 t)) as (Hb & _ & Hs & _); [vm_compute; reflexivity|].
    split; [exact Hb|]. apply Hs. vm_compute. reflexivity.
  - apply (Hend tt). vm_compute. reflexivity.
Defined.

(** With two test batches, [evaluate] enters the gradient-attribution
    context manager for the four classes of the first batch and never for
    the second. *)
Lemma evaluate_attributes_first_batch_only_witness :
  let w := toy_world 1 0 in
  w_loaders w !! "test" = Some [toy_batch 5; toy_batch 6] /\
  gradient_targets (trace_of evaluate w) = class_targets (b_data (toy_batch 5)) /\
  gradient_targets (trace_of evaluate w) <>
  flat_map (fun b' => class_targets (b_data b')) [toy_batch 5; toy_batch 6].
Proof.
  intros w.
  pose proof (@evaluate_attributes_first_batch_only (toy_framework 1) w (toy_batch 5)
                [toy_batch 6] eq_refl) as H.
  cbv zeta in H. destruct H as (_ & _ & Hne & Hfull).
  split; [reflexivity|]. split.
  - apply Hfull; [vm_compute; reflexivity|]. intros target _. reflexivity.
  - apply Hne. discriminate.
Defined.

Lemma evaluate_never_saves_at_toy :
  result_of evaluate (toy_world 1 0) = Err (AttributeError "extend") /\
  w_files (world_of evaluate (toy_world 1 0)) = ∅.
Proof. split; vm_compute; reflexivity. Qed.

Lemma validate_recovers_only_exhaustion_witness :
  let w := world_of (py_iter []) (toy_world 1 0) in
  fetch_val_batch 0%nat w =
  (Ok (1%nat, toy_batch 3), set_heap (w_heap w ++ [[toy_batch 4]]) w,
   [EvNext 0 0; EvRaise StopIteration; EvCaught StopIteration; EvIter 1; EvNext 1 2]).
Proof.
  intros w.
  apply (proj1 (@validate_recovers_only_exhaustion (toy_framework 1)) 0%nat w
           (toy_batch 3) [toy_batch 4]).
  - reflexivity.
  - reflexivity.
Defined.

(** C5, as stated, fails: with an empty validation loader the StopIteration
    of [next(val_iter)] is caught, a new iterator is created, and the fetch
    from it raises StopIteration again, which reaches the caller of
    [train]. *)
Lemma empty_validation_loader_counterexample :
  let w := toy_world_on (<["validation" := []]> toy_loaders) 1 0 in
  result_of (train toy_config) w = Err StopIteration /\
  trace_of (train toy_config) w =
  [EvIter 0; EvValidate 0 0; EvNext 0 0; EvRaise StopIteration;
   EvCaught StopIteration; EvIter 1; EvNext 1 0; EvRaise StopIteration].
Proof. intros w. split; vm_compute; reflexivity. Qed.



Lemma relevance_sums_over_batch_witness :
  let data := b_data (toy_batch 5) in
  exists rs : list (list (list Q) * tensor),
    Forall2 (fun i r =>
               @gradient_attributor (toy_framework 1) EpsilonAlpha2Beta1 7 data
                 (routine_target EpsilonAlpha2Beta1 data i) = Ok r)
      [0; 1; 2; 3] rs /\
    nd_mat [[7; 6]; [7; 6]; [7; 6]; [7; 6]]%Q
      = nd_mat (concat (map (fun r => sum0 (snd r)) rs)) /\
    Forall (fun r =>
              length (sum0 (snd r)) = 1%nat /\
              Forall (fun row => length row = 2%nat) (sum0 (snd r)) /\
              forall ch p,
                (entry (sum0 (snd r)) ch p ==
                 Qsum (map (fun s => entry s ch p) (snd r)))%Q) rs.
Proof.
  intros data.
  apply (@relevance_sums_over_batch (toy_framework 1) EpsilonAlpha2Beta1 7 data
           (toy_world 1 0) (toy_world 1 0)
           (nd_mat (concat (repeat [[1; 0; 0; 0]; [1; 0; 0; 0]]%Q 4)))
           (nd_mat [[7; 6]; [7; 6]; [7; 6]; [7; 6]]%Q)
           (map (fun i => EvGradient (repeat (eye_row i) 2)) [0; 1; 2; 3])).
  - discriminate.
  - intros target o a [= _ <-]. split; [reflexivity|].
    repeat constructor.
  - vm_compute. reflexivity.
Defined.

(** C8, as stated, fails: for a batch of two inputs of two elements each,
    the relevance of the four classes holds two scores per class, the sums
    over the two inputs, not a score for each of the four elements of the
    batch. *)
Lemma relevance_per_input_counterexample :
  let data := b_data (toy_batch 5) in
  exists out rel,
    result_of (@epsilonAlpha2Beta1 (toy_framework 1) 7 data) (toy_world 1 0)
      = Ok (out, rel) /\
    numel data = 4%nat /\
    length (nd_flatten rel) = (4 * 2)%nat /\
    length (nd_flatten rel) <> (4 * numel data)%nat.
Proof.
  intros data. eexists _, _. split; [vm_compute; reflexivity|].
  split; [reflexivity|]. split; [reflexivity|]. vm_compute. discriminate.
Qed.

Lemma first_validation_saves_best_iff_below_witness :
  let w := toy_world (1 # 2) 0 in
  let t := trace_of (train toy_config) w in
  (exists t', t = EvIter 0 :: EvValidate 0 0 :: t') /\
  (exists r best,
     nth_error t 14 = Some (EvValLog r best) /\
     vr_iteration r = 0 /\
     existsb is_best_save (take 14 t) = true /\
     (vr_loss r < init_best_validation_loss)%Q).
Proof.
  intros w t.
  pose proof (@first_validation_saves_best_iff_below (toy_framework (1 # 2)) toy_config w
                [toy_batch 3; toy_batch 4] (toy_batch 0) [toy_batch 1; toy_batch 2])
    as H.
  destruct H as [Hstart Hrank]; [discriminate|reflexivity|reflexivity|reflexivity|].
  split; [exact Hstart|].
  destruct (Hrank eq_refl) as [_ Hfirst].
  eexists _, _. split; [vm_compute; reflexivity|].
  edestruct (Hfirst (take 14 t)) as [Hk Hiff]; [vm_compute; reflexivity|reflexivity|].
  split; [exact Hk|]. split; [reflexivity|]. apply Hiff. reflexivity.
Defined.

(** C9, as stated, fails: when the batches of the first validation have a
    loss of 2.0e10, the validation completes on rank 0 and records its
    metrics, and no "BEST" checkpoint is saved in the whole run. *)
Lemma first_validation_without_best_counterexample :
  let w := toy_world (20000000000 # 1) 0 in
  let t := trace_of (train toy_config) w in
  result_of (train toy_config) w = Ok tt /\
  (exists r best,
     nth_error t 13 = Some (EvValLog r best) /\ vr_iteration r = 0 /\
     logged_losses (take 13 t) = [] /\
     (vr_loss r == 20000000000 # 1)%Q) /\
  existsb is_best_save t = false.
Proof.
  intros w t. split; [vm_compute; reflexivity|]. split.
  - eexists _, _. split; [vm_compute; reflexivity|].
    split; [reflexivity|]. split; [vm_compute; reflexivity|]. reflexivity.
  - vm_compute. reflexivity.
Qed.

Lemma validation_iterator_shared_witness :
  let w := toy_world 1 0 in
  exists t',
    trace_of (train toy_config) w = EvIter 0 :: t' /\
    (forall l, In (EvIter l) t' -> l <> 0%nat) /\
    (forall l k, In (EvValidate l k) t' -> l = 0%nat) /\
    starts_recovery 0%nat (drop 21 t').
Proof.
  intros w.
  destruct (@validation_iterator_shared (toy_framework 1) toy_config w
              [toy_batch 3; toy_batch 4] eq_refl) as (t' & Ht & Hi & Hv & Hr).
  exists t'. split; [exact Ht|]. split; [exact Hi|]. split; [exact Hv|].
  assert (Et : t' = tl (trace_of (train toy_config) w)) by (rewrite Ht; reflexivity).
  apply (Hr (take 20 t') 0%nat 2 (drop 21 t') 1%nat).
  - rewrite Et. vm_compute. reflexivity.
  - rewrite Et. vm_compute. auto 10.
  - lia.
  - reflexivity.
Defined.

Lemma attribution_once_per_class_witness :
  let data := b_data (toy_batch 5) in
  gradient_targets
    (trace_of (@epsilonAlpha2Beta1 (toy_framework 1) 7 data) (toy_world 1 0))
    = class_targets data /\
  eye_row 2 !! 2%nat = Some 1%Q.
Proof.
  intros data.
  destruct (@attribution_once_per_class (toy_framework 1) 7 data (toy_world 1 0))
    as [Hrun Hrow].
  split; [exact Hrun|]. apply (Hrow 2 2); lia.
Defined.

(** ** The further properties at work on the small engine *)

Lemma restore_best_state_after_best_save_witness :
  let w := set_iteration (Some 5) (toy_world 1 0) in
  let w1 := world_of (save_state "BEST") w in
  exists it opt,
    w_iteration w = Some it /\ w_optimizer w = Some opt /\
    restore_best_state w1 =
    (Ok tt,
     set_iteration (Some it)
       (match w_optimizer w1 with
        | Some _ => set_optimizer (Some opt) (set_weights (w_weights w) w1)
        | None => set_weights (w_weights w) w1
        end),
     []).
Proof.
  intros w w1.
  apply (@restore_best_state_after_best_save (toy_framework 1) w w1 w1
           "out/ResNetBEST.pth" (trace_of (save_state "BEST") w)).
  - vm_compute. reflexivity.
  - reflexivity.
  - reflexivity.
  - reflexivity.
Defined.

Lemma restore_state_is_not_atomic_witness :
  let d : gmap string (@ckpt_val (toy_framework 1)) :=
    <["state_dict" := @CWeights (toy_framework 1) 9]> ∅ in
  let d' : gmap string (@ckpt_val (toy_framework 1)) :=
    <["optimizer" := @COpt (toy_framework 1) 3]> d in
  let w := set_files (<["ckpt.pth" := CkptFile d]> ∅) (toy_world 1 0) in
  let w' := set_files (<["ckpt.pth" := CkptFile d']> ∅) (toy_world 1 0) in
  restore_state (mkRestoreConfig "ckpt.pth") w =
  (Err (KeyError "optimizer"), @set_weights (toy_framework 1) 9 w,
   [EvRaise (KeyError "optimizer")]) /\
  restore_state (mkRestoreConfig "ckpt.pth") w' =
  (Err (KeyError "global_step"),
   @set_optimizer (toy_framework 1) (Some 3) (@set_weights (toy_framework 1) 9 w'),
   [EvRaise (KeyError "global_step")]).
Proof.
  intros d d' w w'. split.
  - apply (proj1 (proj2 (proj2 (@restore_state_is_not_atomic (toy_framework 1)
                                  (mkRestoreConfig "ckpt.pth") w))) d 9).
    + reflexivity.
    + reflexivity.
    + discriminate.
    + reflexivity.
  - apply (proj2 (proj2 (proj2 (proj2 (@restore_state_is_not_atomic (toy_framework 1)
                                         (mkRestoreConfig "ckpt.pth") w')))) d' 9 3).
    + reflexivity.
    + reflexivity.
    + discriminate.
    + reflexivity.
    + reflexivity.
Defined.

Lemma fresh_engine_cannot_save_witness :
  let fresh :=
    bind (@__init__ (toy_framework 1) "ResNet" 7 true false 0 "out/")
      (fun _ => @configure_optimizers (toy_framework 1) (fun _ => Ok 0)) in
  let w := toy_world 1 0 in
  result_of fresh w = Ok tt /\
  w_optimizer (world_of fresh w) = Some 0 /\
  result_of (save_state "BEST") (world_of fresh w) = Err (AttributeError "iteration") /\
  w_files (world_of (save_state "BEST") (world_of fresh w)) = w_files w.
Proof.
  intros fresh w.
  apply (@fresh_engine_cannot_save (toy_framework 1) "ResNet" 7 true false 0 "out/"
           (fun _ => Ok 0) 0 "BEST" w).
  reflexivity.
Defined.


Lemma forward_failures_witness :
  let w := set_labels (Some []) (set_data (Some []) (toy_world 1 0)) in
  forward false w = (Err ZeroDivisionError, set_loss (Some 1%Q) w, [EvRaise ZeroDivisionError]).
Proof.
  intros w.
  apply (proj2 (@forward_failures (toy_framework 1) false w) [] [] 1%Q); reflexivity.
Defined.

Lemma attribution_arrays_stack_classes_witness :
  let data := b_data (toy_batch 5) in
  exists rows_out rows_rel,
    nd_mat (concat (repeat [[1; 0; 0; 0]; [1; 0; 0; 0]]%Q 4)) = nd_mat rows_out /\
    nd_mat [[7; 6]; [7; 6]; [7; 6]; [7; 6]]%Q = nd_mat rows_rel /\
    length rows_out = (4 * length data)%nat /\
    length rows_rel = (4 * 1)%nat /\
    Forall (fun row : list Q => length row = 2%nat) rows_rel.
Proof.
  intros data.
  apply (@attribution_arrays_stack_classes (toy_framework 1) EpsilonAlpha2Beta1 7 data
           (toy_world 1 0) (toy_world 1 0)
           (nd_mat (concat (repeat [[1; 0; 0; 0]; [1; 0; 0; 0]]%Q 4)))
           (nd_mat [[7; 6]; [7; 6]; [7; 6]; [7; 6]]%Q)
           (map (fun i => EvGradient (repeat (eye_row i) 2)) [0; 1; 2; 3])).
  - discriminate.
  - intros target o a [= <- <-]. split; [reflexivity|]. split; [reflexivity|].
    repeat constructor.
  - vm_compute. reflexivity.
Defined.

Lemma validate_records_local_mean_witness :
  let w := world_of (py_iter [toy_batch 3; toy_batch 4])
             (set_iteration (Some 0) (toy_world 1 0)) in
  let t := trace_of (validate 0%nat 2 true) w in
  length (val_forwards t) = 2%nat /\
  exists row t0,
    t = t0 ++ [EvValLog row (w_best (world_of (validate 0%nat 2 true) w))] /\
    logged_losses t0 = [] /\
    vr_iteration row = 0 /\ vr_epoch row = w_epoch w /\
    (vr_loss row == Qsum (map fst (val_forwards t)) / inject_Z 2)%Q /\
    (vr_accuracy row == Qsum (map snd (val_forwards t)) / inject_Z 2)%Q.
Proof.
  intros w t. split; [vm_compute; reflexivity|].
  apply (@validate_records_local_mean (toy_framework 1) 0%nat 2 true 0 w).
  - reflexivity.
  - reflexivity.
  - reflexivity.
  - vm_compute. reflexivity.
Defined.

Lemma get_synchronized_metrics_concatenates_witness :
  let w := toy_distributed_world 1 1 [[nd_vec [3%Q]; nd_vec [5%Q]]] in
  let out := [("loss", Arr [Sc 3%Q; Sc 1%Q; Sc 5%Q])] in
  [] = ([] : list event) /\
  map fst out = ["loss"] /\
  ([("loss", nd_vec [1%Q])] <> [] -> w_distributed w = true) /\
  exists peers,
    w_gather_in w = peers ++ w_gather_in (set_gather_in [] w) /\
    Forall3 (fun (kv : string * nd) p (o : string * nd) =>
               exists rows,
                 nd_cat (gathered (w_rank w) (snd kv) p) = Ok rows /\
                 o = (fst kv, Arr rows) /\
                 nd_flatten (Arr rows) =
                 concat (map nd_flatten (gathered (w_rank w) (snd kv) p)))
      [("loss", nd_vec [1%Q])] peers out.
Proof.
  intros w out.
  apply (@get_synchronized_metrics_concatenates (toy_framework 1)
           [("loss", nd_vec [1%Q])] w (set_gather_in [] w) out []).
  vm_compute. reflexivity.
Defined.

Lemma validate_records_mean_over_processes_witness :
  let w := world_of (py_iter [toy_batch 3; toy_batch 4])
             (set_iteration (Some 0)
                (toy_distributed_world 1 0 [[nd_vec [3%Q]]; [nd_vec [1 # 4]]])) in
  let t := trace_of (validate 0%nat 2 true) w in
  let w' := world_of (validate 0%nat 2 true) w in
  exists row t0,
    t = t0 ++ [EvValLog row (w_best w')] /\ logged_losses t0 = [] /\
    vr_iteration row = 0 /\
    (vr_loss row ==
     (Qsum (map fst (val_forwards t)) / inject_Z 2 + Qsum [3%Q])
     / inject_Z (Z.of_nat 2))%Q /\
    (vr_accuracy row ==
     (Qsum (map snd (val_forwards t)) / inject_Z 2 + Qsum [1 # 4])
     / inject_Z (Z.of_nat 2))%Q /\
    w_gather_in w' = [].
Proof.
  intros w t w'.
  apply (@validate_records_mean_over_processes (toy_framework 1) 0%nat 2 true 0 w
           [3%Q] [1 # 4] []).
  - reflexivity.
  - reflexivity.
  - reflexivity.
  - reflexivity.
  - vm_compute. reflexivity.
Defined.

Lemma train_updates_model_witness :
  let configured :=
    bind (@__init__ (toy_framework 1) "ResNet" 7 true false 0 "out/")
      (fun _ => bind (@configure_optimizers (toy_framework 1) (fun _ => Ok 0))
      (fun _ => bind (@configure_scheduler (toy_framework 1) (fun _ => Ok 0))
      (fun _ => @configure_data_loaders (toy_framework 1) None (fun _ l => l)
                  [("train", Ok [toy_batch 0; toy_batch 1; toy_batch 2]);
                   ("validation", Ok [toy_batch 3; toy_batch 4])]))) in
  let w := world_of configured (toy_world 1 0) in
  let w' := world_of (train toy_config) w in
  w_scheduler w' = Some 2 /\ w_optimizer w' = Some 6 /\ w_weights w' = 13.
Proof.
  intros configured w w'.
  apply (@train_updates_model (toy_framework 1) toy_config w 0
           [toy_batch 0; toy_batch 1; toy_batch 2]).
  - reflexivity.
  - reflexivity.
  - vm_compute. reflexivity.
Defined.

Lemma train_counters_after_run_witness :
  let w := set_iteration (Some 40) (toy_world 1 0) in
  let w' := world_of (train toy_config) w in
  w_iteration w' = Some (Z.max 0 2 * Z.of_nat 3) /\
  (0 < 2 -> w_epoch w' = 2 - 1 /\ w_step w' = Z.of_nat 3) /\
  (2 <= 0 -> w_epoch w' = 0 /\ w_step w' = 0).
Proof.
  intros w w'.
  apply (@train_counters_after_run (toy_framework 1) toy_config w
           [toy_batch 0; toy_batch 1; toy_batch 2]).
  - reflexivity.
  - vm_compute. reflexivity.
Defined.

Lemma train_log_row_per_batch_witness :
  train_log_rows (trace_of (train toy_config) (toy_world 1 0)) =
  [(1, 0); (2, 0); (3, 0); (4, 1); (5, 1); (6, 1)].
Proof.
  apply (proj2 (@train_log_row_per_batch (toy_framework 1) toy_config (toy_world 1 0))).
  vm_compute. reflexivity.
Defined.

Lemma train_zero_val_interval_witness :
  let w := toy_world 1 0 in
  exists w',
    train (mkTrainConfig 2 10 0 3 true (Some 2)) w =
    (Err ZeroDivisionError, w', [EvIter 0; EvRaise ZeroDivisionError]) /\
    w_weights w' = w_weights w /\ w_files w' = w_files w /\ w_iteration w' = Some 0.
Proof.
  intros w.
  apply (@train_zero_val_interval (toy_framework 1) (mkTrainConfig 2 10 0 3 true (Some 2)) w
           [toy_batch 3; toy_batch 4] (toy_batch 0) [toy_batch 1; toy_batch 2]).
  - reflexivity.
  - reflexivity.
  - reflexivity.
  - reflexivity.
Defined.

Lemma train_zero_num_val_batches_witness :
  let w := toy_world 1 0 in
  exists w',
    train (mkTrainConfig 2 10 2 0 true (Some 2)) w =
    (Err ZeroDivisionError, w', [EvIter 0; EvValidate 0 0; EvRaise ZeroDivisionError]) /\
    w_training w' = true /\ w_weights w' = w_weights w /\ w_files w' = w_files w.
Proof.
  intros w.
  apply (@train_zero_num_val_batches (toy_framework 1)
           (mkTrainConfig 2 10 2 0 true (Some 2)) w
           [toy_batch 3; toy_batch 4] (toy_batch 0) [toy_batch 1; toy_batch 2]).
  - reflexivity.
  - discriminate.
  - reflexivity.
  - reflexivity.
  - reflexivity.
Defined.

Lemma train_zero_report_interval_witness :
  let cfg := mkTrainConfig 2 0 2 3 true (Some 2) in
  let w := toy_world 1 0 in
  (is_ok (result_of (train cfg) w) = false /\
   train_log_rows (trace_of (train cfg) w) `prefix_of` [(1, 0)]) /\
  train_log_rows (trace_of (train cfg) w) = [(1, 0)] /\
  w_weights (world_of (train cfg) w) = 8.
Proof.
  intros cfg w. split; [|split; vm_compute; reflexivity].
  apply (@train_zero_report_interval (toy_framework 1) cfg w
           [toy_batch 3; toy_batch 4] (toy_batch 0) [toy_batch 1; toy_batch 2]);
    reflexivity.
Defined.

Lemma train_zero_save_interval_witness :
  let cfg := mkTrainConfig 2 10 2 3 true (Some 0) in
  let w := toy_world 1 0 in
  (is_ok (result_of (train cfg) w) = false /\
   train_log_rows (trace_of (train cfg) w) `prefix_of`
     train_log_spec (Z.of_nat 3) 0 3) /\
  train_log_rows (trace_of (train cfg) w) = [(1, 0); (2, 0); (3, 0)].
Proof.
  intros cfg w. split; [|vm_compute; reflexivity].
  apply (@train_zero_save_interval (toy_framework 1) cfg w
           [toy_batch 3; toy_batch 4] [toy_batch 0; toy_batch 1; toy_batch 2]);
    reflexivity.
Defined.


Lemma train_on_other_ranks_witness :
  let w := toy_world 1 1 in
  (Forall worker_event (trace_of (train toy_config) w) /\
   w_best (world_of (train toy_config) w) = init_best_validation_loss) /\
  In (EvSave "_epoch_2" "out/ResNet_epoch_2.pth") (trace_of (train toy_config) w).
Proof.
  intros w. split; [|vm_compute; auto 100].
  apply (@train_on_other_ranks (toy_framework 1) toy_config w). discriminate.
Defined.

Lemma validate_checkpoints_hold_state_witness :
  let w := world_of (py_iter [toy_batch 3; toy_batch 4])
             (set_iteration (Some 0) (toy_world 1 0)) in
  let w' := world_of (validate 0%nat 2 true) w in
  let d := CkptFile (@checkpoint_dict (toy_framework 1) 0 0 (w_weights w)) in
  (w_best w' < w_best w)%Q /\
  w_files w' !! "out/ResNetBEST.pth" = Some d /\
  w_files w' !! "out/ResNet.pth" = Some d.
Proof.
  intros w w' d.
  destruct (@validate_checkpoints_hold_state (toy_framework 1) 0%nat 2 true 0 0 w)
    as (Hbest & Hlatest & _); [reflexivity|reflexivity|reflexivity|vm_compute; reflexivity|].
  assert (Hlt : (w_best w' < w_best w)%Q) by (vm_compute; reflexivity).
  split; [exact Hlt|]. split; [exact (Hbest Hlt)|exact (Hlatest eq_refl)].
Defined.

Lemma evaluate_failure_modes_witness :
  let w := toy_world_on (<["test" := []]> toy_loaders) 1 0 in
  evaluate w = (Err ZeroDivisionError, set_training false w, [EvRaise ZeroDivisionError]).
Proof.
  intros w.
  apply (proj1 (proj2 (@evaluate_failure_modes (toy_framework 1) w))). reflexivity.
Defined.

Lemma configure_data_loaders_sets_loaders_witness :
  let cfgs := [("train", Ok [toy_batch 0]); ("validation", Ok [toy_batch 3])] in
  let relabel := fun (ls : list Z) (l : list batch) =>
                   map (fun b => mkBatch (b_data b) (map (Z.add 1) (b_labels b))
                                   (b_indices b)) l in
  let w := toy_world 1 0 in
  let w' := world_of (@configure_data_loaders (toy_framework 1) (Some [1; 2]) relabel cfgs) w in
  w_loaders w' !! "train" = Some (relabel [1; 2] [toy_batch 0]) /\
  w_loaders w' !! "test" = w_loaders w !! "test".
Proof.
  intros cfgs relabel w w'.
  destruct (@configure_data_loaders_sets_loaders (toy_framework 1) (Some [1; 2]) relabel
              cfgs w w' []) as (_ & Hin & Hout & _).
  - apply (bool_decide_unpack _). vm_compute. exact I.
  - vm_compute. reflexivity.
  - split.
    + destruct (Hin "train" (Ok [toy_batch 0])) as (loader & [= <-] & Hl);
        [apply elem_of_cons; left; reflexivity|exact Hl].
    + apply Hout. apply (bool_decide_unpack _). vm_compute. exact I.
Defined.

Lemma restore_then_save_same_checkpoint_witness :
  let w := world_of (save_state "BEST") (set_iteration (Some 5) (toy_world 1 0)) in
  exists w1 w2 fname,
    restore_state_from_file "out/ResNetBEST.pth" w = (Ok tt, w1, []) /\
    save_state "" w1 = (Ok fname, w2, [EvSave "" fname]) /\
    fname = checkpoint_filename w "" /\
    w_files w2 !! fname = w_files w !! "out/ResNetBEST.pth".
Proof.
  intros w.
  apply (@restore_then_save_same_checkpoint (toy_framework 1) "out/ResNetBEST.pth" ""
           5 0 7 w).
  - vm_compute. reflexivity.
  - discriminate.
Defined.

Lemma checkpoint_files_distinct_witness :
  let w := set_iteration (Some 5) (toy_world 1 0) in
  w_files (world_of (save_state "") (world_of (save_state "BEST") w))
    !! "out/ResNetBEST.pth" =
  w_files (world_of (save_state "BEST") w) !! "out/ResNetBEST.pth".
Proof.
  intros w.
  apply (proj2 (proj2 (proj2 (@checkpoint_files_distinct (toy_framework 1)
                                (world_of (save_state "BEST") w))))
           "" "BEST" "out/ResNet.pth" _
           (trace_of (save_state "") (world_of (save_state "BEST") w))).
  - vm_compute. reflexivity.
  - discriminate.
Defined.

Lemma epsilonPlusFlat_targets_witness :
  let data := b_data (toy_batch 5) in
  gradient_targets (trace_of (@epsilonPlusFlat (toy_framework 1) 7 data) (toy_world 1 0)) =
  [[[1; 0; 0; 0]]; [[0; 1; 0; 0]]; [[0; 0; 1; 0]]; [[0; 0; 0; 1]]]%Q.
Proof.
  intros data.
  exact (proj1 (@epsilonPlusFlat_targets (toy_framework 1) 7 data (toy_world 1 0))).
Defined.

Lemma validate_keeps_training_state_witness :
  let w := set_training false
             (world_of (py_iter [toy_batch 3; toy_batch 4])
                (set_iteration (Some 0) (toy_world 1 0))) in
  w_weights (world_of (validate 0%nat 2 true) w) = 7 /\
  w_training (world_of (validate 0%nat 2 true) w) = true.
Proof.
  intros w.
  destruct (@validate_keeps_training_state (toy_framework 1) 0%nat 2 true w)
    as (Hw & _ & _ & _ & _ & _ & _ & Ht).
  split; [exact Hw|]. apply Ht. vm_compute. reflexivity.
Defined.

Lemma train_before_first_epoch_witness :
  let w := toy_world 1 0 in
  train (mkTrainConfig 0 10 2 3 true (Some 2)) w =
  (Ok tt, at_first_epoch w [toy_batch 3; toy_batch 4], [EvIter 0]).
Proof.
  intros w.
  apply (proj1 (proj2 (@train_before_first_epoch (toy_framework 1)
                         (mkTrainConfig 0 10 2 3 true (Some 2)) w))).
  - reflexivity.
  - cbn. lia.
Defined.
